(** * codebase-indexer-cli: the incremental lexical index engine

    A shallow embedding of the path matcher ([Utils.matchGlob]), the keyword
    extractor ([Utils.extractKeywords]), the index store ([IndexerCore]), the
    query engine ([IndexerQuery.search]) and the candidate filter
    ([ConfigManager.shouldIndexFile]), with the properties the specification
    states about them.

    Conventions of the embedding.
    - A JavaScript string is the list of its code units.  Code units are
      modelled as [ascii], so the model covers the strings whose code units
      are below 256 (Latin-1); the section sign used by [matchGlob] as a
      placeholder is the single code unit 167.
    - A JavaScript object used as a dictionary is the association list of its
      own properties in creation order; reading a property that is not an own
      property continues in [Object.prototype], as [obj[key]] does.
    - Numbers that only count are [N] or [Z]; scores are exact rationals
      extended with NaN (the rounding of binary64 is not modelled).
    - Node's [fs], [path], [crypto] and [JSON] are the environment: they are
      passed as arguments. *)

From Stdlib Require Import List Ascii String Bool Arith ZArith NArith QArith Lia.
From Stdlib Require Import Sorting.Sorted Sorting.Permutation Qminmax Lqa.
Import ListNotations.

Set Implicit Arguments.

Close Scope Q_scope.

#[local] Abbreviation length := List.length.

(* ------------------------------------------------------------------------- *)
(** ** Strings of code units *)

Module JsString.

Definition jstr := list ascii.

(** A string literal of the source. *)
Definition str (s : string) : jstr := list_ascii_of_string s.

Definition code (c : ascii) : nat := nat_of_ascii c.

Definition ch_eqb (a b : ascii) : bool := Ascii.eqb a b.

Definition jstr_eqb (a b : jstr) : bool :=
  if list_eq_dec ascii_dec a b then true else false.

Definition between (lo hi : nat) (c : ascii) : bool :=
  (lo <=? code c) && (code c <=? hi).

Definition isLower (c : ascii) : bool := between 97 122 c.
Definition isUpper (c : ascii) : bool := between 65 90 c.
Definition isDigit (c : ascii) : bool := between 48 57 c.

(** [\w] of a regular expression: [[A-Za-z0-9_]]. *)
Definition isWordChar (c : ascii) : bool :=
  isLower c || isUpper c || isDigit c || (code c =? 95).

(** [\s] of a regular expression, for code units below 256: TAB, LF, VT, FF,
    CR, SPACE and NO-BREAK SPACE. *)
Definition isSpace (c : ascii) : bool :=
  between 9 13 c || (code c =? 32) || (code c =? 160).

(** [String.prototype.toLowerCase] on one code unit below 256: [A-Z] and the
    Latin-1 capitals (192..222 without the multiplication sign 215) move up
    by 32. *)
Definition lowerChar (c : ascii) : ascii :=
  if isUpper c || (between 192 222 c && negb (code c =? 215))
  then ascii_of_nat (code c + 32) else c.

Definition toLowerCase (s : jstr) : jstr := map lowerChar s.

Fixpoint startsWith (s p : jstr) {struct p} : bool :=
  match p, s with
  | [], _ => true
  | _ :: _, [] => false
  | a :: p', b :: s' => ch_eqb a b && startsWith s' p'
  end.

(** [s.includes(sub)]. *)
Fixpoint includes (s sub : jstr) : bool :=
  startsWith s sub ||
  match s with
  | [] => false
  | _ :: s' => includes s' sub
  end.

(** [s.endsWith(suf)]. *)
Definition endsWith (s suf : jstr) : bool :=
  (length suf <=? length s) &&
  jstr_eqb (skipn (length s - length suf) s) suf.

(** [s.split(sep)] for a separator that is one code unit out of a class:
    never empty, [""] splits into [[""]]. *)
Fixpoint splitBy (sep : ascii -> bool) (s : jstr) : list jstr :=
  match s with
  | [] => [[]]
  | c :: s' =>
      if sep c then [] :: splitBy sep s'
      else match splitBy sep s' with
           | w :: ws => (c :: w) :: ws
           | [] => [[c]]
           end
  end.

(** [s.split(/\s+/)] and the like: a run of separators splits once. *)
Fixpoint splitRuns (sep : ascii -> bool) (prevSep : bool) (s : jstr)
  : list jstr :=
  match s with
  | [] => [[]]
  | c :: s' =>
      if sep c then
        if prevSep then splitRuns sep true s'
        else [] :: splitRuns sep true s'
      else match splitRuns sep false s' with
           | w :: ws => (c :: w) :: ws
           | [] => [[c]]
           end
  end.

(** [arr.pop()] of a freshly split string: its last element. *)
Definition pop (l : list jstr) : jstr := last l [].

(** [s.replace(/pat/g, rep)] for a literal, non-empty [pat]: matches are
    taken left to right and do not overlap; [skip] counts the code units of
    the current match still to be dropped. *)
Fixpoint replaceAllFrom (pat rep : jstr) (skip : nat) (s : jstr) : jstr :=
  match s with
  | [] => []
  | c :: s' =>
      match skip with
      | S k => replaceAllFrom pat rep k s'
      | O =>
          if startsWith s pat
          then rep ++ replaceAllFrom pat rep (length pat - 1) s'
          else c :: replaceAllFrom pat rep 0 s'
      end
  end.

Definition replaceAll (pat rep s : jstr) : jstr := replaceAllFrom pat rep 0 s.

(** [arr.join(sep)]. *)
Fixpoint join (sep : jstr) (l : list jstr) : jstr :=
  match l with
  | [] => []
  | [x] => x
  | x :: rest => x ++ sep ++ join sep rest
  end.

End JsString.

Import JsString.

(* ------------------------------------------------------------------------- *)
(** ** Path matcher: [Utils.matchGlob] *)

Module Glob.

Definition dot : ascii := "."%char.
Definition slash : ascii := "/"%char.
Definition backslash : ascii := "\"%char.
Definition star : ascii := "*"%char.

(** The section sign, U+00A7. *)
Definition sect : ascii := ascii_of_nat 167.

(** ['§DOUBLESTAR§'] *)
Definition DOUBLESTAR : jstr := sect :: str "DOUBLESTAR" ++ [sect].

(** [/\*\*\/\*\.\w+$/] tried at the start of [s]: the five code units
    [**/*.] and then one or more word characters up to the end. *)
Definition extShapeHere (s : jstr) : bool :=
  startsWith s (str "**/*.") &&
  let rest := skipn 5 s in
  negb (length rest =? 0) && forallb isWordChar rest.

(** [pattern.match(/\*\*\/\*\.\w+$/)]: the regular expression is not anchored
    on the left, so it is tried at every position. *)
Fixpoint isExtensionPattern (pattern : jstr) : bool :=
  extShapeHere pattern ||
  match pattern with
  | [] => false
  | _ :: p' => isExtensionPattern p'
  end.

Definition isDot (c : ascii) : bool := ch_eqb c dot.
Definition isPathSep (c : ascii) : bool := ch_eqb c slash || ch_eqb c backslash.

(** [filePath.split(/[\/\\]/).pop()] *)
Definition lastSegment (filePath : jstr) : jstr := pop (splitBy isPathSep filePath).

(** The glob to regular expression rewriting of the general branch, in the
    order of the source. *)
Definition regexPattern (pattern : jstr) : jstr :=
  replaceAll [dot] [backslash; dot]
    (replaceAll (str "?") [dot]
      (replaceAll DOUBLESTAR (str ".*")
        (replaceAll (str "*") (str "[^/]*")
          (replaceAll (str "**") DOUBLESTAR pattern)))).

(** *** The regular expressions the rewriting produces

    [new RegExp] is modelled for the fragment the rewriting can produce from
    a pattern without other metacharacters: literals, escaped syntax
    characters, the class [[^/]], the wildcard [.], each optionally starred.
    Outside this fragment the model gives [None]. *)

Inductive atom : Type :=
| ALit (c : ascii)    (* one given code unit *)
| ANotSlash           (* [^/] *)
| AAny.               (* . : anything but a line terminator *)

Inductive item : Type :=
| One (a : atom)
| Star (a : atom).

Definition isSyntaxChar (c : ascii) : bool :=
  existsb (ch_eqb c) (str "^$\.*+?()[]{}|").

(** The code units a backslash turns into a literal. *)
Definition isEscapable (c : ascii) : bool := isSyntaxChar c || ch_eqb c slash.

Definition isLineTerminator (c : ascii) : bool :=
  (code c =? 10) || (code c =? 13).

Definition atomMatches (a : atom) (c : ascii) : bool :=
  match a with
  | ALit d => ch_eqb d c
  | ANotSlash => negb (ch_eqb c slash)
  | AAny => negb (isLineTerminator c)
  end.

(** Reads one atom at the head of [s]; [n] is the number of code units it
    takes. *)
Definition readAtom (s : jstr) : option (atom * nat) :=
  match s with
  | [] => None
  | c :: s1 =>
      if ch_eqb c backslash then
        match s1 with
        | e :: _ => if isEscapable e then Some (ALit e, 2) else None
        | [] => None
        end
      else if ch_eqb c "["%char then
        if startsWith s1 (str "^/]") then Some (ANotSlash, 4) else None
      else if ch_eqb c dot then Some (AAny, 1)
      else if isSyntaxChar c then None
      else Some (ALit c, 1)
  end.

(** The parser walks the string once; [skip] counts the code units of the
    item just read that are still to be passed over. *)
Fixpoint parseFrom (skip : nat) (s : jstr) : option (list item) :=
  match s with
  | [] => match skip with O => Some [] | S _ => None end
  | _ :: s' =>
      match skip with
      | S k => parseFrom k s'
      | O =>
          match readAtom s with
          | None => None
          | Some (a, n) =>
              if startsWith (skipn n s) [star]
              then option_map (cons (Star a)) (parseFrom n s')
              else option_map (cons (One a)) (parseFrom (n - 1) s')
          end
      end
  end.

Definition parseRegex (s : jstr) : option (list item) := parseFrom 0 s.

(** [^items$] against the whole string, by backtracking. *)
Fixpoint matchItems (r : list item) : jstr -> bool :=
  match r with
  | [] => fun s => match s with [] => true | _ :: _ => false end
  | One a :: r' =>
      fun s => match s with
               | [] => false
               | c :: s' => atomMatches a c && matchItems r' s'
               end
  | Star a :: r' =>
      fix many (s : jstr) : bool :=
        matchItems r' s ||
        match s with
        | [] => false
        | c :: s' => atomMatches a c && many s'
        end
  end.

(** [new RegExp(`^${regexPattern}$`).test(filePath)] *)
Definition regexTest (regex filePath : jstr) : option bool :=
  option_map (fun r => matchItems r filePath) (parseRegex regex).

(** [Utils.matchGlob(filePath, pattern)] *)
Definition matchGlob (filePath pattern : jstr) : option bool :=
  if isExtensionPattern pattern then
    let ext := pop (splitBy isDot pattern) in
    Some (endsWith (lastSegment filePath) (dot :: ext))
  else regexTest (regexPattern pattern) filePath.

End Glob.

Import Glob.

(* ------------------------------------------------------------------------- *)
(** ** Objects used as dictionaries *)

Module JsObject.

(** The own properties of an object, in the order of their creation. *)
Definition obj (V : Type) : Type := list (jstr * V).

(** The property names every ordinary object inherits from
    [Object.prototype]. *)
Definition protoKeys : list jstr :=
  map str ["constructor"; "__proto__"; "hasOwnProperty"; "isPrototypeOf";
           "propertyIsEnumerable"; "toLocaleString"; "toString"; "valueOf";
           "__defineGetter__"; "__defineSetter__"; "__lookupGetter__";
           "__lookupSetter__"]%string.

Definition isProtoKey (k : jstr) : bool := existsb (jstr_eqb k) protoKeys.

Section Dict.
Variable V : Type.

Fixpoint ownGet (k : jstr) (o : obj V) : option V :=
  match o with
  | [] => None
  | (k', v) :: o' => if jstr_eqb k k' then Some v else ownGet k o'
  end.

(** [Object.keys] in the order of creation. *)
Definition keys (o : obj V) : list jstr := map fst o.

(** What [o[k]] evaluates to. *)
Inductive lookup : Type :=
| Own (v : V)     (* an own property *)
| Inherited       (* a member of [Object.prototype]: a function or an object *)
| Absent.         (* [undefined] *)

Definition get (k : jstr) (o : obj V) : lookup :=
  match ownGet k o with
  | Some v => Own v
  | None => if isProtoKey k then Inherited else Absent
  end.

Fixpoint upsert (k : jstr) (v : V) (o : obj V) : obj V :=
  match o with
  | [] => [(k, v)]
  | (k', v') :: o' =>
      if jstr_eqb k k' then (k, v) :: o' else (k', v') :: upsert k v o'
  end.

(** [o[k] = v].  Assigning to [__proto__] goes to the accessor of
    [Object.prototype] and replaces the prototype instead of creating a
    property: that is outside the model ([None]). *)
Definition set (k : jstr) (v : V) (o : obj V) : option (obj V) :=
  if jstr_eqb k (str "__proto__") then None else Some (upsert k v o).

(** [delete o[k]] *)
Definition delete (k : jstr) (o : obj V) : obj V :=
  filter (fun kv => negb (jstr_eqb k (fst kv))) o.

(** The value of a string of decimal digits. *)
Definition digitsValue (k : jstr) : N :=
  fold_left (fun acc c => (10 * acc + N.of_nat (code c - 48))%N) k 0%N.

(** An array index: the canonical decimal form of an integer below
    [2^32 - 1]. *)
Definition isArrayIndex (k : jstr) : bool :=
  match k with
  | [] => false
  | c :: rest =>
      forallb isDigit k &&
      (negb (ch_eqb c "0"%char) || (length rest =? 0)) &&
      (length k <=? 10) && (digitsValue k <=? 4294967294)%N
  end.

Fixpoint insertIndex (kv : jstr * V) (l : obj V) : obj V :=
  match l with
  | [] => [kv]
  | kv' :: l' =>
      if (digitsValue (fst kv) <=? digitsValue (fst kv'))%N
      then kv :: l else kv' :: insertIndex kv l'
  end.

Definition sortIndex (l : obj V) : obj V := fold_right insertIndex [] l.

(** [Object.entries(o)]: the array indices in ascending numeric order, then
    the other names in the order of their creation. *)
Definition entries (o : obj V) : list (jstr * V) :=
  sortIndex (filter (fun kv => isArrayIndex (fst kv)) o) ++
  filter (fun kv => negb (isArrayIndex (fst kv))) o.

(** [Object.values(o)] *)
Definition values (o : obj V) : list V := map snd (entries o).

(** [Object.fromEntries(l)]: every pair is created as a data property (the
    accessor [__proto__] plays no part), a repeated name keeps its place and
    takes the last value. *)
Fixpoint fromEntriesInto (l : list (jstr * V)) (o : obj V) : obj V :=
  match l with
  | [] => o
  | (k, v) :: l' => fromEntriesInto l' (upsert k v o)
  end.

Definition fromEntries (l : list (jstr * V)) : obj V :=
  fromEntriesInto l [].

End Dict.

Arguments Inherited {V}.
Arguments Absent {V}.

End JsObject.

Import JsObject.

(* ------------------------------------------------------------------------- *)
(** ** Content fingerprinter: [Utils.extractKeywords] *)

Module Keywords.

(** [/[^a-z0-9\s]/g] replaced by a space. *)
Definition sanitize (c : ascii) : ascii :=
  if isLower c || isDigit c || isSpace c then c else " "%char.

(** The words of a text: lower case, cleaned, split at white space, longer
    than three code units. *)
Definition words (text : jstr) : list jstr :=
  filter (fun w => 3 <? length w)
         (splitRuns isSpace false (map sanitize (toLowerCase text))).

(** [words.forEach(word => freq[word] = (freq[word] || 0) + 1)].  For the
    word [constructor] the first read finds the inherited function, and the
    entry becomes a string instead of a count: the model stops there
    ([None]). *)
Fixpoint countWords (ws : list jstr) (freq : obj N) : option (obj N) :=
  match ws with
  | [] => Some freq
  | word :: ws' =>
      match get word freq with
      | Inherited => None
      | Own n =>
          match set word (n + 1)%N freq with
          | Some freq' => countWords ws' freq'
          | None => None
          end
      | Absent =>
          match set word 1%N freq with
          | Some freq' => countWords ws' freq'
          | None => None
          end
      end
  end.

Definition stopWords : list jstr :=
  map str ["this"; "that"; "with"; "from"; "have"; "will"; "would"; "could";
           "should"; "about"; "which"; "their"; "there"; "where"; "when";
           "what"; "them"; "then"; "than"; "these"; "those"; "some"; "into";
           "only"; "also"; "over"; "such"; "just"; "more"; "very"; "been";
           "were"; "they"; "been"; "have"; "make"; "after"; "before";
           "through"]%string.

Definition isStopWord (w : jstr) : bool := existsb (jstr_eqb w) stopWords.

(** [.sort((a, b) => b[1] - a[1])].  The sort of an array is stable; for a
    consistent comparison it is the insertion sort that puts an entry in
    front of the first one it does not have to follow. *)
Fixpoint insertDesc (x : jstr * N) (l : list (jstr * N)) : list (jstr * N) :=
  match l with
  | [] => [x]
  | y :: l' =>
      if (snd y <=? snd x)%N then x :: l else y :: insertDesc x l'
  end.

Definition sortDesc (l : list (jstr * N)) : list (jstr * N) :=
  fold_right insertDesc [] l.

(** [Utils.extractKeywords(text, maxKeywords = 20)] *)
Definition extractKeywordsMax (text : jstr) (maxKeywords : nat)
  : option (obj N) :=
  match countWords (words text) [] with
  | None => None
  | Some freq =>
      let filtered :=
        firstn maxKeywords
          (sortDesc
             (filter (fun e => negb (isStopWord (fst e))) (entries freq))) in
      Some (fromEntries filtered)
  end.

Definition extractKeywords (text : jstr) : option (obj N) :=
  extractKeywordsMax text 20.

End Keywords.

Import Keywords.

(* ------------------------------------------------------------------------- *)
(** ** Index store and indexing pipeline: [IndexerCore] *)

Module Store.

Record FileRecord : Type := mkFileRecord {
  file_path : jstr;
  content : jstr;
  hash : jstr;
  size : Z;
  lines : nat;
  extension : jstr;
  modified_at : jstr;
  indexed_at : jstr
}.

(** The document [{ files, keywords, metadata, version }]. *)
Record Database : Type := mkDatabase {
  files : obj FileRecord;
  keywords : obj (obj N);
  metadata : obj jstr;
  version : option jstr
}.

(** What [fs.statSync] gives: [size] and [mtime.toISOString()]. *)
Record Stats : Type := mkStats {
  stat_size : Z;
  stat_mtime : jstr
}.

(** The persisted index document, as [fs] shows it. *)
Inductive Document : Type :=
| Missing                    (* [fs.existsSync] is false *)
| Unreadable (message : jstr) (* [fs.readFileSync] throws *)
| Text (data : jstr).

(** The environment: a result of [inr message] is a thrown [Error]. *)
Record Env : Type := mkEnv {
  readFileSync : jstr -> jstr + jstr;
  statSync : jstr -> Stats + jstr;
  path_relative : jstr -> jstr -> jstr;
  path_normalize : jstr -> jstr;
  path_extname : jstr -> jstr;
  md5 : jstr -> jstr;
  getTimestamp : jstr;
  JSON_parse : jstr -> option Database
}.

(** [Utils.getRelativePath(from, to)] *)
Definition getRelativePath (env : Env) (from to : jstr) : jstr :=
  replaceAll [backslash] [slash] (path_relative env from to).

(** [Utils.getHash(content)] *)
Definition getHash (env : Env) (text : jstr) : jstr := md5 env text.

(** [Utils.getExtension(filePath)] *)
Definition getExtension (env : Env) (filePath : jstr) : jstr :=
  toLowerCase (path_extname env filePath).

(** [Utils.countLines(content)] *)
Definition countLines (text : jstr) : nat :=
  length (splitBy (fun c => code c =? 10) text).

(** An [IndexerCore]: the database in memory and the documents handed to
    [fs.writeFileSync] so far, the latest first. *)
Record Indexer : Type := mkIndexer {
  db : Database;
  written : list Database
}.

Definition emptyDatabase : Database :=
  mkDatabase [] [] [] (Some (str "1.0.0")).

(** [IndexerCore.loadDatabase()] *)
Definition loadDatabase (env : Env) (doc : Document) : Database :=
  match doc with
  | Missing => emptyDatabase
  | Unreadable _ => emptyDatabase
  | Text data =>
      match JSON_parse env data with
      | Some d => d
      | None => emptyDatabase
      end
  end.

(** [new IndexerCore(projectId)] *)
Definition open (env : Env) (doc : Document) : Indexer :=
  mkIndexer (loadDatabase env doc) [].

(** [IndexerCore.saveDatabase()] *)
Definition saveDatabase (ix : Indexer) : Indexer :=
  mkIndexer (db ix) (db ix :: written ix).

Inductive IndexResult : Type :=
| Indexed (path : jstr) (sz : Z)
| Unchanged (path : jstr)
| Error (path : jstr) (message : jstr).

(** [this.db.files[relativePath] && this.db.files[relativePath].hash === hash] *)
Definition sameHash (fs : obj FileRecord) (relativePath h : jstr) : bool :=
  match get relativePath fs with
  | Own r => jstr_eqb (hash r) h
  | Inherited => false
  | Absent => false
  end.

(** [IndexerCore.indexFile(filePath, projectPath)]; [None] where the model of
    [set] or of [extractKeywords] ends. *)
Definition indexFile (env : Env) (filePath projectPath : jstr) (ix : Indexer)
  : option (Indexer * IndexResult) :=
  let relativePath := getRelativePath env projectPath filePath in
  match readFileSync env filePath with
  | inr message => Some (ix, Error filePath message)
  | inl text =>
      let h := getHash env text in
      match statSync env filePath with
      | inr message => Some (ix, Error filePath message)
      | inl stats =>
          if sameHash (files (db ix)) relativePath h
          then Some (ix, Unchanged relativePath)
          else
            let ext := getExtension env filePath in
            let n := countLines text in
            match extractKeywords text with
            | None => None
            | Some kws =>
                let record :=
                  mkFileRecord relativePath text h (stat_size stats) n ext
                               (stat_mtime stats) (getTimestamp env) in
                match set relativePath record (files (db ix)) with
                | None => None
                | Some files' =>
                    match set relativePath kws (keywords (db ix)) with
                    | None => None
                    | Some keywords' =>
                        let db' := mkDatabase files' keywords'
                                     (metadata (db ix)) (version (db ix)) in
                        Some (saveDatabase (mkIndexer db' (written ix)),
                              Indexed relativePath (stat_size stats))
                    end
                end
            end
      end
  end.

(** [!!this.db.files[relativePath]] *)
Definition truthy (l : lookup FileRecord) : bool :=
  match l with
  | Own _ => true
  | Inherited => true
  | Absent => false
  end.

(** [IndexerCore.removeFile(filePath, projectPath)] *)
Definition removeFile (env : Env) (filePath projectPath : jstr) (ix : Indexer)
  : Indexer * bool :=
  let relativePath := getRelativePath env projectPath filePath in
  let existed := truthy (get relativePath (files (db ix))) in
  let db' := mkDatabase (delete relativePath (files (db ix)))
                        (delete relativePath (keywords (db ix)))
                        (metadata (db ix)) (version (db ix)) in
  let ix' := mkIndexer db' (written ix) in
  (if existed then saveDatabase ix' else ix', existed).

(** [IndexerCore.getAllFiles()] *)
Definition getAllFiles (ix : Indexer) : list FileRecord :=
  values (files (db ix)).

(** [IndexerCore.clear()] *)
Definition clear (ix : Indexer) : Indexer :=
  saveDatabase (mkIndexer emptyDatabase (written ix)).

(** [IndexerCore.close()] *)
Definition close (ix : Indexer) : Indexer := saveDatabase ix.

End Store.

Import Store.
(* ------------------------------------------------------------------------- *)
(** ** Numbers of the scoring *)

Module JsNumber.

(** A score: an exact rational, or NaN.  The sums below are exact; the
    program adds binary64 numbers, whose sums can differ from the exact
    ones in the last place (0.5 + 0.2 + 0.2 is 0.8999999999999999 there).
    A comparison of two given numbers, their minimum and the sign of their
    difference are the same in both. *)
Inductive jsnum : Type :=
| Num (q : Q)
| NaN.

Definition jadd (a b : jsnum) : jsnum :=
  match a, b with
  | Num x, Num y => Num (Qred (x + y))
  | _, _ => NaN
  end.

Definition jsub (a b : jsnum) : jsnum :=
  match a, b with
  | Num x, Num y => Num (Qred (x - y))
  | _, _ => NaN
  end.

Definition jmul (a b : jsnum) : jsnum :=
  match a, b with
  | Num x, Num y => Num (Qred (x * y))
  | _, _ => NaN
  end.

(** [a / b]; the divisors of the program are non-zero constants, a zero
    divisor (an infinity in JavaScript) is not modelled and gives NaN. *)
Definition jdiv (a b : jsnum) : jsnum :=
  match a, b with
  | Num x, Num y => if Qeq_bool y 0 then NaN else Num (Qred (x / y))
  | _, _ => NaN
  end.

(** [Math.min(a, b)] *)
Definition jmin (a b : jsnum) : jsnum :=
  match a, b with
  | Num x, Num y => Num (Qmin x y)
  | _, _ => NaN
  end.

(** [a >= b] *)
Definition jge (a b : jsnum) : bool :=
  match a, b with
  | Num x, Num y => Qle_bool y x
  | _, _ => false
  end.

(** [a > 0] *)
Definition jpositive (a : jsnum) : bool :=
  match a with
  | Num x => negb (Qle_bool x 0)
  | NaN => false
  end.

Definition ofN (n : N) : jsnum := Num (inject_Z (Z.of_N n)).

End JsNumber.

Import JsNumber.

(* ------------------------------------------------------------------------- *)
(** ** Query engine: [IndexerQuery] *)

Module Query.

(** [getDefaultConfig().search]: the fields [search] reads. *)
Record SearchConfig : Type := mkSearchConfig {
  cfg_maxResults : Z;
  cfg_minScore : jsnum
}.

Definition defaultSearchConfig : SearchConfig :=
  mkSearchConfig 10 (Num 0.3%Q).

(** The [options] argument; an absent field takes the configured value. *)
Record Options : Type := mkOptions {
  maxResults : option Z;
  minScore : option jsnum
}.

Definition noOptions : Options := mkOptions None None.

Record Result : Type := mkResult {
  filePath : jstr;
  score : jsnum;
  snippet : jstr;
  lineNumber : nat;
  matchType : jstr
}.

(** [IndexerQuery.loadDatabase()] *)
Definition loadDatabase (env : Env) (doc : Document) : Database :=
  match doc with
  | Missing => mkDatabase [] [] [] None
  | Unreadable _ => mkDatabase [] [] [] None
  | Text data =>
      match JSON_parse env data with
      | Some d => d
      | None => mkDatabase [] [] [] None
      end
  end.

Definition isNewline (c : ascii) : bool := code c =? 10.

(** [arr.slice(start, end)] for indices within the natural numbers. *)
Definition slice (A : Type) (first last : nat) (l : list A) : list A :=
  firstn (last - first) (skipn first l).

Fixpoint findLine (searchLower : jstr) (ls : list jstr) (i : nat)
  : option nat :=
  match ls with
  | [] => None
  | l :: ls' =>
      if includes (toLowerCase l) searchLower then Some i
      else findLine searchLower ls' (S i)
  end.

(** [Utils.createSnippet(content, searchTerm, contextLines)]: the line number
    and the snippet. *)
Definition createSnippet (text searchTerm : jstr) (contextLines : nat)
  : nat * jstr :=
  let ls := splitBy isNewline text in
  let searchLower := toLowerCase searchTerm in
  match findLine searchLower ls 0 with
  | Some i =>
      let first := Nat.max 0 (i - contextLines) in
      let last := Nat.min (length ls) (i + contextLines + 1) in
      (i + 1, join [ascii_of_nat 10] (slice first last ls))
  | None => (1, join [ascii_of_nat 10] (slice 0 5 ls))
  end.

(** [queryLower.split(/\s+/).filter(w => w.length > 2)] *)
Definition queryWords (queryLower : jstr) : list jstr :=
  filter (fun w => 2 <? length w) (splitRuns isSpace false queryLower).

(** One round of the first [forEach]. *)
Definition wordGain (contentLower pathLower : jstr) (s : jsnum) (word : jstr)
  : jsnum :=
  let s1 := if includes contentLower word then jadd s (Num 0.2%Q) else s in
  if includes pathLower word then jadd s1 (Num 0.3%Q) else s1.

(** [0.3 * Math.min(v, 5) / 5] *)
Definition keywordTerm (v : jsnum) : jsnum :=
  jdiv (jmul (Num 0.3%Q) (jmin v (Num 5%Q))) (Num 5%Q).

(** One round of the second [forEach]: [if (keywords[word]) score += ...].
    An inherited member is truthy and is not a number. *)
Definition keywordGain (kws : obj N) (s : jsnum) (word : jstr) : jsnum :=
  match get word kws with
  | Own n => if (n =? 0)%N then s else jadd s (keywordTerm (ofN n))
  | Inherited => jadd s (keywordTerm NaN)
  | Absent => s
  end.

(** The score of one file before the clamp. *)
Definition fileScore (kws : obj N) (queryLower path text : jstr) : jsnum :=
  let contentLower := toLowerCase text in
  let pathLower := toLowerCase path in
  let s0 := Num 0%Q in
  let s1 := if includes contentLower queryLower
            then jadd s0 (Num 0.5%Q) else s0 in
  let s2 := fold_left (wordGain contentLower pathLower)
                      (queryWords queryLower) s1 in
  fold_left (keywordGain kws) (queryWords queryLower) s2.

(** [this.db.keywords[filePath] || {}].  When the path names a member of
    [Object.prototype] and has no histogram of its own, the expression is
    that member: outside the model ([None]). *)
Definition histogramOf (d : Database) (path : jstr) : option (obj N) :=
  match get path (keywords d) with
  | Own h => Some h
  | Absent => Some []
  | Inherited => None
  end.

(** The body of the loop over [Object.entries(this.db.files)]. *)
Fixpoint collect (d : Database) (query : jstr) (minS : jsnum)
  (es : list (jstr * FileRecord)) : option (list Result) :=
  match es with
  | [] => Some []
  | (path, fileData) :: es' =>
      match histogramOf d path, collect d query minS es' with
      | Some kws, Some rest =>
          let s := fileScore kws (toLowerCase query) path (content fileData) in
          if jge s minS then
            let sn := createSnippet (content fileData) query 2 in
            Some (mkResult path (jmin s (Num 1%Q)) (snd sn) (fst sn)
                           (str "content") :: rest)
          else Some rest
      | _, _ => None
      end
  end.

(** [results.sort((a, b) => b.score - a.score)]: stable; an entry goes in
    front of the first one that the comparison does not put before it. *)
Fixpoint insertResult (x : Result) (l : list Result) : list Result :=
  match l with
  | [] => [x]
  | y :: l' =>
      if jpositive (jsub (score y) (score x))
      then y :: insertResult x l' else x :: l
  end.

Definition sortResults (l : list Result) : list Result :=
  fold_right insertResult [] l.

(** [results.slice(0, maxResults)]: a negative end counts from the back. *)
Definition sliceTo (A : Type) (last : Z) (l : list A) : list A :=
  if (last <? 0)%Z
  then firstn (Z.to_nat (Z.max (Z.of_nat (length l) + last) 0)) l
  else firstn (Z.to_nat last) l.

(** [maxResults = this.searchConfig.maxResults] of the destructuring. *)
Definition maxResultsOf (cfg : SearchConfig) (options : Options) : Z :=
  match maxResults options with
  | Some m => m
  | None => cfg_maxResults cfg
  end.

(** [minScore = this.searchConfig.minScore] of the destructuring. *)
Definition minScoreOf (cfg : SearchConfig) (options : Options) : jsnum :=
  match minScore options with
  | Some m => m
  | None => cfg_minScore cfg
  end.

(** [IndexerQuery.search(query, options)] *)
Definition search (cfg : SearchConfig) (d : Database) (query : jstr)
  (options : Options) : option (list Result) :=
  match collect d query (minScoreOf cfg options) (entries (files d)) with
  | Some results =>
      Some (sliceTo (maxResultsOf cfg options) (sortResults results))
  | None => None
  end.

End Query.

Import Query.

(* ------------------------------------------------------------------------- *)
(** ** Candidate filter: [ConfigManager.shouldIndexFile] *)

Module Config.

(** The project configuration: the fields the filter reads. *)
Record ProjectConfig : Type := mkProjectConfig {
  include : list jstr;
  exclude : list jstr;
  maxFileSize : Z
}.

(** [getDefaultConfig().defaults] *)
Definition defaultConfig : ProjectConfig :=
  mkProjectConfig
    (map str ["**/*.js"; "**/*.jsx"; "**/*.ts"; "**/*.tsx";
              "**/*.java"; "**/*.cs"; "**/*.py"; "**/*.rb";
              "**/*.php"; "**/*.go"; "**/*.rs"; "**/*.cpp"; "**/*.c";
              "**/*.h";
              "**/*.html"; "**/*.htm"; "**/*.css"; "**/*.scss"; "**/*.sass";
              "**/*.json"; "**/*.xml"; "**/*.yaml"; "**/*.yml";
              "**/*.jsp"; "**/*.jds"; "**/*.jdc";
              "**/*.sql"; "**/*.md"; "**/*.txt"]%string)
    (map str ["**/node_modules/**"; "**/target/**"; "**/bin/**"; "**/obj/**";
              "**/.git/**"; "**/.svn/**"; "**/.hg/**"; "**/dist/**";
              "**/build/**";
              "**/*.class"; "**/*.jar"; "**/*.war"; "**/*.ear"; "**/*.dll";
              "**/*.exe"; "**/*.so"; "**/*.dylib"; "**/*.o"; "**/*.a";
              "**/*.gif"; "**/*.png"; "**/*.jpg"; "**/*.jpeg"; "**/*.svg";
              "**/*.ico"; "**/*.pdf"; "**/*.zip"; "**/*.tar"; "**/*.gz";
              "**/*.rar"; "**/*.7z";
              "**/logs/**"; "**/log/**"; "**/temp/**"; "**/tmp/**";
              "**/.codebase-index/**"; "**/.indexer/**"]%string)
    5242880.

(** [Utils.normalizePath(filePath)] *)
Definition normalizePath (env : Env) (filePath : jstr) : jstr :=
  replaceAll [backslash] [slash] (path_normalize env filePath).

Definition binaryExtensions : list jstr :=
  map str [".jpg"; ".jpeg"; ".png"; ".gif"; ".bmp"; ".ico"; ".svg";
           ".pdf"; ".zip"; ".tar"; ".gz"; ".rar"; ".7z";
           ".exe"; ".dll"; ".so"; ".dylib"; ".bin";
           ".class"; ".jar"; ".war"; ".ear";
           ".db"; ".sqlite"; ".mdb";
           ".mp3"; ".mp4"; ".avi"; ".mov"; ".wav";
           ".ttf"; ".woff"; ".woff2"; ".eot"]%string.

(** [Utils.isBinaryFile(filePath)] *)
Definition isBinaryFile (env : Env) (filePath : jstr) : bool :=
  existsb (jstr_eqb (getExtension env filePath)) binaryExtensions.

(** [patterns.some(pattern => this.matchGlob(path, pattern))]: stops at the
    first match. *)
Fixpoint someMatch (path : jstr) (patterns : list jstr) : option bool :=
  match patterns with
  | [] => Some false
  | pattern :: rest =>
      match matchGlob path pattern with
      | None => None
      | Some true => Some true
      | Some false => someMatch path rest
      end
  end.

(** [Utils.matchesAnyPattern(filePath, patterns)] *)
Definition matchesAnyPattern (env : Env) (filePath : jstr)
  (patterns : list jstr) : option bool :=
  someMatch (normalizePath env filePath) patterns.

(** [Utils.getStatsSafe(filePath)] *)
Definition getStatsSafe (env : Env) (filePath : jstr) : option Stats :=
  match statSync env filePath with
  | inl stats => Some stats
  | inr _ => None
  end.

(** [ConfigManager.shouldIndexFile(filePath, projectConfig)]; [None] where a
    pattern leaves the modelled fragment. *)
Definition shouldIndexFile (env : Env) (filePath : jstr)
  (projectConfig : ProjectConfig) : option bool :=
  let normalizedPath := normalizePath env filePath in
  if isBinaryFile env normalizedPath then Some false
  else
    match matchesAnyPattern env normalizedPath (exclude projectConfig) with
    | None => None
    | Some true => Some false
    | Some false =>
        match matchesAnyPattern env normalizedPath (include projectConfig) with
        | None => None
        | Some true =>
            match getStatsSafe env filePath with
            | Some stats =>
                if (stat_size stats <=? maxFileSize projectConfig)%Z
                then Some true else Some false
            | None => Some false
            end
        | Some false => Some false
        end
    end.

End Config.

Import Config.
(* ------------------------------------------------------------------------- *)
(** ** Predicates of the specification *)

Module Spec.

(** [name] is the last segment of [path]: it holds no separator and either
    is the whole path or follows the last separator. *)
Definition is_final_segment (path name : jstr) : Prop :=
  forallb (fun c => negb (isPathSep c)) name = true /\
  (path = name \/
   exists dir c, isPathSep c = true /\ path = dir ++ c :: name).

(** The pattern [**/*.<ext>]. *)
Definition extensionPattern (ext : jstr) : jstr := str "**/*." ++ ext.

(** The file name of [path] ends with [.<ext>]. *)
Definition filename_has_extension (path ext : jstr) : Prop :=
  exists name stem, is_final_segment path name /\ name = stem ++ dot :: ext.

(** How often [w] occurs among [ws]. *)
Fixpoint frequency (w : jstr) (ws : list jstr) : N :=
  match ws with
  | [] => 0%N
  | x :: r => ((if jstr_eqb w x then 1 else 0) + frequency w r)%N
  end.

(** Where [w] occurs first among [ws]. *)
Fixpoint firstIndex (w : jstr) (ws : list jstr) : nat :=
  match ws with
  | [] => 0
  | x :: r => if jstr_eqb w x then 0 else S (firstIndex w r)
  end.

(** The word of [a] is seen before the word of [b]. *)
Definition seen_before (ws : list jstr) (a b : jstr * N) : Prop :=
  firstIndex (fst a) ws < firstIndex (fst b) ws.

(** [a] comes before [b]: it is more frequent, or as frequent and seen
    first. *)
Definition keyword_order (ws : list jstr) (a b : jstr * N) : Prop :=
  (snd b < snd a)%N \/ (snd a = snd b /\ seen_before ws a b).

(** A histogram listed by descending frequency, ties in first-seen order. *)
Definition keywords_ordered (ws : list jstr) (l : list (jstr * N)) : Prop :=
  StronglySorted (keyword_order ws) l.

(** The distinct words of [ws] with their frequencies, in first-seen order. *)
Fixpoint tally (ws : list jstr) : obj N :=
  match ws with
  | [] => []
  | w :: r => (w, (1 + frequency w r)%N) :: delete w (tally r)
  end.

(** The words the keyword model covers: no array index, which an object
    enumerates before its other names, and not [constructor], which the
    counting object inherits. *)
Definition plainWord (w : jstr) : bool :=
  negb (isArrayIndex w) && negb (jstr_eqb w (str "constructor")).

(** A lower-case letter or a digit. *)
Definition alnum (c : ascii) : bool := isLower c || isDigit c.

(** The counts of [f] raised by the occurrences among [ws]. *)
Definition bump (f : obj N) (ws : list jstr) : obj N :=
  map (fun kv => (fst kv, (snd kv + frequency (fst kv) ws)%N)) f.

(** The entries of [l] whose name [f] does not have. *)
Definition fresh (f : obj N) (l : obj N) : obj N :=
  filter (fun kv => negb (existsb (jstr_eqb (fst kv)) (keys f))) l.

(** Every record of the store is filed under its own path. *)
Definition keyed_by_path (fs : obj FileRecord) : Prop :=
  Forall (fun kv => file_path (snd kv) = fst kv) fs.

(** The persisted document is missing, unreadable, or not valid JSON. *)
Definition unusable (env : Env) (doc : Document) : Prop :=
  match doc with
  | Missing => True
  | Unreadable _ => True
  | Text data => JSON_parse env data = None
  end.

(** *** The score as the specification words it *)

Definition gain (b : bool) (q : Q) : Q := if b then q else 0%Q.

(** [+0.2] if the content contains the word, [+0.3] if the path does. *)
Definition wordTerm (contentLower pathLower word : jstr) : Q :=
  (gain (includes contentLower word) 0.2 +
   gain (includes pathLower word) 0.3)%Q.

(** [+0.3 * min(count, 5) / 5] for a word present in the histogram. *)
Definition histogramTerm (kws : obj N) (word : jstr) : Q :=
  match ownGet word kws with
  | Some n => (0.3 * Qmin (inject_Z (Z.of_N n)) 5 / 5)%Q
  | None => 0%Q
  end.

Definition sumQ (l : list Q) : Q := fold_right Qplus 0%Q l.

Definition claimedScore (kws : obj N) (query path text : jstr) : Q :=
  let queryLower := toLowerCase query in
  let contentLower := toLowerCase text in
  let pathLower := toLowerCase path in
  (gain (includes contentLower queryLower) 0.5 +
   sumQ (map (wordTerm contentLower pathLower) (queryWords queryLower)) +
   sumQ (map (histogramTerm kws) (queryWords queryLower)))%Q.

(** The score of a result, as claimed: the sum clamped at 1. *)
Definition claimedReported (kws : obj N) (query path text : jstr) : Q :=
  Qmin (claimedScore kws query path text) 1.

(** *** The result list *)

(** [a] does not score below [b]. *)
Definition score_desc (a b : Result) : Prop :=
  exists x y, score a = Num x /\ score b = Num y /\ (y <= x)%Q.

(** Every file of the store has a histogram that can be read: its own, or
    none at all. *)
Definition histograms_readable (d : Database) : bool :=
  forallb (fun kv => match histogramOf d (fst kv) with
                     | Some _ => true
                     | None => false
                     end) (files d).

(** The raw score of the file [path] for [query]. *)
Definition scoreIn (d : Database) (query path : jstr) (r : FileRecord)
  (s : jsnum) : Prop :=
  exists kws, histogramOf d path = Some kws /\
              fileScore kws (toLowerCase query) path (content r) = s.

(** No name occurs twice, as among the own properties of an object. *)
Fixpoint distinct (ks : list jstr) : bool :=
  match ks with
  | [] => true
  | k :: r => negb (existsb (jstr_eqb k) r) && distinct r
  end.

End Spec.

Import Spec.

(* ------------------------------------------------------------------------- *)
(** ** Sample environments *)

Module Samples.

Definition sampleText : jstr := str "constructors are special".

(** A project [/proj] whose files all read as [sampleText]; [path.relative]
    drops the project root, the hash is a stand-in. *)
Definition sampleEnv : Env :=
  mkEnv (fun _ => inl sampleText)
        (fun _ => inl (mkStats 24 (str "2024-01-01T00:00:00.000Z")))
        (fun from to => skipn (S (length from)) to)
        (fun p => p)
        (fun _ => str ".js")
        (fun text => rev text)
        (str "2024-01-02T00:00:00.000Z")
        (fun _ => None).

(** The same project with files that cannot be read. *)
Definition brokenEnv : Env :=
  mkEnv (fun _ => inr (str "ENOENT: no such file or directory"))
        (statSync sampleEnv) (path_relative sampleEnv)
        (path_normalize sampleEnv) (path_extname sampleEnv) (md5 sampleEnv)
        (getTimestamp sampleEnv) (JSON_parse sampleEnv).

(** The same project with files of six million bytes. *)
Definition largeEnv : Env :=
  mkEnv (readFileSync sampleEnv)
        (fun _ => inl (mkStats 6000000 (str "2024-01-01T00:00:00.000Z")))
        (path_relative sampleEnv)
        (path_normalize sampleEnv) (path_extname sampleEnv) (md5 sampleEnv)
        (getTimestamp sampleEnv) (JSON_parse sampleEnv).

(** A record with the given path and content. *)
Definition plainRecord (path text : string) : jstr * FileRecord :=
  (str path, mkFileRecord (str path) (str text) [] 0 1 [] [] []).

(** Three files that score 0.4, 0.9 and 0.9 for the query [foo bar] when
    the score is added up exactly; their words are too short to be
    keywords. *)
Definition scoreboard : Database :=
  mkDatabase [plainRecord "c.txt" "bar foo"; plainRecord "a.txt" "foo bar";
              plainRecord "b.txt" "x foo bar"]
             [(str "c.txt", []); (str "a.txt", []); (str "b.txt", [])]
             [] (Some (str "1.0.0")).

End Samples.

Import Samples.

(* ------------------------------------------------------------------------- *)
(** ** More of [Utils] *)

Module Names.

(** The class of the replaced characters: [<], [>], [:], the double quote,
    [|], [?] and the star. *)
Definition isReserved (c : ascii) : bool :=
  existsb (ch_eqb c) (ascii_of_nat 34 :: str "<>:|?*").

(** [Utils.sanitizeFilename(filename)] *)
Definition sanitizeFilename (filename : jstr) : jstr :=
  map (fun c => if isReserved c then "_"%char else c) filename.

(** The number of line feeds of a text. *)
Definition lineFeeds (text : jstr) : nat := length (filter isNewline text).

(** The lines of a text, as [content.split('\n')] gives them. *)
Definition linesOf (text : jstr) : list jstr := splitBy isNewline text.

(** A line contains the term, whatever the case. *)
Definition lineHas (term line : jstr) : bool :=
  includes (toLowerCase line) (toLowerCase term).

End Names.

Import Names.

(* ------------------------------------------------------------------------- *)
(** ** Directory walk: [Utils.getFilesRecursive] *)

Module Walk.

(** What [fs.readdirSync(dir, { withFileTypes: true })] shows of a
    directory: files, directories (whose own listing may fail, [None]) and
    entries that are neither. *)
#[warnings="-register-all"]
Inductive node : Type :=
| FileNode (name : jstr)
| DirNode (name : jstr) (listing : option (list node))
| OtherNode (name : jstr).

(** [entry.name === '.git' || entry.name === 'node_modules'] *)
Definition skipped (name : jstr) : bool :=
  jstr_eqb name (str ".git") || jstr_eqb name (str "node_modules").

(** One round of the loop over the entries of [dir]; [files] is the array
    the calls share.  [path_join] is [path.join]. *)
Fixpoint visit (path_join : jstr -> jstr -> jstr) (dir : jstr) (n : node)
  (files : list jstr) {struct n} : list jstr :=
  match n with
  | FileNode name => files ++ [path_join dir name]
  | OtherNode _ => files
  | DirNode name listing =>
      if skipped name then files
      else
        match listing with
        | None => files
        | Some es =>
            (fix each (es : list node) (files : list jstr) : list jstr :=
               match es with
               | [] => files
               | e :: r => each r (visit path_join (path_join dir name) e files)
               end) es files
        end
  end.

(** The number of directories nested in an entry. *)
Fixpoint depthSum (n : node) : nat :=
  match n with
  | DirNode _ (Some es) =>
      S ((fix total (es : list node) : nat :=
            match es with
            | [] => 0
            | e :: r => depthSum e + total r
            end) es)
  | _ => 0
  end.

(** The loop over the entries of a directory that could be read. *)
Definition visitAll (path_join : jstr -> jstr -> jstr) (dir : jstr)
  (es : list node) (files : list jstr) : list jstr :=
  fold_left (fun fs e => visit path_join dir e fs) es files.

(** [Utils.getFilesRecursive(dir)] *)
Definition getFilesRecursive (path_join : jstr -> jstr -> jstr) (dir : jstr)
  (listing : option (list node)) : list jstr :=
  match listing with
  | None => []
  | Some es => visitAll path_join dir es []
  end.

(** [p] is the path of a file below [dir] that can be reached through
    readable directories none of which is called [.git] or
    [node_modules]. *)
Inductive listed (path_join : jstr -> jstr -> jstr)
  : jstr -> list node -> jstr -> Prop :=
| listed_file (dir : jstr) (es : list node) (name : jstr) :
    In (FileNode name) es -> listed path_join dir es (path_join dir name)
| listed_below (dir : jstr) (es : list node) (name : jstr)
               (sub : list node) (p : jstr) :
    In (DirNode name (Some sub)) es -> skipped name = false ->
    listed path_join (path_join dir name) sub p ->
    listed path_join dir es p.

End Walk.

Import Walk.

(* ------------------------------------------------------------------------- *)
(** ** Statistics: [IndexerCore.getStats] *)

Module Report.

(** An entry of [byExtension]. *)
Record ExtensionStat : Type := mkExtensionStat {
  ext_name : jstr;
  ext_count : N;
  ext_size : Z
}.

Record IndexStats : Type := mkIndexStats {
  fileCount : nat;
  totalSize : Z;
  byExtension : list ExtensionStat
}.

(** [f.size || 0] *)
Definition sizeOrZero (f : FileRecord) : Z :=
  if (size f =? 0)%Z then 0%Z else size f.

(** One round of [files.forEach]: the entry of the extension is created
    when [byExtension[f.extension]] is falsy, then counted up in place.  An
    extension that names a member of [Object.prototype] finds that member
    instead of an entry: outside the model ([None]). *)
Definition countExtension (acc : option (obj ExtensionStat)) (f : FileRecord)
  : option (obj ExtensionStat) :=
  match acc with
  | None => None
  | Some by_ext =>
      match get (extension f) by_ext with
      | Inherited => None
      | Own e =>
          Some (upsert (extension f)
                       (mkExtensionStat (ext_name e) (ext_count e + 1)
                                        (ext_size e + sizeOrZero f))
                       by_ext)
      | Absent =>
          set (extension f)
              (mkExtensionStat (extension f) (0 + 1) (0 + sizeOrZero f))
              by_ext
      end
  end.

(** [.sort((a, b) => b.count - a.count)] *)
Fixpoint insertByCount (x : ExtensionStat) (l : list ExtensionStat)
  : list ExtensionStat :=
  match l with
  | [] => [x]
  | y :: l' =>
      if (ext_count y <=? ext_count x)%N then x :: l
      else y :: insertByCount x l'
  end.

Definition sortByCount (l : list ExtensionStat) : list ExtensionStat :=
  fold_right insertByCount [] l.

(** [IndexerCore.getStats()] *)
Definition getStats (ix : Indexer) : option IndexStats :=
  let fs := values (files (db ix)) in
  let total := fold_left (fun sum f => (sum + sizeOrZero f)%Z) fs 0%Z in
  match fold_left countExtension fs (Some ([] : obj ExtensionStat)) with
  | None => None
  | Some by_ext =>
      Some (mkIndexStats (length fs) total (sortByCount (values by_ext)))
  end.

(** The files of a list with a given extension, their number and their
    total size. *)
Definition withExtension (k : jstr) (fs : list FileRecord) : list FileRecord :=
  filter (fun f => jstr_eqb (extension f) k) fs.

Definition sumZ (l : list Z) : Z := fold_right Z.add 0%Z l.
Definition sumN (l : list N) : N := fold_right N.add 0%N l.

Definition sizeOf (fs : list FileRecord) : Z := sumZ (map size fs).

(** What the loop keeps true of [byExtension] after the files [done]. *)
Definition counted (by_ext : obj ExtensionStat) (done : list FileRecord)
  : Prop :=
  NoDup (keys by_ext) /\
  (forall k e, ownGet k by_ext = Some e ->
     ext_name e = k /\
     ext_count e = N.of_nat (length (withExtension k done)) /\
     ext_size e = sizeOf (withExtension k done) /\
     (1 <= ext_count e)%N) /\
  (forall f, In f done -> ownGet (extension f) by_ext <> None) /\
  sumN (map (fun kv => ext_count (snd kv)) by_ext) = N.of_nat (length done) /\
  sumZ (map (fun kv => ext_size (snd kv)) by_ext) = sizeOf done.

End Report.

Import Report.

(* ------------------------------------------------------------------------- *)
(** ** The invariant of the store *)

Module History.

(** The files and the histograms have the same distinct paths, and every
    record is filed under its path. *)
Definition consistent (d : Database) : Prop :=
  NoDup (keys (files d)) /\
  keys (files d) = keys (keywords d) /\
  keyed_by_path (files d).

End History.

Import History.

(* ------------------------------------------------------------------------- *)
(** ** The indexer for every keyword extraction *)

Module Core.

(** What a loop or a call comes to: a result, a loop that is still running
    when the rounds allowed are used up, or a step outside the model. *)
Inductive outcome (A : Type) : Type :=
| Finished (a : A)
| Unfinished
| Outside.

Arguments Unfinished {A}.
Arguments Outside {A}.

(** One call on an [IndexerCore]; the file system it meets is part of the
    call, so that files may change between calls. *)
Inductive operation : Type :=
| DoIndex (env : Env) (filePath projectPath : jstr)
| DoRemove (env : Env) (filePath projectPath : jstr)
| DoClear
| DoClose.

(** The call assigns to no property [__proto__]. *)
Definition assignable (o : operation) : Prop :=
  match o with
  | DoIndex env filePath projectPath =>
      getRelativePath env projectPath filePath <> str "__proto__"
  | _ => True
  end.

Section Histogram.

(** [IndexerCore] stores the result of [Utils.extractKeywords] and never
    looks into it.  For a text with the word [constructor] that result is
    no table of counts: the count of that word is a string, and the order
    and choice of the keywords is left to the engine, because the
    comparison of the sort is no longer consistent.  The indexer is
    therefore modelled for every type [K] of histograms and every function
    [extractKeywords]. *)
Variable K : Type.
Variable extractKeywords : jstr -> K.

(** The document [{ files, keywords, metadata, version }]. *)
Record Database : Type := mkDatabase {
  files : obj FileRecord;
  keywords : obj K;
  metadata : obj jstr;
  version : option jstr
}.

(** An [IndexerCore]: the database in memory and the documents handed to
    [fs.writeFileSync] so far, the latest first. *)
Record Indexer : Type := mkIndexer {
  db : Database;
  written : list Database
}.

Definition emptyDatabase : Database :=
  mkDatabase [] [] [] (Some (str "1.0.0")).

(** [IndexerCore.saveDatabase()] *)
Definition saveDatabase (ix : Indexer) : Indexer :=
  mkIndexer (db ix) (db ix :: written ix).

(** [IndexerCore.indexFile(filePath, projectPath)]; [None] for an assignment
    to [__proto__]. *)
Definition indexFile (env : Env) (filePath projectPath : jstr) (ix : Indexer)
  : option (Indexer * IndexResult) :=
  let relativePath := getRelativePath env projectPath filePath in
  match readFileSync env filePath with
  | inr message => Some (ix, Error filePath message)
  | inl text =>
      let h := getHash env text in
      match statSync env filePath with
      | inr message => Some (ix, Error filePath message)
      | inl stats =>
          if sameHash (files (db ix)) relativePath h
          then Some (ix, Unchanged relativePath)
          else
            let ext := getExtension env filePath in
            let n := countLines text in
            let kws := extractKeywords text in
            let record :=
              mkFileRecord relativePath text h (stat_size stats) n ext
                           (stat_mtime stats) (getTimestamp env) in
            match set relativePath record (files (db ix)) with
            | None => None
            | Some files' =>
                match set relativePath kws (keywords (db ix)) with
                | None => None
                | Some keywords' =>
                    let db' := mkDatabase files' keywords'
                                 (metadata (db ix)) (version (db ix)) in
                    Some (saveDatabase (mkIndexer db' (written ix)),
                          Indexed relativePath (stat_size stats))
                end
            end
      end
  end.

(** [IndexerCore.removeFile(filePath, projectPath)] *)
Definition removeFile (env : Env) (filePath projectPath : jstr) (ix : Indexer)
  : Indexer * bool :=
  let relativePath := getRelativePath env projectPath filePath in
  let existed := truthy (get relativePath (files (db ix))) in
  let db' := mkDatabase (delete relativePath (files (db ix)))
                        (delete relativePath (keywords (db ix)))
                        (metadata (db ix)) (version (db ix)) in
  let ix' := mkIndexer db' (written ix) in
  (if existed then saveDatabase ix' else ix', existed).

(** [IndexerCore.getAllFiles()] *)
Definition getAllFiles (ix : Indexer) : list FileRecord :=
  values (files (db ix)).

(** [IndexerCore.clear()] *)
Definition clear (ix : Indexer) : Indexer :=
  saveDatabase (mkIndexer emptyDatabase (written ix)).

(** [IndexerCore.close()] *)
Definition close (ix : Indexer) : Indexer := saveDatabase ix.

(** [IndexerCore.getStats()], which reads the records only. *)
Definition getStats (ix : Indexer) : option IndexStats :=
  Report.getStats
    (Store.mkIndexer
       (Store.mkDatabase (files (db ix)) [] (metadata (db ix))
                         (version (db ix))) []).

Definition perform (o : operation) (ix : Indexer) : option Indexer :=
  match o with
  | DoIndex env filePath projectPath =>
      option_map fst (indexFile env filePath projectPath ix)
  | DoRemove env filePath projectPath =>
      Some (fst (removeFile env filePath projectPath ix))
  | DoClear => Some (clear ix)
  | DoClose => Some (close ix)
  end.

Fixpoint run (ops : list operation) (ix : Indexer) : option Indexer :=
  match ops with
  | [] => Some ix
  | o :: rest =>
      match perform o ix with
      | Some ix' => run rest ix'
      | None => None
      end
  end.

(** The files and the histograms have the same distinct paths, and every
    record is filed under its path. *)
Definition consistent (d : Database) : Prop :=
  NoDup (keys (files d)) /\
  keys (files d) = keys (keywords d) /\
  keyed_by_path (files d).

(** The database in memory is the document written last, or the one the
    indexer started from when nothing was written. *)
Definition persisted (initial : Database) (ix : Indexer) : Prop :=
  match written ix with
  | [] => db ix = initial
  | d :: _ => d = db ix
  end.

End Histogram.

(** A store of word counts, seen as a store of histograms. *)
Definition lift (d : Store.Database) : Database (obj N) :=
  mkDatabase (Store.files d) (Store.keywords d) (Store.metadata d)
             (Store.version d).

Definition liftIndexer (ix : Store.Indexer) : Indexer (obj N) :=
  mkIndexer (lift (Store.db ix)) (map lift (Store.written ix)).

End Core.

(* ------------------------------------------------------------------------- *)
(** ** Bounds of the scoring *)

Module Bounds.

(** A score that is a number is not negative. *)
Definition nonnegative (x : jsnum) : Prop :=
  match x with
  | Num q => (0 <= q)%Q
  | NaN => True
  end.

End Bounds.

Import Bounds.

(* ------------------------------------------------------------------------- *)
(** ** Prompt hook (src/lib/claude-hook.js) *)

Module Hook.

(** The [stopWords] set of [extractSearchTerms]. *)
Definition stopWords : list jstr :=
  map str ["how"; "what"; "where"; "when"; "why"; "who"; "which";
           "is"; "are"; "was"; "were"; "be"; "been"; "being";
           "have"; "has"; "had"; "do"; "does"; "did"; "will"; "would";
           "should"; "could"; "may"; "might"; "must"; "can";
           "the"; "a"; "an"; "and"; "or"; "but"; "in"; "on"; "at";
           "to"; "for"; "of"; "as"; "by"; "with"; "from"; "about";
           "this"; "that"; "these"; "those"; "it"; "its"; "they";
           "them"]%string.

(** [stopWords.has(w)] *)
Definition has (w : jstr) : bool := existsb (jstr_eqb w) stopWords.

(** [/[^\w\s]/g] replaced by a space. *)
Definition clean (c : ascii) : ascii :=
  if isWordChar c || isSpace c then c else " "%char.

(** [input.toLowerCase().replace(/[^\w\s]/g, ' ').split(/\s+/)] *)
Definition pieces (input : jstr) : list jstr :=
  splitRuns isSpace false (map clean (toLowerCase input)).

(** [w => w.length > 2 && !stopWords.has(w)] *)
Definition kept (w : jstr) : bool := (2 <? length w) && negb (has w).

(** [new Set(words)] spread into an array: the words are added one by one,
    one already in the set is skipped, and the set hands them out in the
    order of their insertion. *)
Fixpoint addAll (ws seen : list jstr) : list jstr :=
  match ws with
  | [] => seen
  | w :: rest =>
      if existsb (jstr_eqb w) seen then addAll rest seen
      else addAll rest (seen ++ [w])
  end.

(** [ClaudeHook.extractSearchTerms(input)] *)
Definition extractSearchTerms (input : jstr) : list jstr :=
  addAll (filter kept (pieces input)) [].

(** The query [execute] hands to the search: [searchTerms.join(' ')]. *)
Definition searchQuery (input : jstr) : jstr :=
  join [" "%char] (extractSearchTerms input).

(** A lower-case letter, a digit or the underscore. *)
Definition termChar (c : ascii) : bool :=
  isLower c || isDigit c || (code c =? 95).

End Hook.

(* ------------------------------------------------------------------------- *)
(** ** File watcher (src/lib/indexer-watcher.js) *)

Module Watcher.

(** [this.stats] *)
Record WatcherStats : Type := mkWatcherStats {
  filesAdded : N;
  filesChanged : N;
  filesDeleted : N;
  errors : N
}.

Definition noStats : WatcherStats := mkWatcherStats 0 0 0 0.

(** [IndexerWatcher.getIgnorePatterns()] *)
Definition getIgnorePatterns (config : ProjectConfig) : list jstr :=
  map (replaceAll (str "**") (str "**")) (exclude config)
  ++ [str "**/.git/**"; str "**/node_modules/**";
      str "**/.codebase-index/**"].

(** The changes the counters report. *)
Definition changes (s : WatcherStats) : N :=
  filesAdded s + filesChanged s + filesDeleted s.

(** All that the counters report. *)
Definition reported (s : WatcherStats) : N := changes s + errors s.

(** What the file system watcher reports, with the file system as the
    handler finds it. *)
Inductive event : Type :=
| Add (env : Env) (filePath : jstr)
| Change (env : Env) (filePath : jstr)
| Unlink (env : Env) (filePath : jstr)
| Fault.

Section Handlers.

(** The histograms and [Utils.extractKeywords], as for [Core.indexFile]. *)
Variable K : Type.
Variable extractKeywords : jstr -> K.

(** [IndexerWatcher.shouldIndexFile(filePath)], that is
    [configManager.shouldIndexFile(filePath, this.config)] for the
    configuration of the watcher: an answer, or [None] when it throws. *)
Variable shouldIndex : Env -> jstr -> option bool.

(** [this.projectPath] *)
Variable projectPath : jstr.

(** An [IndexerWatcher]: its indexer and its counters. *)
Record IndexerWatcher : Type := mkIndexerWatcher {
  indexer : Core.Indexer K;
  stats : WatcherStats
}.

(** [IndexerWatcher.onFileAdded(filePath)].  An exception of the filter
    ends the handler before anything is changed; [None] where
    [Core.indexFile] leaves the model. *)
Definition onFileAdded (env : Env) (filePath : jstr) (w : IndexerWatcher)
  : option IndexerWatcher :=
  match shouldIndex env filePath with
  | None => Some w
  | Some false => Some w
  | Some true =>
      match Core.indexFile extractKeywords env filePath projectPath
                           (indexer w) with
      | None => None
      | Some (ix, Indexed _ _) =>
          Some (mkIndexerWatcher ix
                  (mkWatcherStats (filesAdded (stats w) + 1)
                     (filesChanged (stats w)) (filesDeleted (stats w))
                     (errors (stats w))))
      | Some (ix, Unchanged _) => Some (mkIndexerWatcher ix (stats w))
      | Some (ix, Error _ _) =>
          Some (mkIndexerWatcher ix
                  (mkWatcherStats (filesAdded (stats w))
                     (filesChanged (stats w)) (filesDeleted (stats w))
                     (errors (stats w) + 1)))
      end
  end.

(** [IndexerWatcher.onFileChanged(filePath)] *)
Definition onFileChanged (env : Env) (filePath : jstr) (w : IndexerWatcher)
  : option IndexerWatcher :=
  match shouldIndex env filePath with
  | None => Some w
  | Some false => Some w
  | Some true =>
      match Core.indexFile extractKeywords env filePath projectPath
                           (indexer w) with
      | None => None
      | Some (ix, Indexed _ _) =>
          Some (mkIndexerWatcher ix
                  (mkWatcherStats (filesAdded (stats w))
                     (filesChanged (stats w) + 1) (filesDeleted (stats w))
                     (errors (stats w))))
      | Some (ix, Unchanged _) => Some (mkIndexerWatcher ix (stats w))
      | Some (ix, Error _ _) =>
          Some (mkIndexerWatcher ix
                  (mkWatcherStats (filesAdded (stats w))
                     (filesChanged (stats w)) (filesDeleted (stats w))
                     (errors (stats w) + 1)))
      end
  end.

(** [IndexerWatcher.onFileDeleted(filePath)] *)
Definition onFileDeleted (env : Env) (filePath : jstr) (w : IndexerWatcher)
  : IndexerWatcher :=
  let (ix, removed) :=
    Core.removeFile env filePath projectPath (indexer w) in
  if removed
  then mkIndexerWatcher ix
         (mkWatcherStats (filesAdded (stats w)) (filesChanged (stats w))
            (filesDeleted (stats w) + 1) (errors (stats w)))
  else mkIndexerWatcher ix (stats w).

(** [IndexerWatcher.onError(error)] *)
Definition onError (w : IndexerWatcher) : IndexerWatcher :=
  mkIndexerWatcher (indexer w)
    (mkWatcherStats (filesAdded (stats w)) (filesChanged (stats w))
       (filesDeleted (stats w)) (errors (stats w) + 1)).

Definition handle (e : event) (w : IndexerWatcher) : option IndexerWatcher :=
  match e with
  | Add env filePath => onFileAdded env filePath w
  | Change env filePath => onFileChanged env filePath w
  | Unlink env filePath => Some (onFileDeleted env filePath w)
  | Fault => Some (onError w)
  end.

Fixpoint handleAll (events : list event) (w : IndexerWatcher)
  : option IndexerWatcher :=
  match events with
  | [] => Some w
  | e :: rest =>
      match handle e w with
      | Some w' => handleAll rest w'
      | None => None
      end
  end.

(** The event makes no handler assign to a property [__proto__]. *)
Definition assignable (e : event) : Prop :=
  match e with
  | Add env filePath =>
      getRelativePath env projectPath filePath <> str "__proto__"
  | Change env filePath =>
      getRelativePath env projectPath filePath <> str "__proto__"
  | _ => True
  end.

End Handlers.

End Watcher.

(* ------------------------------------------------------------------------- *)
(** ** Indexing a project (src/lib/project-manager.js) *)

Module Project.

(** The counters [indexed], [skipped] and [errors] of [indexProject]. *)
Record Counters : Type := mkCounters {
  indexed : N;
  skipped : N;
  errors : N
}.

Definition count (result : IndexResult) (c : Counters) : Counters :=
  match result with
  | Indexed _ _ => mkCounters (indexed c + 1) (skipped c) (errors c)
  | Unchanged _ => mkCounters (indexed c) (skipped c + 1) (errors c)
  | Error _ _ => mkCounters (indexed c) (skipped c) (errors c + 1)
  end.

(** The index [k] of [arr.slice] within an array of [len] elements: a
    negative one counts from the end. *)
Definition relativeIndex (len k : Z) : Z :=
  if (k <? 0)%Z then Z.max (len + k) 0 else Z.min k len.

(** [arr.slice(first, last)] for integers. *)
Definition sliceZ (A : Type) (first last : Z) (l : list A) : list A :=
  let len := Z.of_nat (length l) in
  let k := relativeIndex len first in
  let final := relativeIndex len last in
  firstn (Z.to_nat (final - k)) (skipn (Z.to_nat k) l).

(** [getPerformanceConfig().batchSize || 50] for a size that is an integer:
    only 0 is replaced. *)
Definition batchSizeOf (configured : Z) : Z :=
  if (configured =? 0)%Z then 50%Z else configured.

Section Indexing.

(** The histograms and [Utils.extractKeywords], as for [Core.indexFile]. *)
Variable K : Type.
Variable extractKeywords : jstr -> K.

(** The file system, the same for the whole run. *)
Variable env : Env.

(** [f => this.configManager.shouldIndexFile(f, config)] for the
    configuration of the project, when it answers for every file; an
    exception would end [indexProject] with it. *)
Variable shouldIndex : jstr -> bool.

(** [project.path] *)
Variable projectPath : jstr.

(** [for (const file of batch) { ... }] *)
Fixpoint indexBatch (batch : list jstr) (st : Core.Indexer K * Counters)
  : option (Core.Indexer K * Counters) :=
  match batch with
  | [] => Some st
  | file :: rest =>
      match Core.indexFile extractKeywords env file projectPath (fst st) with
      | None => None
      | Some (ix, result) => indexBatch rest (ix, count result (snd st))
      end
  end.

(** [for (let i = 0; i < filesToIndex.length; i += batchSize) { ... }], from
    the index [i] on, for [fuel] rounds at most. *)
Fixpoint indexBatches (batchSize : Z) (files : list jstr) (fuel : nat)
  (i : Z) (st : Core.Indexer K * Counters)
  : Core.outcome (Core.Indexer K * Counters) :=
  match fuel with
  | O => Core.Unfinished
  | S fuel' =>
      if (i <? Z.of_nat (length files))%Z then
        match indexBatch (sliceZ i (i + batchSize) files) st with
        | None => Core.Outside
        | Some st' => indexBatches batchSize files fuel' (i + batchSize) st'
        end
      else Core.Finished st
  end.

(** [ProjectManager.indexProject(project)] for a registered project whose
    indexer loads the database [initial]: the indexer it closes, the
    counters and the statistics it returns.  The update of the registry,
    the duration and what is printed are left out. *)
Definition indexProject (path_join : jstr -> jstr -> jstr) (configured : Z)
  (listing : option (list node)) (initial : Core.Database K) (fuel : nat)
  : Core.outcome (Core.Indexer K * Counters * IndexStats) :=
  let indexer := Core.mkIndexer initial [] in
  let allFiles := getFilesRecursive path_join projectPath listing in
  let filesToIndex := filter shouldIndex allFiles in
  match indexBatches (batchSizeOf configured) filesToIndex fuel 0
                     (indexer, mkCounters 0 0 0) with
  | Core.Finished (ix, c) =>
      match Core.getStats ix with
      | None => Core.Outside
      | Some stats => Core.Finished (Core.close ix, c, stats)
      end
  | Core.Unfinished => Core.Unfinished
  | Core.Outside => Core.Outside
  end.

End Indexing.

End Project.

(* ------------------------------------------------------------------------- *)
(** ** Configuration values (ConfigManager) *)

Module Settings.

(** The values of a configuration document. *)
#[warnings="-register-all"]
Inductive value : Type :=
| VNull
| VBool (b : bool)
| VNum (x : Q)
| VStr (s : jstr)
| VArr (items : list value)
| VObj (members : list (jstr * value)).

(** [!!v] *)
Definition truthy (v : value) : bool :=
  match v with
  | VNull => false
  | VBool b => b
  | VNum x => negb (Qeq_bool x 0)
  | VStr s => negb (length s =? 0)
  | VArr _ => true
  | VObj _ => true
  end.

(** The loop and the last assignment of [setNestedValue], at the key [key]
    of [current] with the keys [rest] still to come.  [None] where the walk
    leaves the plain objects: through a member of [Object.prototype],
    through an array or another value that is no object, or by an
    assignment to [__proto__]. *)
Fixpoint setFrom (key : jstr) (rest : list jstr) (v : value)
  (current : obj value) {struct rest} : option (obj value) :=
  match rest with
  | [] => set key v current
  | next :: rest' =>
      let fresh :=
        match set key (VObj []) current with
        | None => None
        | Some current' =>
            option_map (fun inner => upsert key (VObj inner) current')
                       (setFrom next rest' v [])
        end in
      match get key current with
      | Own (VObj inner) =>
          option_map (fun inner' => upsert key (VObj inner') current)
                     (setFrom next rest' v inner)
      | Own w => if truthy w then None else fresh
      | Inherited => None
      | Absent => fresh
      end
  end.

(** [ConfigManager.setNestedValue(obj, keyPath, value)]: the object after
    the call. *)
Definition setNestedValue (o : obj value) (keyPath : jstr) (v : value)
  : option (obj value) :=
  match splitBy isDot keyPath with
  | [] => None
  | key :: rest => setFrom key rest v o
  end.

(** The loop of [getNestedValue]: [Some None] is [undefined]; [None] where
    [current.hasOwnProperty] is a member of the document and no function,
    or where the walk meets a string or an array. *)
Fixpoint getFrom (keys : list jstr) (current : value)
  : option (option value) :=
  match keys with
  | [] => Some (Some current)
  | key :: rest =>
      match current with
      | VObj o =>
          match ownGet (str "hasOwnProperty") o with
          | Some _ => None
          | None =>
              match ownGet key o with
              | Some v => getFrom rest v
              | None => Some None
              end
          end
      | VNull => Some None
      | VBool _ => Some None
      | VNum _ => Some None
      | VStr s => if length s =? 0 then Some None else None
      | VArr _ => None
      end
  end.

(** [ConfigManager.getNestedValue(obj, keyPath)] *)
Definition getNestedValue (o : obj value) (keyPath : jstr)
  : option (option value) :=
  getFrom (splitBy isDot keyPath) (VObj o).

End Settings.

(* ------------------------------------------------------------------------- *)
(** ** Merging configurations (ConfigManager) *)

Module Merge.

Import Settings.

(** [base[key] || {}] as the object [mergeConfigs] goes on with.  [None]
    where it is no plain object: a member of [Object.prototype], an array,
    a non-empty string, a number other than 0 or [true]. *)
Definition baseAt (base : obj value) (key : jstr) : option (obj value) :=
  match get key base with
  | Own (VObj inner) => Some inner
  | Own w => if truthy w then None else Some []
  | Inherited => None
  | Absent => Some []
  end.

(** The loop [for (const key in override) { ... result[key] = ... }] over
    the members of the override, with [member key value] the value that is
    assigned. *)
Definition assignAll (member : jstr -> value -> option value)
  : list (jstr * value) -> obj value -> option (obj value) :=
  fix go (ms : list (jstr * value)) (result : obj value) :=
    match ms with
    | [] => Some result
    | (key, ov) :: ms' =>
        match member key ov with
        | None => None
        | Some x =>
            match set key x result with
            | None => None
            | Some result' => go ms' result'
            end
        end
    end.

(** [mergeConfigs(base, override)] for an override that is an object.
    [None] where the override has a member named by an array index (the
    loop would not follow the order of creation) or a member called
    [hasOwnProperty] (which is no function), and where [baseAt] or an
    assignment leaves the model. *)
Fixpoint mergeValue (base : obj value) (override : value) {struct override}
  : option (obj value) :=
  match override with
  | VObj members =>
      if existsb (fun kv => isArrayIndex (fst kv)) members then None
      else
        match ownGet (str "hasOwnProperty") members with
        | Some _ => None
        | None =>
            assignAll
              (fun key ov =>
                 match ov with
                 | VObj _ =>
                     match baseAt base key with
                     | None => None
                     | Some inner => option_map VObj (mergeValue inner ov)
                     end
                 | _ => Some ov
                 end)
              members (entries base)
        end
  | _ => None
  end.

(** [ConfigManager.mergeConfigs(base, override)] *)
Definition mergeConfigs (base override : obj value) : option (obj value) :=
  mergeValue base (VObj override).

(** A value that is an object, and so merged rather than copied. *)
Definition isObject (v : value) : bool :=
  match v with
  | VObj _ => true
  | _ => false
  end.

End Merge.

(* ------------------------------------------------------------------------- *)
(** ** The ranking of [search], for scores as they come *)

Module Ranking.

(** The loop over [Object.entries(this.db.files)] with the value of [score]
    at the test [score >= minScore] given by [scoreOf]: what follows that
    test compares and clamps the score and does not add to it.  For two
    numbers of the program the comparisons, [Math.min] and the sign of
    [b.score - a.score] are those of their exact values, so the ranking is
    the same whether the scores were added up exactly or in binary64. *)
Fixpoint collectWith (scoreOf : jstr -> FileRecord -> jsnum) (query : jstr)
  (minS : jsnum) (es : list (jstr * FileRecord)) : list Result :=
  match es with
  | [] => []
  | (path, fileData) :: es' =>
      let s := scoreOf path fileData in
      if jge s minS then
        let sn := createSnippet (content fileData) query 2 in
        mkResult path (jmin s (Num 1%Q)) (snd sn) (fst sn) (str "content")
        :: collectWith scoreOf query minS es'
      else collectWith scoreOf query minS es'
  end.

(** [IndexerQuery.search(query, options)] for files that score [scoreOf]. *)
Definition searchWith (scoreOf : jstr -> FileRecord -> jsnum)
  (cfg : SearchConfig) (d : Database) (query : jstr) (options : Options)
  : list Result :=
  sliceTo (maxResultsOf cfg options)
          (sortResults (collectWith scoreOf query (minScoreOf cfg options)
                                    (entries (files d)))).

(** The score that [fileScore] adds up for a file of the store. *)
Definition exactScore (d : Database) (query path : jstr)
  (fileData : FileRecord) : jsnum :=
  match histogramOf d path with
  | Some kws => fileScore kws (toLowerCase query) path (content fileData)
  | None => NaN
  end.

(** The files whose score is not below the threshold. *)
Definition qualifying (scoreOf : jstr -> FileRecord -> jsnum)
  (threshold : jsnum) (fs : obj FileRecord) : list (jstr * FileRecord) :=
  filter (fun kv => jge (scoreOf (fst kv) (snd kv)) threshold) fs.

(** Files scoring 0.9, 0.9 and 0.4. *)
Definition givenScores (path : jstr) (fileData : FileRecord) : jsnum :=
  if jstr_eqb path (str "c.txt") then Num 0.4%Q else Num 0.9%Q.

End Ranking.

Import Ranking.

(* ------------------------------------------------------------------------- *)
(** ** A file that names a constructor *)

Module ClassFile.

Definition classText : jstr :=
  str "class Store { constructor() { this.items = [] } }".

(** The sample project with files that all read as [classText]. *)
Definition classEnv : Env :=
  mkEnv (fun _ => inl classText)
        (statSync sampleEnv) (path_relative sampleEnv)
        (path_normalize sampleEnv) (path_extname sampleEnv) (md5 sampleEnv)
        (getTimestamp sampleEnv) (JSON_parse sampleEnv).

End ClassFile.

Import ClassFile.

(* ========================================================================= *)
(** * Properties *)

(** ** Strings *)

Module JsStringFacts.

Lemma ch_eqb_eq (a b : ascii) : ch_eqb a b = true <-> a = b.
Proof. apply Ascii.eqb_eq. Qed.

Lemma ch_eqb_refl (a : ascii) : ch_eqb a a = true.
Proof. apply Ascii.eqb_refl. Qed.

Lemma ch_eqb_neq (a b : ascii) : ch_eqb a b = false <-> a <> b.
Proof. apply Ascii.eqb_neq. Qed.

Lemma jstr_eqb_eq (a b : jstr) : jstr_eqb a b = true <-> a = b.
Proof.
  unfold jstr_eqb; destruct (list_eq_dec ascii_dec a b); split; congruence.
Qed.

Lemma jstr_eqb_refl (a : jstr) : jstr_eqb a a = true.
Proof. now apply jstr_eqb_eq. Qed.

Lemma jstr_eqb_neq (a b : jstr) : jstr_eqb a b = false <-> a <> b.
Proof.
  unfold jstr_eqb; destruct (list_eq_dec ascii_dec a b); split; congruence.
Qed.

Lemma jstr_eqb_sym (a b : jstr) : jstr_eqb a b = jstr_eqb b a.
Proof.
  destruct (jstr_eqb b a) eqn:E.
  - apply jstr_eqb_eq in E; subst; apply jstr_eqb_refl.
  - apply jstr_eqb_neq in E; apply jstr_eqb_neq; congruence.
Qed.

Lemma startsWith_app (p s : jstr) : startsWith (p ++ s) p = true.
Proof.
  induction p as [|a p IH]; simpl.
  - reflexivity.
  - now rewrite ch_eqb_refl.
Qed.

Lemma splitBy_not_nil (sep : ascii -> bool) (s : jstr) : splitBy sep s <> [].
Proof.
  induction s as [|c s IH]; simpl; [discriminate|].
  destruct (sep c); [discriminate|].
  destruct (splitBy sep s); [contradiction|discriminate].
Qed.

(** Splitting distributes over a separator. *)
Lemma splitBy_app_sep (sep : ascii -> bool) (a b : jstr) (c : ascii) :
  sep c = true ->
  splitBy sep (a ++ c :: b) = splitBy sep a ++ splitBy sep b.
Proof.
  intros Hc; induction a as [|x a IH]; simpl.
  - now rewrite Hc.
  - rewrite IH. destruct (sep x); [reflexivity|].
    pose proof (splitBy_not_nil sep a) as Hne.
    destruct (splitBy sep a); [contradiction|reflexivity].
Qed.

Lemma splitBy_no_sep (sep : ascii -> bool) (s : jstr) :
  forallb (fun c => negb (sep c)) s = true -> splitBy sep s = [s].
Proof.
  induction s as [|c s IH]; simpl; [reflexivity|].
  intros H; apply andb_true_iff in H as [Hc Hs].
  apply negb_true_iff in Hc; rewrite Hc, (IH Hs); reflexivity.
Qed.

Lemma last_app_nonempty (A : Type) (l1 l2 : list A) (d : A) :
  l2 <> [] -> last (l1 ++ l2) d = last l2 d.
Proof.
  intros Hne; induction l1 as [|x l1 IH]; simpl; [reflexivity|].
  rewrite <- IH. destruct (l1 ++ l2) eqn:E; [|reflexivity].
  apply app_eq_nil in E as [_ E]; contradiction.
Qed.

(** The segments of a split hold no separator. *)
Lemma splitBy_segments (sep : ascii -> bool) (s : jstr) :
  Forall (fun w => forallb (fun c => negb (sep c)) w = true) (splitBy sep s).
Proof.
  induction s as [|c s IH]; simpl.
  - constructor; [reflexivity|constructor].
  - destruct (sep c) eqn:Hc.
    + constructor; [reflexivity|exact IH].
    + destruct (splitBy sep s) as [|w ws]; inversion IH; subst.
      * constructor; [simpl; now rewrite Hc|constructor].
      * constructor; [simpl; rewrite Hc; simpl; assumption|assumption].
Qed.

(** A split either finds no separator or ends after the last one. *)
Lemma splitBy_shape (sep : ascii -> bool) (s : jstr) :
  splitBy sep s = [s] \/
  exists dir c ws w,
    sep c = true /\ s = dir ++ c :: w /\
    splitBy sep s = ws ++ [w] /\ ws <> [].
Proof.
  induction s as [|x s IH]; simpl.
  - now left.
  - destruct (sep x) eqn:Hx.
    + right. destruct IH as [IH | (dir & c & ws & w & Hc & Hs & Hw & Hne)].
      * exists [], x, [[]], s. rewrite IH. repeat split; auto; discriminate.
      * exists (x :: dir), c, ([] :: ws), w. rewrite Hw, Hs.
        repeat split; auto; discriminate.
    + destruct IH as [IH | (dir & c & ws & w & Hc & Hs & Hw & Hne)].
      * left. now rewrite IH.
      * right. destruct ws as [|w0 ws0]; [contradiction|].
        exists (x :: dir), c, ((x :: w0) :: ws0), w. rewrite Hw, Hs.
        repeat split; auto; discriminate.
Qed.

Lemma splitBy_last_decompose (sep : ascii -> bool) (s : jstr) :
  s = pop (splitBy sep s) \/
  exists dir c, sep c = true /\ s = dir ++ c :: pop (splitBy sep s).
Proof.
  unfold pop.
  destruct (splitBy_shape sep s) as [E | (dir & c & ws & w & Hc & Hs & Hw & _)].
  - left. now rewrite E.
  - right. exists dir, c. rewrite Hw, last_last. auto.
Qed.

Lemma splitBy_last_no_sep (sep : ascii -> bool) (s : jstr) :
  forallb (fun c => negb (sep c)) (pop (splitBy sep s)) = true.
Proof.
  pose proof (splitBy_segments sep s) as HF. rewrite Forall_forall in HF.
  apply HF. unfold pop.
  destruct (exists_last (splitBy_not_nil sep s)) as (l' & a & Ha).
  rewrite Ha, last_last. apply in_or_app; right; now left.
Qed.

Lemma endsWith_spec (s suf : jstr) :
  endsWith s suf = true <-> exists pre, s = pre ++ suf.
Proof.
  unfold endsWith; split.
  - intros H; apply andb_true_iff in H as [_ H].
    apply jstr_eqb_eq in H.
    exists (firstn (length s - length suf) s).
    pose proof (firstn_skipn (length s - length suf) s) as E.
    rewrite H in E. now symmetry.
  - intros [pre ->]. rewrite length_app.
    apply andb_true_iff; split.
    + apply Nat.leb_le; lia.
    + apply jstr_eqb_eq.
      replace (length pre + length suf - length suf) with (length pre + 0) by lia.
      now rewrite skipn_app, Nat.add_0_r, skipn_all, Nat.sub_diag.
Qed.

End JsStringFacts.

Import JsStringFacts.

(* ------------------------------------------------------------------------- *)
(** ** Path matcher *)

Module GlobFacts.

Lemma wordChar_not_dot (c : ascii) : isWordChar c = true -> isDot c = false.
Proof.
  intros H. destruct (isDot c) eqn:E; [|reflexivity].
  apply ch_eqb_eq in E; subst c. discriminate H.
Qed.

Lemma isExtensionPattern_shape (ext : jstr) :
  ext <> [] -> forallb isWordChar ext = true ->
  isExtensionPattern (extensionPattern ext) = true.
Proof.
  intros Hne Hw. unfold extensionPattern.
  change (str "**/*." ++ ext) with ("*"%char :: str "*/*." ++ ext).
  cbn [isExtensionPattern]. apply orb_true_iff; left.
  unfold extShapeHere.
  change ("*"%char :: str "*/*." ++ ext) with (str "**/*." ++ ext).
  rewrite startsWith_app.
  change (skipn 5 (str "**/*." ++ ext)) with ext.
  cbn beta zeta. rewrite Hw.
  destruct ext; [contradiction|reflexivity].
Qed.

(** [pattern.split('.').pop()] of [**/*.<ext>] is [<ext>]. *)
Lemma extension_of_pattern (ext : jstr) :
  forallb isWordChar ext = true ->
  pop (splitBy isDot (extensionPattern ext)) = ext.
Proof.
  intros Hw. unfold extensionPattern, pop.
  change (str "**/*." ++ ext) with (str "**/*" ++ dot :: ext).
  rewrite splitBy_app_sep by reflexivity.
  rewrite last_app_nonempty by apply splitBy_not_nil.
  rewrite splitBy_no_sep; [reflexivity|].
  rewrite forallb_forall in *. intros c Hc.
  now rewrite (wordChar_not_dot c (Hw c Hc)).
Qed.

Lemma matchGlob_extension_branch (ext path : jstr) :
  ext <> [] -> forallb isWordChar ext = true ->
  matchGlob path (extensionPattern ext) =
  Some (endsWith (lastSegment path) (dot :: ext)).
Proof.
  intros Hne Hw. unfold matchGlob.
  now rewrite isExtensionPattern_shape, extension_of_pattern.
Qed.

Lemma lastSegment_final (path : jstr) :
  is_final_segment path (lastSegment path).
Proof.
  split.
  - apply splitBy_last_no_sep.
  - apply splitBy_last_decompose.
Qed.

Lemma lastSegment_unique (path name : jstr) :
  is_final_segment path name -> lastSegment path = name.
Proof.
  intros [Hno [-> | (dir & c & Hc & ->)]]; unfold lastSegment, pop.
  - now rewrite splitBy_no_sep.
  - rewrite splitBy_app_sep by assumption.
    rewrite last_app_nonempty by apply splitBy_not_nil.
    now rewrite splitBy_no_sep.
Qed.

Lemma endsWith_extension (path ext : jstr) :
  endsWith (lastSegment path) (dot :: ext) = true <->
  filename_has_extension path ext.
Proof.
  rewrite endsWith_spec. split.
  - intros [stem H]. exists (lastSegment path), stem.
    split; [apply lastSegment_final|assumption].
  - intros (name & stem & Hfin & ->).
    exists stem. now apply lastSegment_unique.
Qed.

(** C2. For a pattern [**/*.<ext>] with [<ext>] a non-empty run of word
    characters and every path, [matchGlob] answers, and answers [true]
    exactly when the last segment of the path (the file name, whatever the
    directories are called) ends with [.<ext>]. *)
Theorem matchGlob_extension_pattern (ext path : jstr) :
  ext <> [] -> forallb isWordChar ext = true ->
  (matchGlob path (extensionPattern ext) = Some true <->
   filename_has_extension path ext) /\
  (matchGlob path (extensionPattern ext) = Some false <->
   ~ filename_has_extension path ext).
Proof.
  intros Hne Hw. rewrite (matchGlob_extension_branch path Hne Hw).
  rewrite <- endsWith_extension.
  destruct (endsWith (lastSegment path) (dot :: ext)); split; split;
    intros H; try reflexivity; try congruence; try discriminate.
Qed.

Lemma matchGlob_extension_pattern_witness :
  (matchGlob (str "src/app.log") (extensionPattern (str "log")) = Some true <->
   filename_has_extension (str "src/app.log") (str "log")) /\
  (matchGlob (str "src/app.log") (extensionPattern (str "log")) = Some false <->
   ~ filename_has_extension (str "src/app.log") (str "log")).
Proof.
  apply (@matchGlob_extension_pattern (str "log") (str "src/app.log")).
  - discriminate.
  - reflexivity.
Defined.

(** The two paths of the specification. *)
Example matchGlob_log_file :
  matchGlob (str "src/app.log") (str "**/*.log") = Some true.
Proof. reflexivity. Qed.

Example matchGlob_log_directory :
  matchGlob (str "src/app.log/readme.txt") (str "**/*.log") = Some false.
Proof. reflexivity. Qed.

(** *** The general branch *)

(** What the rewriting makes of [**/node_modules/**]: the dot of [.*] is
    escaped by the last replacement, which leaves [\.*]. *)
Lemma regexPattern_node_modules :
  regexPattern (str "**/node_modules/**") = str "\.*/node_modules/\.*".
Proof. reflexivity. Qed.

Lemma parse_node_modules :
  parseRegex (regexPattern (str "**/node_modules/**")) =
  Some (Star (ALit dot) :: One (ALit slash) ::
        map (fun c => One (ALit c)) (str "node_modules/") ++ [Star (ALit dot)]).
Proof. reflexivity. Qed.

Lemma matchItems_star_then_literal (a b c : ascii) (r : list item) (s : jstr) :
  ch_eqb a c = false -> ch_eqb b c = false ->
  matchItems (Star (ALit a) :: One (ALit b) :: r) (c :: s) = false.
Proof.
  intros Ha Hb. simpl. now rewrite Ha, Hb.
Qed.

(** C1 (the code departs from the claim). [**/node_modules/**] takes the
    general branch, and there [matchGlob] answers [false] for every path
    [<dir>/node_modules/<rest>] whose first code unit is neither a dot nor a
    slash: the compiled expression is [^\.*/node_modules/\.*$], in which
    [**] stands for a run of dots, not for any sequence. *)
Theorem matchGlob_node_modules_rejected (c : ascii) (dir rest : jstr) :
  ch_eqb dot c = false -> ch_eqb slash c = false ->
  isExtensionPattern (str "**/node_modules/**") = false /\
  matchGlob ((c :: dir) ++ str "/node_modules/" ++ rest)
            (str "**/node_modules/**") = Some false.
Proof.
  intros Hd Hs. split; [reflexivity|].
  unfold matchGlob.
  replace (isExtensionPattern (str "**/node_modules/**")) with false
    by reflexivity.
  unfold regexTest. rewrite parse_node_modules.
  cbn [option_map]. f_equal.
  apply matchItems_star_then_literal; assumption.
Qed.

(** The test for the extension shape is not anchored on the left: a pattern
    that only ends in [**/*.<ext>] takes the extension branch too, and what
    stands before is not looked at. *)
Example matchGlob_prefixed_extension :
  isExtensionPattern (str "src/**/*.js") = true /\
  matchGlob (str "lib/a.js") (str "src/**/*.js") = Some true.
Proof. split; reflexivity. Qed.

(** In the general branch a single [*] is compiled as meant; [?], like
    [**], ends as an escaped dot. *)
Example matchGlob_single_star :
  matchGlob (str "src/app.js") (str "src/*.j?") = Some false /\
  matchGlob (str "src/app.j.") (str "src/*.j?") = Some true /\
  matchGlob (str "src/x/app.j.") (str "src/*.j?") = Some false.
Proof. repeat split; reflexivity. Qed.

Lemma matchGlob_node_modules_rejected_witness :
  isExtensionPattern (str "**/node_modules/**") = false /\
  matchGlob (str "src/node_modules/lib/index.js")
            (str "**/node_modules/**") = Some false.
Proof.
  apply (@matchGlob_node_modules_rejected "s"%char (str "rc") (str "lib/index.js"));
    reflexivity.
Defined.

End GlobFacts.

(* ------------------------------------------------------------------------- *)
(** ** Objects *)

Module JsObjectFacts.

Section Dict.
Variable V : Type.
Implicit Types (o : obj V) (k : jstr) (v : V).

Lemma ownGet_None k o : ownGet k o = None <-> ~ In k (keys o).
Proof.
  induction o as [|[k' v'] o IH]; simpl.
  - tauto.
  - destruct (jstr_eqb k k') eqn:E.
    + apply jstr_eqb_eq in E; subst. split; [discriminate|tauto].
    + apply jstr_eqb_neq in E. rewrite IH. split; [intros H [H1|H1]|]; try tauto.
      congruence.
Qed.

Lemma ownGet_In k v o : ownGet k o = Some v -> In (k, v) o.
Proof.
  induction o as [|[k' v'] o IH]; simpl; [discriminate|].
  destruct (jstr_eqb k k') eqn:E.
  - apply jstr_eqb_eq in E; subst. intros [= ->]; now left.
  - intros H; right; auto.
Qed.

Lemma In_ownGet k v o : NoDup (keys o) -> In (k, v) o -> ownGet k o = Some v.
Proof.
  induction o as [|[k' v'] o IH]; simpl; [tauto|].
  intros Hnd [[= -> ->]|Hin].
  - now rewrite jstr_eqb_refl.
  - inversion Hnd as [|? ? Hni Hnd']; subst.
    destruct (jstr_eqb k k') eqn:E; [|auto].
    apply jstr_eqb_eq in E; subst. exfalso; apply Hni.
    change k' with (fst (k', v)). now apply in_map.
Qed.

Lemma upsert_absent k v o : ~ In k (keys o) -> upsert k v o = o ++ [(k, v)].
Proof.
  induction o as [|[k' v'] o IH]; simpl; [reflexivity|].
  intros H. destruct (jstr_eqb k k') eqn:E.
  - apply jstr_eqb_eq in E; subst; tauto.
  - rewrite IH; tauto.
Qed.

Lemma keys_upsert_present k v o : In k (keys o) -> keys (upsert k v o) = keys o.
Proof.
  induction o as [|[k' v'] o IH]; simpl; [tauto|].
  intros H. destruct (jstr_eqb k k') eqn:E; simpl.
  - apply jstr_eqb_eq in E; now subst.
  - apply jstr_eqb_neq in E. f_equal. apply IH. destruct H; congruence.
Qed.

Lemma ownGet_upsert_same k v o : ownGet k (upsert k v o) = Some v.
Proof.
  induction o as [|[k' v'] o IH]; simpl.
  - now rewrite jstr_eqb_refl.
  - destruct (jstr_eqb k k') eqn:E; simpl.
    + now rewrite jstr_eqb_refl.
    + now rewrite E.
Qed.

Lemma ownGet_upsert_other k k' v o :
  k <> k' -> ownGet k' (upsert k v o) = ownGet k' o.
Proof.
  intros Hne. induction o as [|[k0 v0] o IH]; simpl.
  - destruct (jstr_eqb k' k) eqn:E; [|reflexivity].
    apply jstr_eqb_eq in E; congruence.
  - destruct (jstr_eqb k k0) eqn:E; simpl.
    + apply jstr_eqb_eq in E; subst k0.
      destruct (jstr_eqb k' k) eqn:E'; [|reflexivity].
      apply jstr_eqb_eq in E'; congruence.
    + now rewrite IH.
Qed.

Lemma ownGet_delete_same k o : ownGet k (delete k o) = None.
Proof.
  induction o as [|[k' v'] o IH]; simpl; [reflexivity|].
  destruct (jstr_eqb k k') eqn:E; simpl; [assumption|].
  now rewrite E.
Qed.

Lemma delete_absent k o : ~ In k (keys o) -> delete k o = o.
Proof.
  induction o as [|[k' v'] o IH]; simpl; [reflexivity|].
  intros H. destruct (jstr_eqb k k') eqn:E; simpl.
  - apply jstr_eqb_eq in E; subst; tauto.
  - f_equal; apply IH; tauto.
Qed.

Lemma In_delete k kv o : In kv (delete k o) <-> In kv o /\ fst kv <> k.
Proof.
  unfold delete. rewrite filter_In. rewrite negb_true_iff, jstr_eqb_neq.
  intuition congruence.
Qed.

Lemma filter_all (A : Type) (p : A -> bool) (l : list A) :
  forallb p l = true -> filter p l = l.
Proof.
  induction l as [|x l IH]; simpl; [reflexivity|].
  intros H; apply andb_true_iff in H as [H1 H2]. rewrite H1. f_equal; auto.
Qed.

Lemma filter_none (A : Type) (p : A -> bool) (l : list A) :
  forallb (fun x => negb (p x)) l = true -> filter p l = [].
Proof.
  induction l as [|x l IH]; simpl; [reflexivity|].
  intros H; apply andb_true_iff in H as [H1 H2].
  apply negb_true_iff in H1. rewrite H1. auto.
Qed.

(** Without array indices among the names, the enumeration is the order of
    creation. *)
Lemma entries_plain o :
  forallb (fun kv => negb (isArrayIndex (fst kv))) o = true -> entries o = o.
Proof.
  intros H. unfold entries.
  rewrite (filter_none _ o), (filter_all _ o); [reflexivity|exact H|exact H].
Qed.

(** [Object.fromEntries] of distinct names keeps the list. *)
Lemma fromEntriesInto_distinct (l : list (jstr * V)) o :
  NoDup (keys o ++ keys l) -> fromEntriesInto l o = o ++ l.
Proof.
  revert o; induction l as [|[k v] l IH]; intros o Hnd;
    cbn [fromEntriesInto].
  - now rewrite app_nil_r.
  - assert (Hni : ~ In k (keys o)).
    { intros Hin. simpl in Hnd. apply NoDup_remove_2 in Hnd.
      apply Hnd, in_or_app; now left. }
    rewrite upsert_absent by assumption.
    rewrite IH; [now rewrite <- app_assoc|].
    unfold keys in *. rewrite map_app; simpl. rewrite <- app_assoc. exact Hnd.
Qed.

End Dict.

End JsObjectFacts.

Import JsObjectFacts.

(* ------------------------------------------------------------------------- *)
(** ** Keyword extraction *)

Module KeywordsFacts.

Lemma sanitize_class (c : ascii) :
  isSpace (sanitize c) || alnum (sanitize c) = true.
Proof.
  unfold sanitize, alnum.
  destruct (isLower c) eqn:E1; simpl.
  - rewrite E1. apply orb_true_r.
  - destruct (isDigit c) eqn:E2; simpl.
    + rewrite E1, E2. apply orb_true_r.
    + destruct (isSpace c) eqn:E3; [now rewrite E3|reflexivity].
Qed.

Lemma splitRuns_chars (sep P : ascii -> bool) (s : jstr) (b : bool) :
  forallb (fun c => sep c || P c) s = true ->
  Forall (fun w => forallb P w = true) (splitRuns sep b s).
Proof.
  revert b; induction s as [|c s IH]; intros b H; simpl in *.
  - constructor; [reflexivity|constructor].
  - apply andb_true_iff in H as [Hc Hs].
    destruct (sep c) eqn:E.
    + destruct b; [auto|]. constructor; [reflexivity|auto].
    + simpl in Hc. specialize (IH false Hs).
      destruct (splitRuns sep false s) as [|w ws].
      * constructor; [simpl; now rewrite Hc|constructor].
      * inversion IH; subst. constructor; [simpl; now rewrite Hc|assumption].
Qed.

(** The words of a text are made of lower-case letters and digits. *)
Lemma words_alnum (text : jstr) (w : jstr) :
  In w (words text) -> forallb alnum w = true.
Proof.
  unfold words. rewrite filter_In. intros [Hin _].
  assert (H : Forall (fun w => forallb alnum w = true)
                (splitRuns isSpace false (map sanitize (toLowerCase text)))).
  { apply splitRuns_chars. rewrite forallb_forall.
    intros c Hc. apply in_map_iff in Hc as (c' & <- & _).
    apply sanitize_class. }
  rewrite Forall_forall in H. auto.
Qed.

(** Among the names of [Object.prototype] only [constructor] can be a word. *)
Lemma protoKey_word (w : jstr) :
  isProtoKey w = true -> forallb alnum w = true -> w = str "constructor".
Proof.
  unfold isProtoKey. rewrite existsb_exists. intros (k & Hk & E).
  apply jstr_eqb_eq in E; subst k.
  repeat (destruct Hk as [<-|Hk]; [try reflexivity; discriminate|]).
  destruct Hk.
Qed.

Lemma plain_words_not_inherited (text : jstr) :
  forallb plainWord (words text) = true ->
  Forall (fun w => isProtoKey w = false) (words text).
Proof.
  rewrite forallb_forall, Forall_forall. intros H w Hw.
  destruct (isProtoKey w) eqn:E; [|reflexivity].
  apply protoKey_word in E; [|now apply words_alnum with text].
  specialize (H w Hw). unfold plainWord in H.
  apply andb_true_iff in H as [_ H]. subst w. discriminate H.
Qed.

(** *** Counting *)

Lemma existsb_keys (k : jstr) (ks : list jstr) :
  existsb (jstr_eqb k) ks = true <-> In k ks.
Proof.
  rewrite existsb_exists. split.
  - intros (x & Hx & E). apply jstr_eqb_eq in E. now subst.
  - intros H. exists k. split; [assumption|apply jstr_eqb_refl].
Qed.

Lemma frequency_cons_other (w x : jstr) (r : list jstr) :
  w <> x -> frequency w (x :: r) = frequency w r.
Proof.
  intros H. simpl. apply jstr_eqb_neq in H. now rewrite H.
Qed.

Lemma frequency_cons_same (w : jstr) (r : list jstr) :
  frequency w (w :: r) = (1 + frequency w r)%N.
Proof. simpl. now rewrite jstr_eqb_refl. Qed.

Lemma bump_nil (f : obj N) : bump f [] = f.
Proof.
  unfold bump. transitivity (map (fun kv : jstr * N => kv) f).
  - apply map_ext. intros [k v]. simpl. now rewrite N.add_0_r.
  - apply map_id.
Qed.

Lemma bump_cons_absent (f : obj N) (w : jstr) (r : list jstr) :
  ~ In w (keys f) -> bump f (w :: r) = bump f r.
Proof.
  unfold bump. induction f as [|[k v] f IH]; intros H; [reflexivity|].
  cbn [map fst snd]. simpl in H.
  rewrite frequency_cons_other by (intros ->; tauto).
  rewrite IH by tauto. reflexivity.
Qed.

Lemma bump_upsert (f : obj N) (w : jstr) (n : N) (r : list jstr) :
  NoDup (keys f) -> ownGet w f = Some n ->
  bump (upsert w (n + 1)%N f) r = bump f (w :: r).
Proof.
  induction f as [|[k v] f IH]; intros Hnd Hget; [discriminate|].
  inversion Hnd as [|? ? Hni Hnd']; subst.
  cbn [ownGet upsert] in *.
  destruct (jstr_eqb w k) eqn:E.
  - apply jstr_eqb_eq in E; subst k. injection Hget as ->.
    unfold bump at 1 2. cbn [map fst snd].
    rewrite frequency_cons_same.
    fold (bump f r) (bump f (w :: r)). rewrite bump_cons_absent by assumption.
    f_equal. f_equal. lia.
  - unfold bump at 1 2. cbn [map fst snd].
    fold (bump (upsert w (n + 1)%N f) r) (bump f (w :: r)).
    rewrite IH by assumption.
    rewrite frequency_cons_other; [reflexivity|].
    apply jstr_eqb_neq in E. congruence.
Qed.

Lemma fresh_same_keys (f f' l : obj N) :
  keys f' = keys f -> fresh f' l = fresh f l.
Proof. unfold fresh. now intros ->. Qed.

Lemma fresh_delete_present (f l : obj N) (w : jstr) :
  In w (keys f) -> fresh f (delete w l) = fresh f l.
Proof.
  intros Hin. unfold fresh, delete.
  induction l as [|[k v] l IH]; [reflexivity|].
  cbn [filter fst].
  destruct (jstr_eqb w k) eqn:E; cbn [negb filter fst].
  - apply jstr_eqb_eq in E; subst k.
    apply existsb_keys in Hin. rewrite Hin. exact IH.
  - rewrite IH. reflexivity.
Qed.

Lemma fresh_snoc (f l : obj N) (w : jstr) (n : N) :
  fresh (f ++ [(w, n)]) l = fresh f (delete w l).
Proof.
  unfold fresh, delete, keys.
  induction l as [|[k v] l IH]; [reflexivity|].
  cbn [filter fst]. rewrite IH.
  rewrite map_app, existsb_app. cbn [map fst existsb].
  rewrite orb_false_r. rewrite (jstr_eqb_sym k w).
  destruct (jstr_eqb w k); cbn [negb filter fst].
  - now rewrite orb_true_r.
  - now rewrite orb_false_r.
Qed.

Lemma NoDup_keys_upsert (f : obj N) (w : jstr) (n : N) :
  NoDup (keys f) -> NoDup (keys (upsert w n f)).
Proof.
  intros Hnd. destruct (in_dec (list_eq_dec ascii_dec) w (keys f)) as [Hin|Hni].
  - now rewrite keys_upsert_present.
  - rewrite upsert_absent by assumption. unfold keys in *.
    rewrite map_app. simpl. apply NoDup_app; auto.
    + constructor; [tauto|constructor].
    + intros x Hx [<-|[]]. contradiction.
Qed.

(** The counting loop yields the tally of the words. *)
Lemma countWords_spec (ws : list jstr) (f : obj N) :
  NoDup (keys f) ->
  Forall (fun w => isProtoKey w = false) ws ->
  countWords ws f = Some (bump f ws ++ fresh f (tally ws)).
Proof.
  revert f; induction ws as [|w r IH]; intros f Hnd Hp.
  - simpl. now rewrite bump_nil, app_nil_r.
  - inversion Hp as [|? ? Hw Hr]; subst.
    assert (Hset : forall n, set w n f = Some (upsert w n f)).
    { intros n. unfold set.
      destruct (jstr_eqb w (str "__proto__")) eqn:E; [|reflexivity].
      apply jstr_eqb_eq in E; subst w. discriminate Hw. }
    cbn [countWords]. unfold get. rewrite Hw.
    destruct (ownGet w f) as [n|] eqn:Hget.
    + rewrite Hset, IH; [|now apply NoDup_keys_upsert|assumption].
      assert (Hin : In w (keys f)).
      { apply ownGet_In in Hget. change w with (fst (w, n)). now apply in_map. }
      rewrite (@bump_upsert f w n r Hnd Hget).
      rewrite (@fresh_same_keys f (upsert w (n + 1)%N f) (tally r)
                 (@keys_upsert_present N w (n + 1)%N f Hin)).
      cbn [tally]. unfold fresh at 2. cbn [filter fst].
      apply existsb_keys in Hin. rewrite Hin. cbn [negb].
      fold (fresh f (delete w (tally r))).
      apply existsb_keys in Hin. now rewrite fresh_delete_present.
    + apply ownGet_None in Hget.
      rewrite Hset, IH; [|now apply NoDup_keys_upsert|assumption].
      rewrite upsert_absent by assumption.
      rewrite fresh_snoc. unfold bump at 1. rewrite map_app.
      fold (bump f r). cbn [map fst snd]. rewrite <- app_assoc.
      rewrite bump_cons_absent by assumption.
      cbn [tally app]. unfold fresh at 2. cbn [filter fst].
      destruct (existsb (jstr_eqb w) (keys f)) eqn:E.
      * apply existsb_keys in E. contradiction.
      * cbn [negb]. reflexivity.
Qed.

(** *** The tally *)

Lemma tally_In (ws : list jstr) (w : jstr) (n : N) :
  In (w, n) (tally ws) -> n = frequency w ws /\ In w ws.
Proof.
  induction ws as [|x r IH]; cbn [tally]; [intros []|].
  intros [Heq|Hin].
  - injection Heq as Hx Hn. subst x. rewrite <- Hn, frequency_cons_same.
    split; [reflexivity|now left].
  - apply In_delete in Hin as [Hin Hne]. cbn [fst] in Hne.
    destruct (IH Hin) as [-> Hw].
    rewrite frequency_cons_other by assumption. split; [reflexivity|now right].
Qed.

Lemma keys_delete_In (w k : jstr) (l : obj N) :
  In k (keys (delete w l)) -> In k (keys l) /\ k <> w.
Proof.
  unfold keys. rewrite !in_map_iff. intros ([k' v] & <- & Hin).
  apply In_delete in Hin as [Hin Hne]. split; [|assumption].
  exists (k', v). auto.
Qed.

Lemma NoDup_keys_delete (w : jstr) (l : obj N) :
  NoDup (keys l) -> NoDup (keys (delete w l)).
Proof.
  induction l as [|[k v] l IH]; intros Hnd; [constructor|].
  inversion Hnd as [|? ? Hni Hnd']; subst.
  unfold delete. cbn [filter fst].
  destruct (jstr_eqb w k); cbn [negb]; [now apply IH|].
  unfold keys. cbn [map fst]. constructor; [|now apply IH].
  intros Hin. apply Hni. now apply (keys_delete_In w).
Qed.

Lemma tally_NoDup (ws : list jstr) : NoDup (keys (tally ws)).
Proof.
  induction ws as [|x r IH]; cbn [tally]; [constructor|].
  unfold keys. cbn [map fst]. constructor; [|now apply NoDup_keys_delete].
  intros Hin. apply keys_delete_In in Hin as [_ Hne]. congruence.
Qed.

Lemma StronglySorted_filter (A : Type) (R : A -> A -> Prop) (p : A -> bool)
  (l : list A) :
  StronglySorted R l -> StronglySorted R (filter p l).
Proof.
  induction 1 as [|x l Hs IH Hx]; simpl; [constructor|].
  destruct (p x); [|assumption].
  constructor; [assumption|].
  rewrite Forall_forall in *. intros y Hy. apply filter_In in Hy as [Hy _]. auto.
Qed.

Lemma StronglySorted_weaken (A : Type) (R R' : A -> A -> Prop) (l : list A) :
  (forall a b, In a l -> In b l -> R a b -> R' a b) ->
  StronglySorted R l -> StronglySorted R' l.
Proof.
  intros HR Hs. induction Hs as [|x l Hs IH Hx]; [constructor|].
  constructor.
  - apply IH. intros a b Ha Hb. apply HR; now right.
  - rewrite Forall_forall in *. intros y Hy.
    apply HR; [now left|now right|auto].
Qed.

Lemma StronglySorted_firstn (A : Type) (R : A -> A -> Prop) (n : nat)
  (l : list A) :
  StronglySorted R l -> StronglySorted R (firstn n l).
Proof.
  intros Hs; revert n. induction Hs as [|x l Hs IH Hx]; intros [|n]; simpl;
    try constructor; auto.
  rewrite Forall_forall in *. intros y Hy. apply Hx.
  rewrite <- (firstn_skipn n l). apply in_or_app; now left.
Qed.

(** The tally lists the words in the order they are first seen. *)
Lemma tally_first_seen (ws : list jstr) :
  StronglySorted (seen_before ws) (tally ws).
Proof.
  induction ws as [|x r IH]; cbn [tally]; [constructor|].
  constructor.
  - apply StronglySorted_weaken with (R := seen_before r).
    + unfold seen_before. intros a b Ha Hb Hab.
      apply In_delete in Ha as [_ Ha]. apply In_delete in Hb as [_ Hb].
      cbn [firstIndex]. apply jstr_eqb_neq in Ha, Hb. rewrite Ha, Hb. lia.
    + now apply StronglySorted_filter.
  - rewrite Forall_forall. intros kv Hkv. apply In_delete in Hkv as [_ Hne].
    unfold seen_before. cbn [firstIndex fst]. rewrite jstr_eqb_refl.
    apply jstr_eqb_neq in Hne. rewrite Hne. lia.
Qed.

(** *** The stable sort *)

Lemma insertDesc_In (x y : jstr * N) (l : list (jstr * N)) :
  In y (insertDesc x l) <-> y = x \/ In y l.
Proof.
  induction l as [|z l IH]; simpl.
  - intuition congruence.
  - destruct (snd z <=? snd x)%N; simpl; [intuition congruence|].
    rewrite IH. intuition congruence.
Qed.

Lemma insertDesc_perm (x : jstr * N) (l : list (jstr * N)) :
  Permutation (x :: l) (insertDesc x l).
Proof.
  induction l as [|z l IH]; simpl; [reflexivity|].
  destruct (snd z <=? snd x)%N; [reflexivity|].
  rewrite perm_swap. now constructor.
Qed.

Lemma sortDesc_perm (l : list (jstr * N)) : Permutation l (sortDesc l).
Proof.
  induction l as [|x l IH]; simpl; [reflexivity|].
  rewrite <- insertDesc_perm. now constructor.
Qed.

Section Stable.
Variable ws : list jstr.

Lemma keyword_order_count (a b : jstr * N) :
  keyword_order ws a b -> (snd b <= snd a)%N.
Proof. intros [H|[H _]]; lia. Qed.

Lemma insertDesc_sorted (x : jstr * N) (l : list (jstr * N)) :
  StronglySorted (keyword_order ws) l ->
  Forall (seen_before ws x) l ->
  StronglySorted (keyword_order ws) (insertDesc x l).
Proof.
  induction 1 as [|y l Hs IH Hy]; intros Hx; simpl.
  - constructor; constructor.
  - inversion Hx as [|? ? Hxy Hxl]; subst.
    destruct (snd y <=? snd x)%N eqn:E.
    + apply N.leb_le in E. constructor; [now constructor|].
      rewrite Forall_forall in *. intros z [<-|Hz].
      * destruct (N.eq_dec (snd x) (snd y)) as [Heq|Hne].
        -- right. split; [assumption|exact Hxy].
        -- left. lia.
      * pose proof (keyword_order_count (Hy z Hz)) as Hzy.
        destruct (N.eq_dec (snd x) (snd z)) as [Heq|Hne].
        -- right. split; [assumption|]. apply Hxl, Hz.
        -- left. lia.
    + apply N.leb_gt in E. constructor; [now apply IH|].
      rewrite Forall_forall in *. intros z Hz.
      apply insertDesc_In in Hz as [->|Hz]; [now left|auto].
Qed.

(** Sorting a list in first-seen order by descending count breaks the ties
    in first-seen order. *)
Lemma sortDesc_sorted (l : list (jstr * N)) :
  StronglySorted (seen_before ws) l ->
  StronglySorted (keyword_order ws) (sortDesc l).
Proof.
  induction 1 as [|x l Hs IH Hx]; simpl; [constructor|].
  apply insertDesc_sorted; [assumption|].
  rewrite Forall_forall in *. intros z Hz. apply Hx.
  eapply Permutation_in; [symmetry; apply sortDesc_perm|assumption].
Qed.

End Stable.

(** *** The extractor *)

Lemma NoDup_keys_filter (p : jstr * N -> bool) (l : obj N) :
  NoDup (keys l) -> NoDup (keys (filter p l)).
Proof.
  induction l as [|[k v] l IH]; intros Hnd; [constructor|].
  inversion Hnd as [|? ? Hni Hnd']; subst. cbn [filter].
  destruct (p (k, v)); [|now apply IH].
  unfold keys. cbn [map fst]. constructor; [|now apply IH].
  intros Hin. apply Hni. unfold keys in *.
  apply in_map_iff in Hin as (kv & E & Hin). apply filter_In in Hin as [Hin _].
  rewrite <- E. now apply in_map.
Qed.

Lemma NoDup_keys_firstn (n : nat) (l : obj N) :
  NoDup (keys l) -> NoDup (keys (firstn n l)).
Proof.
  intros Hnd. unfold keys in *.
  rewrite <- (firstn_skipn n l), map_app in Hnd.
  now apply NoDup_app_remove_r in Hnd.
Qed.

Lemma fresh_nil (l : obj N) : fresh [] l = l.
Proof. unfold fresh. apply filter_all. now apply forallb_forall. Qed.

(** What the extractor keeps before it builds the object. *)
Lemma kept_In (ws : list jstr) (n : nat) (kv : jstr * N) :
  In kv (firstn n (sortDesc
           (filter (fun e => negb (isStopWord (fst e))) (tally ws)))) ->
  In kv (tally ws) /\ isStopWord (fst kv) = false.
Proof.
  intros Hin.
  assert (H2 : In kv (sortDesc
             (filter (fun e => negb (isStopWord (fst e))) (tally ws)))).
  { rewrite <- (firstn_skipn n). apply in_or_app; left; exact Hin. }
  eapply Permutation_in in H2; [|symmetry; apply sortDesc_perm].
  apply filter_In in H2 as [H2 H3]. apply negb_true_iff in H3. auto.
Qed.

(** C6 (amended). For every text none of whose words is an array index or
    the word [constructor], [extractKeywords] returns an object of at most
    20 keywords, each with the number of its occurrences and none a stop
    word, enumerated by descending frequency and, among equally frequent
    ones, in the order in which the words are first seen. *)
Theorem extractKeywords_ordered (text : jstr) :
  forallb plainWord (words text) = true ->
  exists kws,
    extractKeywords text = Some kws /\
    length (entries kws) <= 20 /\
    keywords_ordered (words text) (entries kws) /\
    forall w n, In (w, n) (entries kws) ->
                n = frequency w (words text) /\ isStopWord w = false.
Proof.
  intros Hplain.
  pose proof (plain_words_not_inherited text Hplain) as Hproto.
  set (ws := words text) in *.
  set (kept := firstn 20 (sortDesc
         (filter (fun e => negb (isStopWord (fst e))) (tally ws)))).
  assert (Hkey : forall kv, In kv (tally ws) ->
            isArrayIndex (fst kv) = false /\ isProtoKey (fst kv) = false).
  { intros [k v] Hin. apply tally_In in Hin as [_ Hin]. cbn [fst].
    rewrite forallb_forall in Hplain. rewrite Forall_forall in Hproto.
    specialize (Hplain k Hin). unfold plainWord in Hplain.
    apply andb_true_iff in Hplain as [H1 _]. apply negb_true_iff in H1. auto. }
  assert (Hcount : countWords ws [] = Some (tally ws)).
  { rewrite countWords_spec; [|constructor|assumption].
    now rewrite fresh_nil. }
  assert (Hent : entries (tally ws) = tally ws).
  { apply entries_plain, forallb_forall. intros kv Hin.
    apply negb_true_iff. now apply Hkey. }
  assert (Hobj : fromEntries kept = kept).
  { unfold fromEntries. rewrite fromEntriesInto_distinct; [reflexivity|].
    cbn [keys map app]. apply NoDup_keys_firstn.
    eapply Permutation_NoDup; [apply Permutation_map, sortDesc_perm|].
    apply NoDup_keys_filter, tally_NoDup. }
  assert (Hkept : entries kept = kept).
  { apply entries_plain, forallb_forall. intros kv Hin.
    apply negb_true_iff. apply kept_In in Hin as [Hin _]. now apply Hkey. }
  exists kept. split; [|split; [|split]].
  - unfold extractKeywords, extractKeywordsMax.
    fold ws. rewrite Hcount, Hent. fold kept. now rewrite Hobj.
  - rewrite Hkept. apply firstn_le_length.
  - rewrite Hkept. apply StronglySorted_firstn, sortDesc_sorted.
    apply StronglySorted_filter, tally_first_seen.
  - rewrite Hkept. intros w n Hin.
    apply kept_In in Hin as [Hin Hstop]. apply tally_In in Hin as [-> _].
    auto.
Qed.

Lemma extractKeywords_ordered_witness :
  exists kws,
    extractKeywords (str "beta alpha beta, this gamma") = Some kws /\
    length (entries kws) <= 20 /\
    keywords_ordered (words (str "beta alpha beta, this gamma")) (entries kws) /\
    forall w n, In (w, n) (entries kws) ->
                n = frequency w (words (str "beta alpha beta, this gamma")) /\
                isStopWord w = false.
Proof.
  apply (extractKeywords_ordered (str "beta alpha beta, this gamma")).
  reflexivity.
Defined.

Example extractKeywords_sample :
  extractKeywords (str "beta alpha beta, this gamma") =
  Some [(str "beta", 2%N); (str "alpha", 1%N); (str "gamma", 1%N)].
Proof. reflexivity. Qed.

(** C6, as stated, fails: a word that is an array index is enumerated before
    the other words, although it was seen later, and although it is less
    frequent. *)
Lemma extractKeywords_order_counterexample :
  (exists kws,
     extractKeywords (str "zeta 2024") = Some kws /\
     entries kws = [(str "2024", 1%N); (str "zeta", 1%N)] /\
     ~ keywords_ordered (words (str "zeta 2024")) (entries kws)) /\
  (exists kws,
     extractKeywords (str "alpha alpha 2024") = Some kws /\
     entries kws = [(str "2024", 1%N); (str "alpha", 2%N)] /\
     ~ keywords_ordered (words (str "alpha alpha 2024")) (entries kws)).
Proof.
  split; eexists; (split; [reflexivity|split; [reflexivity|]]);
    intros H; inversion H as [|? ? _ HF]; subst;
    inversion HF as [|? ? Hko _]; subst;
    destruct Hko as [Hlt|[Heq Hseen]].
  - cbn in Hlt. lia.
  - vm_compute in Hseen. lia.
  - cbn in Hlt. lia.
  - cbn in Heq. discriminate Heq.
Qed.

End KeywordsFacts.

(* ------------------------------------------------------------------------- *)
(** ** Index store *)

Module StoreFacts.

Lemma get_own (V : Type) (k : jstr) (v : V) (o : obj V) :
  ownGet k o = Some v -> get k o = Own v.
Proof. unfold get. now intros ->. Qed.

Lemma set_get (V : Type) (k : jstr) (v : V) (o o' : obj V) :
  set k v o = Some o' -> get k o' = Own v.
Proof.
  unfold set. destruct (jstr_eqb k (str "__proto__")); [discriminate|].
  intros [= <-]. apply get_own, ownGet_upsert_same.
Qed.

(** An equal hash ends [indexFile] before anything is written. *)
Lemma indexFile_same_hash (env : Env) (filePath projectPath : jstr)
  (ix : Indexer) (text : jstr) (stats : Stats) (r : FileRecord) :
  readFileSync env filePath = inl text ->
  statSync env filePath = inl stats ->
  get (getRelativePath env projectPath filePath) (files (db ix)) = Own r ->
  hash r = getHash env text ->
  indexFile env filePath projectPath ix =
  Some (ix, Unchanged (getRelativePath env projectPath filePath)).
Proof.
  intros Hread Hstat Hget Hhash. unfold indexFile, sameHash.
  now rewrite Hread, Hstat, Hget, Hhash, jstr_eqb_refl.
Qed.

(** C3. A file whose content has the hash of its record is reported
    [unchanged], and the indexer (the database in memory and the documents
    written) is returned as it was; in particular a second [indexFile] right
    after one that did not fail is [unchanged] and changes nothing. *)
Theorem indexFile_idempotent (env : Env) (filePath projectPath : jstr)
  (ix : Indexer) :
  (forall text stats r,
     readFileSync env filePath = inl text ->
     statSync env filePath = inl stats ->
     ownGet (getRelativePath env projectPath filePath) (files (db ix)) = Some r ->
     hash r = getHash env text ->
     indexFile env filePath projectPath ix =
     Some (ix, Unchanged (getRelativePath env projectPath filePath))) /\
  (forall ix1 res,
     indexFile env filePath projectPath ix = Some (ix1, res) ->
     (forall path message, res <> Error path message) ->
     indexFile env filePath projectPath ix1 =
     Some (ix1, Unchanged (getRelativePath env projectPath filePath))).
Proof.
  split.
  - intros text stats r Hread Hstat Hget Hhash.
    eapply indexFile_same_hash; eauto using get_own.
  - intros ix1 res Hfirst Hok.
    unfold indexFile in Hfirst.
    destruct (readFileSync env filePath) as [text|message] eqn:Hread.
    2:{ injection Hfirst as _ <-. now destruct (Hok filePath message). }
    destruct (statSync env filePath) as [stats|message] eqn:Hstat.
    2:{ injection Hfirst as _ <-. now destruct (Hok filePath message). }
    destruct (sameHash _ _ _) eqn:Hsame.
    + injection Hfirst as <- <-.
      unfold indexFile. now rewrite Hread, Hstat, Hsame.
    + destruct (extractKeywords text) as [kws|]; [|discriminate].
      destruct (set _ _ (files (db ix))) as [files'|] eqn:Hset; [|discriminate].
      destruct (set _ _ (keywords (db ix))) as [keywords'|]; [|discriminate].
      injection Hfirst as <- <-.
      eapply indexFile_same_hash; eauto.
      * cbn [saveDatabase db files]. eapply set_get; eauto.
      * reflexivity.
Qed.

Lemma indexFile_idempotent_witness :
  exists ix1,
    indexFile sampleEnv (str "/proj/a.js") (str "/proj") (open sampleEnv Missing)
    = Some (ix1, Indexed (str "a.js") 24) /\
    indexFile sampleEnv (str "/proj/a.js") (str "/proj") ix1
    = Some (ix1, Unchanged (str "a.js")).
Proof.
  eexists. split; [reflexivity|].
  refine (proj2 (indexFile_idempotent sampleEnv (str "/proj/a.js") (str "/proj")
                   (open sampleEnv Missing)) _ _ _ _).
  - reflexivity.
  - discriminate.
Defined.

(** C7. When the content cannot be read, [indexFile] returns [error] with
    the message of the cause and the indexer as it was: the files and the
    keywords in memory are the same and nothing was written. *)
Theorem indexFile_read_failure (env : Env) (filePath projectPath : jstr)
  (ix : Indexer) (message : jstr) :
  readFileSync env filePath = inr message ->
  exists ix',
    indexFile env filePath projectPath ix = Some (ix', Error filePath message) /\
    files (db ix') = files (db ix) /\
    keywords (db ix') = keywords (db ix) /\
    written ix' = written ix /\
    ix' = ix.
Proof.
  intros Hread. exists ix. unfold indexFile. rewrite Hread. auto.
Qed.

Lemma indexFile_read_failure_witness :
  exists ix',
    indexFile brokenEnv (str "/proj/a.js") (str "/proj") (open brokenEnv Missing)
    = Some (ix', Error (str "/proj/a.js")
                       (str "ENOENT: no such file or directory")) /\
    files (db ix') = files (db (open brokenEnv Missing)) /\
    keywords (db ix') = keywords (db (open brokenEnv Missing)) /\
    written ix' = written (open brokenEnv Missing) /\
    ix' = open brokenEnv Missing.
Proof.
  apply (@indexFile_read_failure brokenEnv (str "/proj/a.js") (str "/proj")
           (open brokenEnv Missing) (str "ENOENT: no such file or directory")).
  reflexivity.
Defined.

(** *** Removal *)

Lemma insertIndex_In (V : Type) (x y : jstr * V) (l : obj V) :
  In y (insertIndex x l) <-> y = x \/ In y l.
Proof.
  induction l as [|z l IH]; simpl.
  - intuition congruence.
  - destruct (digitsValue (fst x) <=? digitsValue (fst z))%N; simpl;
      [intuition congruence|].
    rewrite IH. intuition congruence.
Qed.

Lemma sortIndex_In (V : Type) (y : jstr * V) (l : obj V) :
  In y (sortIndex l) <-> In y l.
Proof.
  induction l as [|x l IH]; simpl; [tauto|].
  rewrite insertIndex_In, IH. intuition congruence.
Qed.

(** The enumeration of an object lists its own properties. *)
Lemma entries_In (V : Type) (y : jstr * V) (o : obj V) :
  In y (entries o) <-> In y o.
Proof.
  unfold entries. rewrite in_app_iff, sortIndex_In, !filter_In.
  destruct (isArrayIndex (fst y)); simpl; intuition congruence.
Qed.

(** A path without a record, and not a name of [Object.prototype], is
    reported as not existing; nothing is written and nothing changes. *)
Lemma removeFile_absent (env : Env) (filePath projectPath : jstr)
  (ix : Indexer) :
  get (getRelativePath env projectPath filePath) (files (db ix)) = Absent ->
  ownGet (getRelativePath env projectPath filePath) (keywords (db ix)) = None ->
  removeFile env filePath projectPath ix = (ix, false).
Proof.
  intros Hget Hkw. unfold removeFile. rewrite Hget. cbn [truthy].
  unfold get in Hget.
  destruct (ownGet _ (files (db ix))) eqn:Hown; [discriminate|].
  apply ownGet_None in Hown, Hkw.
  rewrite !delete_absent by assumption.
  destruct ix as [[f k m v] w]. reflexivity.
Qed.

(** A path with a record is reported as existing; the record is deleted,
    the document is written, and no record of [getAllFiles] has that path. *)
Lemma removeFile_present (env : Env) (filePath projectPath : jstr)
  (ix : Indexer) (r : FileRecord) :
  ownGet (getRelativePath env projectPath filePath) (files (db ix)) = Some r ->
  let rel := getRelativePath env projectPath filePath in
  let ix' := fst (removeFile env filePath projectPath ix) in
  snd (removeFile env filePath projectPath ix) = true /\
  written ix' = db ix' :: written ix /\
  ownGet rel (files (db ix')) = None /\
  (keyed_by_path (files (db ix)) ->
   forall r', In r' (getAllFiles ix') -> file_path r' <> rel).
Proof.
  intros Hown rel ix'. subst rel ix'. unfold removeFile.
  rewrite (get_own _ _ Hown). cbn [truthy fst snd saveDatabase db written files].
  repeat split.
  - apply ownGet_delete_same.
  - intros Hkeyed r' Hin. unfold getAllFiles, values in Hin.
    cbn [db files] in Hin.
    apply in_map_iff in Hin as ([k v] & <- & Hin).
    apply entries_In, In_delete in Hin as [Hin Hne].
    unfold keyed_by_path in Hkeyed. rewrite Forall_forall in Hkeyed.
    rewrite (Hkeyed _ Hin). exact Hne.
Qed.

(** C8 (the code departs from the claim). For a path that has no record but
    whose relative form is a name of [Object.prototype] (a file called
    [constructor] or [toString] in the project root), [removeFile] reads
    the inherited member, reports that the file existed, and writes the
    document. *)
Theorem removeFile_inherited_name (env : Env) (filePath projectPath : jstr)
  (ix : Indexer) :
  isProtoKey (getRelativePath env projectPath filePath) = true ->
  ownGet (getRelativePath env projectPath filePath) (files (db ix)) = None ->
  snd (removeFile env filePath projectPath ix) = true /\
  written (fst (removeFile env filePath projectPath ix)) =
  db (fst (removeFile env filePath projectPath ix)) :: written ix.
Proof.
  intros Hproto Hown. unfold removeFile, get. rewrite Hown, Hproto.
  cbn [truthy fst snd saveDatabase db written]. auto.
Qed.

Lemma removeFile_inherited_name_witness :
  snd (removeFile sampleEnv (str "/proj/constructor") (str "/proj")
                  (open sampleEnv Missing)) = true /\
  written (fst (removeFile sampleEnv (str "/proj/constructor") (str "/proj")
                           (open sampleEnv Missing))) =
  db (fst (removeFile sampleEnv (str "/proj/constructor") (str "/proj")
                      (open sampleEnv Missing)))
  :: written (open sampleEnv Missing).
Proof.
  apply (@removeFile_inherited_name sampleEnv (str "/proj/constructor")
           (str "/proj") (open sampleEnv Missing)); reflexivity.
Defined.

(** The same on a store that was never written: a file [constructor] that
    was never indexed is reported as removed, and the empty document is
    written. *)
Example removeFile_constructor :
  removeFile sampleEnv (str "/proj/constructor") (str "/proj")
             (open sampleEnv Missing)
  = (mkIndexer emptyDatabase [emptyDatabase], true).
Proof. reflexivity. Qed.

Example removeFile_never_indexed :
  removeFile sampleEnv (str "/proj/a.js") (str "/proj")
             (open sampleEnv Missing)
  = (open sampleEnv Missing, false).
Proof. reflexivity. Qed.

(** *** Loading *)

Lemma indexFile_new (env : Env) (filePath projectPath : jstr)
  (text : jstr) (stats : Stats) (kws : obj N) :
  readFileSync env filePath = inl text ->
  statSync env filePath = inl stats ->
  extractKeywords text = Some kws ->
  getRelativePath env projectPath filePath <> str "__proto__" ->
  exists ix',
    indexFile env filePath projectPath (mkIndexer emptyDatabase []) =
    Some (ix', Indexed (getRelativePath env projectPath filePath)
                       (stat_size stats)) /\
    keys (files (db ix')) = [getRelativePath env projectPath filePath] /\
    written ix' = [db ix'].
Proof.
  intros Hread Hstat Hkw Hrel. eexists. unfold indexFile, sameHash, get, set.
  rewrite Hread, Hstat, Hkw. cbn [db files keywords emptyDatabase ownGet].
  apply jstr_eqb_neq in Hrel. rewrite Hrel.
  destruct (isProtoKey _); cbn [upsert]; (split; [reflexivity|split; reflexivity]).
Qed.

(** C9. A persisted document that is missing, unreadable or not valid JSON
    loads, in the indexer and in the query interface, as the database with
    empty files, keywords and metadata; no error is raised, and indexing
    goes on as on an empty store: every readable file is indexed as new. *)
Theorem loadDatabase_fallback (env : Env) (doc : Document) :
  unusable env doc ->
  (Store.loadDatabase env doc = emptyDatabase /\
   files (Store.loadDatabase env doc) = [] /\
   keywords (Store.loadDatabase env doc) = [] /\
   metadata (Store.loadDatabase env doc) = []) /\
  Query.loadDatabase env doc = mkDatabase [] [] [] None /\
  (forall filePath projectPath,
     indexFile env filePath projectPath (open env doc) =
     indexFile env filePath projectPath (mkIndexer emptyDatabase [])) /\
  (forall filePath projectPath text stats kws,
     readFileSync env filePath = inl text ->
     statSync env filePath = inl stats ->
     extractKeywords text = Some kws ->
     getRelativePath env projectPath filePath <> str "__proto__" ->
     exists ix',
       indexFile env filePath projectPath (open env doc) =
       Some (ix', Indexed (getRelativePath env projectPath filePath)
                          (stat_size stats)) /\
       keys (files (db ix')) = [getRelativePath env projectPath filePath]).
Proof.
  intros Hdoc.
  assert (Hcore : Store.loadDatabase env doc = emptyDatabase).
  { destruct doc as [| |data]; cbn in *; try reflexivity. now rewrite Hdoc. }
  assert (Hquery : Query.loadDatabase env doc = mkDatabase [] [] [] None).
  { destruct doc as [| |data]; cbn in *; try reflexivity. now rewrite Hdoc. }
  unfold open. rewrite Hcore. repeat split; try assumption.
  intros filePath projectPath text stats kws Hread Hstat Hkw Hrel.
  destruct (@indexFile_new env filePath projectPath text stats kws
              Hread Hstat Hkw Hrel) as (ix' & Hix & Hkeys & _).
  exists ix'. auto.
Qed.

Lemma loadDatabase_fallback_witness :
  Store.loadDatabase sampleEnv (Text (str "{ files: ")) = emptyDatabase.
Proof.
  apply (@loadDatabase_fallback sampleEnv (Text (str "{ files: "))).
  reflexivity.
Defined.

End StoreFacts.

(* ------------------------------------------------------------------------- *)
(** ** Query engine *)

Module QueryFacts.

Lemma jge_num (a m : jsnum) : jge a m = true -> exists q, a = Num q.
Proof. destruct a as [q|]; [eauto|discriminate]. Qed.

Lemma jpositive_sub (x y : Q) :
  jpositive (jsub (Num y) (Num x)) = true <-> (x < y)%Q.
Proof.
  cbn [jsub jpositive]. rewrite negb_true_iff.
  rewrite <- not_true_iff_false, Qle_bool_iff, Qred_correct. lra.
Qed.

(** *** Collecting *)

Lemma collect_spec (d : Database) (query : jstr) (minS : jsnum)
  (es : list (jstr * FileRecord)) :
  Forall (fun kv => histogramOf d (fst kv) <> None) es ->
  exists rs,
    collect d query minS es = Some rs /\
    forall r, In r rs ->
      exists rec s,
        In (filePath r, rec) es /\ scoreIn d query (filePath r) rec s /\
        jge s minS = true /\ score r = jmin s (Num 1).
Proof.
  induction 1 as [|[path rec] es Hh _ IH]; cbn [collect].
  - exists []. split; [reflexivity|intros r []].
  - destruct IH as (rest & -> & Hrest). cbn [fst] in Hh.
    destruct (histogramOf d path) as [kws|] eqn:Hkws; [|congruence].
    assert (Hold : forall r, In r rest ->
              exists rec0 s,
                In (filePath r, rec0) ((path, rec) :: es) /\
                scoreIn d query (filePath r) rec0 s /\
                jge s minS = true /\ score r = jmin s (Num 1)).
    { intros r Hr. destruct (Hrest r Hr) as (rec0 & s & H1 & H2).
      exists rec0, s. split; [now right|assumption]. }
    destruct (jge _ minS) eqn:Hge.
    + eexists. split; [reflexivity|]. intros r [<-|Hr]; [|auto].
      cbn [filePath score]. eexists rec, _.
      split; [now left|]. split; [exists kws; split; [assumption|reflexivity]|].
      split; [exact Hge|reflexivity].
    + exists rest. split; [reflexivity|assumption].
Qed.

(** *** Sorting *)

Lemma insertResult_In (x y : Result) (l : list Result) :
  In y (insertResult x l) <-> y = x \/ In y l.
Proof.
  induction l as [|z l IH]; simpl.
  - intuition congruence.
  - destruct (jpositive _); simpl; [|intuition congruence].
    rewrite IH. intuition congruence.
Qed.

Lemma sortResults_In (y : Result) (l : list Result) :
  In y (sortResults l) <-> In y l.
Proof.
  induction l as [|x l IH]; simpl; [tauto|].
  rewrite insertResult_In, IH. intuition congruence.
Qed.

Lemma insertResult_sorted (x : Result) (l : list Result) (sx : Q) :
  score x = Num sx ->
  StronglySorted score_desc l ->
  Forall (fun y => exists sy, score y = Num sy) l ->
  StronglySorted score_desc (insertResult x l).
Proof.
  intros Hx Hs. induction Hs as [|y l Hs IH Hy]; intros Hnum; simpl.
  - constructor; constructor.
  - inversion Hnum as [|? ? [sy Hsy] Hnum']; subst.
    rewrite Hx, Hsy.
    destruct (jpositive (jsub (Num sy) (Num sx))) eqn:E.
    + apply jpositive_sub in E. constructor; [now apply IH|].
      rewrite Forall_forall in *. intros z Hz.
      apply insertResult_In in Hz as [->|Hz]; [|auto].
      exists sy, sx. repeat split; try assumption. lra.
    + apply not_true_iff_false in E. rewrite jpositive_sub in E.
      constructor; [now constructor|].
      rewrite Forall_forall in *. intros z [<-|Hz].
      * exists sx, sy. repeat split; try assumption. lra.
      * destruct (Hy z Hz) as (a & b & Ha & Hb & Hab).
        rewrite Hsy in Ha. injection Ha as <-.
        exists sx, b. repeat split; try assumption. lra.
Qed.

Lemma sortResults_sorted (l : list Result) :
  Forall (fun y => exists sy, score y = Num sy) l ->
  StronglySorted score_desc (sortResults l).
Proof.
  induction 1 as [|x l [sx Hx] Hl IH]; simpl; [constructor|].
  apply insertResult_sorted with sx; [assumption..|].
  rewrite Forall_forall in *. intros y Hy. apply Hl. now rewrite <- sortResults_In.
Qed.

(** *** Truncating *)

Lemma sliceTo_prefix (A : Type) (last : Z) (l : list A) :
  exists k, sliceTo last l = firstn k l.
Proof. unfold sliceTo. destruct (last <? 0)%Z; eauto. Qed.

Lemma sliceTo_length (A : Type) (last : Z) (l : list A) :
  (0 <= last)%Z -> (Z.of_nat (length (sliceTo last l)) <= last)%Z.
Proof.
  intros H. unfold sliceTo.
  destruct (last <? 0)%Z eqn:E; [apply Z.ltb_lt in E; lia|].
  pose proof (firstn_le_length (Z.to_nat last) l). rewrite length_firstn. lia.
Qed.

Lemma firstn_In (A : Type) (k : nat) (l : list A) (x : A) :
  In x (firstn k l) -> In x l.
Proof.
  intros H. rewrite <- (firstn_skipn k l). apply in_or_app; now left.
Qed.

Lemma distinct_NoDup (ks : list jstr) : distinct ks = true -> NoDup ks.
Proof.
  induction ks as [|k r IH]; simpl; [constructor|].
  intros H. apply andb_true_iff in H as [H1 H2]. constructor; [|auto].
  apply negb_true_iff in H1. intros Hin.
  apply KeywordsFacts.existsb_keys in Hin. congruence.
Qed.

(** *** The result list *)

(** *** The score *)


Lemma keywordTerm_num (x : Q) :
  exists t, keywordTerm (Num x) = Num t /\ (t == 0.3 * Qmin x 5 / 5)%Q.
Proof.
  eexists. split; [reflexivity|].
  rewrite Qred_correct. now rewrite Qred_correct.
Qed.




(** C4 (the code departs from the claim). The file [a.js] with the content
    [constructors are special] is indexed into an empty store and the store
    is searched for [constructor].  The claimed score is 0.5 + 0.2 = 0.7,
    which is not below 0.3; the code reads the inherited
    [Object.prototype.constructor] as a keyword count, the score becomes NaN
    and the file is not reported. *)
Theorem search_constructor_query :
  exists ix kws,
    indexFile sampleEnv (str "/proj/a.js") (str "/proj")
              (open sampleEnv Missing) = Some (ix, Indexed (str "a.js") 24) /\
    histogramOf (db ix) (str "a.js") = Some kws /\
    (claimedScore kws (str "constructor") (str "a.js") sampleText == 0.7)%Q /\
    (claimedReported kws (str "constructor") (str "a.js") sampleText == 0.7)%Q /\
    fileScore kws (str "constructor") (str "a.js") sampleText = NaN /\
    search defaultSearchConfig (db ix) (str "constructor") noOptions = Some [] /\
    option_map (map (fun r => (filePath r, score r)))
      (search defaultSearchConfig (db ix) (str "special") noOptions) =
    Some [(str "a.js", Num (19 # 25))].
Proof.
  do 2 eexists. split; [reflexivity|]. split; [reflexivity|].
  repeat split; reflexivity.
Qed.

End QueryFacts.

(* ------------------------------------------------------------------------- *)
(** ** Candidate filter *)

Module ConfigFacts.

(** C10. [shouldIndexFile] answers [true] only for a file whose stats can be
    read and whose size is at most [maxFileSize] (5242880 in the default
    configuration); a file that is not binary, matches no exclude pattern
    and matches an include pattern is still rejected, without an error,
    when its stats cannot be read or its size is above [maxFileSize]. *)
Theorem shouldIndexFile_size_gate (env : Env) (filePath : jstr)
  (cfg : ProjectConfig) :
  (shouldIndexFile env filePath cfg = Some true ->
   exists stats,
     statSync env filePath = inl stats /\
     (stat_size stats <= maxFileSize cfg)%Z) /\
  (isBinaryFile env (normalizePath env filePath) = false ->
   matchesAnyPattern env (normalizePath env filePath) (exclude cfg)
   = Some false ->
   matchesAnyPattern env (normalizePath env filePath) (include cfg)
   = Some true ->
   (forall stats, statSync env filePath = inl stats ->
                  (maxFileSize cfg < stat_size stats)%Z) ->
   shouldIndexFile env filePath cfg = Some false) /\
  maxFileSize defaultConfig = 5242880%Z.
Proof.
  unfold shouldIndexFile, getStatsSafe. split; [|split; [|reflexivity]].
  - destruct (isBinaryFile _ _); [discriminate|].
    destruct (matchesAnyPattern _ _ (exclude cfg)) as [[|]|]; try discriminate.
    destruct (matchesAnyPattern _ _ (include cfg)) as [[|]|]; try discriminate.
    destruct (statSync env filePath) as [stats|message]; [|discriminate].
    destruct (stat_size stats <=? maxFileSize cfg)%Z eqn:E; [|discriminate].
    intros _. exists stats. split; [reflexivity|now apply Z.leb_le].
  - intros -> -> -> Hstats.
    destruct (statSync env filePath) as [stats|message]; [|reflexivity].
    specialize (Hstats stats eq_refl).
    destruct (stat_size stats <=? maxFileSize cfg)%Z eqn:E; [|reflexivity].
    apply Z.leb_le in E. lia.
Qed.

Lemma shouldIndexFile_size_gate_witness :
  shouldIndexFile largeEnv (str "/proj/src/app.js") defaultConfig
  = Some false.
Proof.
  apply (proj1 (proj2 (shouldIndexFile_size_gate largeEnv
                         (str "/proj/src/app.js") defaultConfig))).
  - reflexivity.
  - reflexivity.
  - reflexivity.
  - intros stats H. injection H as <-. reflexivity.
Defined.

(** The same file in the default configuration, below and above the limit. *)
Example shouldIndexFile_small :
  shouldIndexFile sampleEnv (str "/proj/src/app.js") defaultConfig = Some true.
Proof. reflexivity. Qed.

Example shouldIndexFile_large :
  shouldIndexFile largeEnv (str "/proj/src/app.js") defaultConfig = Some false.
Proof. reflexivity. Qed.

(** The exclude pattern [**/node_modules/**] of the default configuration
    does not keep a file under [node_modules] out. *)
Example shouldIndexFile_node_modules :
  shouldIndexFile sampleEnv (str "/proj/node_modules/pkg/index.js")
                  defaultConfig = Some true.
Proof. reflexivity. Qed.

End ConfigFacts.

(* ------------------------------------------------------------------------- *)
(** ** More of [Utils]: names, paths, lines and snippets *)

Module UtilsFacts.

(** X1. [sanitizeFilename] keeps the length, leaves no reserved character,
    touches no other character, and changes nothing when applied again. *)
Theorem sanitizeFilename_clean (filename : jstr) :
  length (sanitizeFilename filename) = length filename /\
  forallb (fun c => negb (isReserved c)) (sanitizeFilename filename) = true /\
  (forall i c, nth_error filename i = Some c -> isReserved c = false ->
               nth_error (sanitizeFilename filename) i = Some c) /\
  sanitizeFilename (sanitizeFilename filename) = sanitizeFilename filename.
Proof.
  unfold sanitizeFilename. repeat split.
  - apply length_map.
  - induction filename as [|c s IH]; [reflexivity|]. cbn [map forallb].
    rewrite IH, andb_true_r.
    destruct (isReserved c) eqn:E; [reflexivity|now rewrite E].
  - intros i c Hi Hc. rewrite nth_error_map, Hi. cbn [option_map].
    now rewrite Hc.
  - rewrite map_map. apply map_ext. intros c.
    destruct (isReserved c) eqn:E; [reflexivity|now rewrite E].
Qed.

(** Replacing one code unit by another is a map. *)
Lemma replaceAll_char (a b : ascii) (s : jstr) :
  replaceAll [a] [b] s = map (fun c => if ch_eqb a c then b else c) s.
Proof.
  unfold replaceAll. induction s as [|c s IH]; [reflexivity|].
  cbn [replaceAllFrom startsWith map length Nat.sub app].
  rewrite andb_true_r. destruct (ch_eqb a c); now rewrite IH.
Qed.

Lemma replaceAll_char_absent (a b : ascii) (s : jstr) :
  a <> b -> ~ In a (replaceAll [a] [b] s).
Proof.
  intros Hab. rewrite replaceAll_char. intros Hin.
  apply in_map_iff in Hin as (c & Hc & _).
  destruct (ch_eqb a c) eqn:E; [congruence|].
  apply ch_eqb_neq in E. congruence.
Qed.

Lemma replaceAll_char_id (a b : ascii) (s : jstr) :
  ~ In a s -> replaceAll [a] [b] s = s.
Proof.
  intros Hni. rewrite replaceAll_char.
  rewrite <- (map_id s) at 2. apply map_ext_in. intros c Hc.
  destruct (ch_eqb a c) eqn:E; [|reflexivity].
  apply ch_eqb_eq in E. subst. contradiction.
Qed.

(** X2. The paths [normalizePath] and [getRelativePath] return hold no
    backslash, whatever [path.normalize] and [path.relative] give; a path
    without backslashes passes unchanged. *)
Theorem paths_forward_slashes (env : Env) :
  (forall filePath, ~ In backslash (normalizePath env filePath)) /\
  (forall from to, ~ In backslash (getRelativePath env from to)) /\
  (forall filePath, ~ In backslash (path_normalize env filePath) ->
                    normalizePath env filePath = path_normalize env filePath) /\
  (forall from to, ~ In backslash (path_relative env from to) ->
                   getRelativePath env from to = path_relative env from to).
Proof.
  unfold normalizePath, getRelativePath. repeat split; intros.
  - apply replaceAll_char_absent. discriminate.
  - apply replaceAll_char_absent. discriminate.
  - now apply replaceAll_char_id.
  - now apply replaceAll_char_id.
Qed.

(** *** Lines *)

Lemma splitBy_length (sep : ascii -> bool) (s : jstr) :
  length (splitBy sep s) = S (length (filter sep s)).
Proof.
  induction s as [|c s IH]; [reflexivity|]. cbn [splitBy filter].
  destruct (sep c); cbn [length]; [now rewrite IH|].
  pose proof (splitBy_not_nil sep s) as Hne.
  destruct (splitBy sep s); [contradiction|exact IH].
Qed.

(** X3. [countLines] is one more than the number of line feeds: an empty text
    has one line, and the lines of two texts joined by a line feed add up. *)
Theorem countLines_line_feeds (text rest : jstr) :
  countLines text = S (lineFeeds text) /\
  countLines [] = 1 /\
  countLines (text ++ ascii_of_nat 10 :: rest) =
  countLines text + countLines rest.
Proof.
  unfold countLines, lineFeeds. repeat split.
  - apply (splitBy_length isNewline).
  - change (fun c => code c =? 10) with isNewline.
    rewrite splitBy_app_sep by reflexivity. apply length_app.
Qed.

End UtilsFacts.

(* ------------------------------------------------------------------------- *)
(** ** Snippets: [Utils.createSnippet] *)

Module SnippetFacts.

Lemma startsWith_app_l (s t p : jstr) :
  startsWith s p = true -> startsWith (s ++ t) p = true.
Proof.
  revert s; induction p as [|a p IH]; intros s H; [reflexivity|].
  destruct s as [|b s]; [discriminate|]. cbn [startsWith app] in *.
  apply andb_true_iff in H as [H1 H2]. now rewrite H1, IH.
Qed.

Lemma includes_app_l (a b sub : jstr) :
  includes a sub = true -> includes (a ++ b) sub = true.
Proof.
  induction a as [|x a IH]; cbn [includes app].
  - rewrite orb_false_r. intros H. destruct sub; [|discriminate].
    destruct b; reflexivity.
  - intros H. apply orb_true_iff in H as [H|H]; apply orb_true_iff.
    + left. now apply (startsWith_app_l (x :: a) b).
    + right. auto.
Qed.

Lemma includes_app_r (a b sub : jstr) :
  includes b sub = true -> includes (a ++ b) sub = true.
Proof.
  intros H. induction a as [|x a IH]; [assumption|].
  cbn [includes app]. rewrite IH. apply orb_true_r.
Qed.

Lemma includes_join (sep : jstr) (ls : list jstr) (l sub : jstr) :
  In l ls -> includes l sub = true -> includes (join sep ls) sub = true.
Proof.
  intros Hin Hl. induction ls as [|x ls IH]; [destruct Hin|].
  cbn [join]. destruct ls as [|y ls].
  - destruct Hin as [->|[]]. assumption.
  - destruct Hin as [->|Hin].
    + now apply includes_app_l.
    + apply includes_app_r, includes_app_r. auto.
Qed.

Lemma toLowerCase_join (sep : jstr) (ls : list jstr) :
  toLowerCase (join sep ls) = join (toLowerCase sep) (map toLowerCase ls).
Proof.
  unfold toLowerCase. induction ls as [|x ls IH]; [reflexivity|].
  cbn [join map]. destruct ls as [|y ls]; [reflexivity|].
  rewrite !map_app, IH. reflexivity.
Qed.

(** Joining lines with line feeds and splitting again gives the lines. *)
Lemma split_join_lines (ls : list jstr) :
  ls <> [] ->
  Forall (fun l => forallb (fun c => negb (isNewline c)) l = true) ls ->
  splitBy isNewline (join [ascii_of_nat 10] ls) = ls.
Proof.
  intros Hne H. induction H as [|x ls Hx Hls IH]; [contradiction|].
  cbn [join]. destruct ls as [|y ls].
  - now apply splitBy_no_sep.
  - cbn [app]. rewrite splitBy_app_sep by reflexivity.
    rewrite (splitBy_no_sep _ _ Hx), IH by discriminate. reflexivity.
Qed.

Lemma findLine_some (t : jstr) (ls : list jstr) (i k : nat) :
  findLine t ls i = Some k ->
  exists j, k = i + j /\ j < length ls /\
            includes (toLowerCase (nth j ls [])) t = true /\
            forall j', j' < j ->
                       includes (toLowerCase (nth j' ls [])) t = false.
Proof.
  revert i; induction ls as [|l ls IH]; intros i; cbn [findLine];
    [discriminate|].
  destruct (includes (toLowerCase l) t) eqn:E.
  - intros [= <-]. exists 0. cbn [nth length].
    split; [lia|split; [lia|split; [assumption|intros j' Hj'; lia]]].
  - intros H. destruct (IH _ H) as (j & -> & Hlt & Hj & Hbefore).
    exists (S j). cbn [nth length].
    split; [lia|split; [lia|split; [assumption|]]].
    intros [|j'] Hj'; [assumption|]. apply Hbefore. lia.
Qed.

Lemma findLine_none (t : jstr) (ls : list jstr) (i : nat) :
  findLine t ls i = None <->
  existsb (fun l => includes (toLowerCase l) t) ls = false.
Proof.
  revert i; induction ls as [|l ls IH]; intros i; cbn [findLine existsb];
    [tauto|].
  destruct (includes (toLowerCase l) t); cbn [orb]; [split; discriminate|].
  apply IH.
Qed.

Lemma slice_member (A : Type) (first last i : nat) (l : list A) (x : A) :
  first <= i -> i < last -> nth_error l i = Some x ->
  In x (slice first last l).
Proof.
  intros H1 H2 Hx. unfold slice.
  apply nth_error_In with (n := i - first).
  rewrite nth_error_firstn, nth_error_skipn.
  replace (first + (i - first)) with i by lia.
  destruct (Nat.ltb_spec (i - first) (last - first)); [assumption|lia].
Qed.

Lemma slice_length (A : Type) (first last : nat) (l : list A) :
  length (slice first last l) <= last - first.
Proof. unfold slice. rewrite length_firstn. lia. Qed.

Lemma slice_Forall (A : Type) (P : A -> Prop) (first last : nat) (l : list A) :
  Forall P l -> Forall P (slice first last l).
Proof.
  intros H. rewrite Forall_forall in *. intros x Hx. apply H.
  unfold slice in Hx. apply QueryFacts.firstn_In in Hx.
  rewrite <- (firstn_skipn first l). apply in_or_app; now right.
Qed.

Lemma countLines_join (ls : list jstr) :
  Forall (fun l => forallb (fun c => negb (isNewline c)) l = true) ls ->
  countLines (join [ascii_of_nat 10] ls) = Nat.max 1 (length ls).
Proof.
  intros H. destruct ls as [|x ls]; [reflexivity|].
  unfold countLines. change (fun c => code c =? 10) with isNewline.
  rewrite split_join_lines by (assumption || discriminate).
  cbn [length]. lia.
Qed.

Lemma line_number_facts (text term : jstr) (contextLines : nat) :
  let n := fst (createSnippet text term contextLines) in
  1 <= n <= countLines text /\
  (existsb (lineHas term) (linesOf text) = true ->
   lineHas term (nth (n - 1) (linesOf text) []) = true /\
   forall j, j < n - 1 -> lineHas term (nth j (linesOf text) []) = false) /\
  (existsb (lineHas term) (linesOf text) = false -> n = 1).
Proof.
  unfold createSnippet, countLines, linesOf, lineHas.
  change (fun c => code c =? 10) with isNewline.
  pose proof (splitBy_not_nil isNewline text) as Hne.
  destruct (findLine (toLowerCase term) (splitBy isNewline text) 0)
    as [k|] eqn:Hfind; cbn [fst].
  - destruct (findLine_some _ _ _ Hfind) as (j & -> & Hlt & Hj & Hbefore).
    cbn [Nat.add]. replace (j + 1 - 1) with j by lia.
    split; [lia|]. split; [auto|].
    intros Hnone. apply findLine_none with (i := 0) in Hnone. congruence.
  - split.
    + destruct (splitBy isNewline text); [contradiction|cbn [length]; lia].
    + split; [|reflexivity].
      intros Hsome. apply (findLine_none _ _ 0) in Hfind.
      unfold lineHas in *. congruence.
Qed.

(** X4. The line number of a snippet lies within the text.  When some line
    contains the term, whatever the case, it is the number of the first
    such line; otherwise it is 1. *)
Theorem createSnippet_line_number (text term : jstr) (contextLines : nat) :
  let n := fst (createSnippet text term contextLines) in
  1 <= n <= countLines text /\
  (existsb (lineHas term) (linesOf text) = true ->
   lineHas term (nth (n - 1) (linesOf text) []) = true /\
   forall j, j < n - 1 -> lineHas term (nth j (linesOf text) []) = false) /\
  (existsb (lineHas term) (linesOf text) = false -> n = 1).
Proof. apply line_number_facts. Qed.

Lemma snippet_facts (text term : jstr) (contextLines : nat) :
  let sn := snd (createSnippet text term contextLines) in
  (existsb (lineHas term) (linesOf text) = true ->
   lineHas term sn = true /\ countLines sn <= 2 * contextLines + 1) /\
  (existsb (lineHas term) (linesOf text) = false ->
   sn = join [ascii_of_nat 10] (firstn 5 (linesOf text)) /\
   countLines sn <= 5) /\
  countLines sn <= countLines text.
Proof.
  unfold createSnippet, linesOf, lineHas.
  pose proof (splitBy_not_nil isNewline text) as Hne.
  pose proof (splitBy_segments isNewline text) as Hseg.
  assert (Hlen : countLines text = length (splitBy isNewline text))
    by reflexivity.
  set (ls := splitBy isNewline text) in *.
  assert (Hcount : forall first last,
            countLines (join [ascii_of_nat 10] (slice first last ls)) =
            Nat.max 1 (length (slice first last ls))).
  { intros. apply countLines_join. now apply slice_Forall. }
  assert (Hsub : forall first last, length (slice first last ls) <= length ls).
  { intros. unfold slice. rewrite length_firstn, length_skipn. lia. }
  assert (Hpos : 1 <= length ls) by (destruct ls; [contradiction|cbn; lia]).
  destruct (findLine (toLowerCase term) ls 0) as [k|] eqn:Hfind; cbn [snd].
  - destruct (findLine_some _ _ _ Hfind) as (j & -> & Hlt & Hj & _).
    cbn [Nat.add]. split; [intros _; split|split].
    + rewrite toLowerCase_join.
      apply includes_join with (l := toLowerCase (nth j ls [])); [|assumption].
      apply in_map. apply slice_member with (i := j); try lia.
      now apply nth_error_nth'.
    + rewrite Hcount. pose proof (slice_length
        (Nat.max 0 (j - contextLines))
        (Nat.min (length ls) (j + contextLines + 1)) ls). lia.
    + intros Hnone. apply findLine_none with (i := 0) in Hnone. congruence.
    + rewrite Hcount, Hlen. pose proof (Hsub (Nat.max 0 (j - contextLines))
        (Nat.min (length ls) (j + contextLines + 1))). lia.
  - apply (findLine_none _ _ 0) in Hfind. split; [|split].
    + intros Hsome. congruence.
    + intros _. split; [reflexivity|].
      rewrite Hcount. pose proof (slice_length 0 5 ls). lia.
    + rewrite Hcount, Hlen. pose proof (Hsub 0 5). lia.
Qed.

(** X5. The snippet around a match contains the term, whatever the case, and
    has at most [2 * contextLines + 1] lines; without a match it is the
    first five lines of the text at most.  It never has more lines than the
    text. *)
Theorem createSnippet_snippet (text term : jstr) (contextLines : nat) :
  let sn := snd (createSnippet text term contextLines) in
  (existsb (lineHas term) (linesOf text) = true ->
   lineHas term sn = true /\ countLines sn <= 2 * contextLines + 1) /\
  (existsb (lineHas term) (linesOf text) = false ->
   sn = join [ascii_of_nat 10] (firstn 5 (linesOf text)) /\
   countLines sn <= 5) /\
  countLines sn <= countLines text.
Proof. apply snippet_facts. Qed.

End SnippetFacts.

(* ------------------------------------------------------------------------- *)
(** ** Keyword extraction on every text *)

Module KeywordsMore.

Import KeywordsFacts.

Lemma insertIndex_perm (V : Type) (x : jstr * V) (l : obj V) :
  Permutation (x :: l) (insertIndex x l).
Proof.
  induction l as [|z l IH]; simpl; [reflexivity|].
  destruct (digitsValue (fst x) <=? digitsValue (fst z))%N; [reflexivity|].
  rewrite perm_swap. now constructor.
Qed.

Lemma sortIndex_perm (V : Type) (l : obj V) : Permutation l (sortIndex l).
Proof.
  induction l as [|x l IH]; simpl; [reflexivity|].
  rewrite <- insertIndex_perm. now constructor.
Qed.

Lemma filter_partition_perm (A : Type) (p : A -> bool) (l : list A) :
  Permutation (filter p l ++ filter (fun x => negb (p x)) l) l.
Proof.
  induction l as [|x l IH]; simpl; [reflexivity|].
  destruct (p x); simpl.
  - now constructor.
  - rewrite <- Permutation_middle. now constructor.
Qed.

(** The enumeration of an object is a rearrangement of its properties. *)
Lemma entries_perm (V : Type) (o : obj V) : Permutation (entries o) o.
Proof.
  unfold entries. rewrite <- sortIndex_perm. apply filter_partition_perm.
Qed.

Lemma frequency_positive (w : jstr) (ws : list jstr) :
  In w ws -> (1 <= frequency w ws)%N.
Proof.
  induction ws as [|x r IH]; [intros []|]. cbn [frequency].
  intros [->|Hin].
  - rewrite jstr_eqb_refl. lia.
  - specialize (IH Hin). lia.
Qed.

Lemma insertDesc_by_count (x : jstr * N) (l : list (jstr * N)) :
  StronglySorted (fun a b => (snd b <= snd a)%N) l ->
  StronglySorted (fun a b => (snd b <= snd a)%N) (insertDesc x l).
Proof.
  induction 1 as [|y l Hs IH Hy]; simpl.
  - constructor; constructor.
  - destruct (snd y <=? snd x)%N eqn:E.
    + apply N.leb_le in E. constructor; [now constructor|].
      constructor; [assumption|].
      rewrite Forall_forall in *. intros z Hz. specialize (Hy z Hz). lia.
    + apply N.leb_gt in E. constructor; [assumption|].
      rewrite Forall_forall in *. intros z Hz.
      apply insertDesc_In in Hz as [->|Hz]; [lia|auto].
Qed.

Lemma sortDesc_by_count (l : list (jstr * N)) :
  StronglySorted (fun a b => (snd b <= snd a)%N) (sortDesc l).
Proof.
  induction l as [|x l IH]; simpl; [constructor|].
  now apply insertDesc_by_count.
Qed.

(** What lies beyond the first [n] entries of a sorted list is no larger
    than what lies within. *)
Lemma firstn_dominates (n : nat) (l : list (jstr * N)) (a b : jstr * N) :
  StronglySorted (fun a b => (snd b <= snd a)%N) l ->
  In a (firstn n l) -> In b (skipn n l) -> (snd b <= snd a)%N.
Proof.
  intros Hs; revert n. induction Hs as [|x l Hs IH Hx]; intros [|n];
    cbn [firstn skipn]; try (intros []; fail).
  intros [<-|Ha] Hb.
  - rewrite Forall_forall in Hx. apply Hx.
    rewrite <- (firstn_skipn n l). apply in_or_app; now right.
  - eauto.
Qed.

Lemma skipn_nonempty_length (A : Type) (n : nat) (l : list A) (x : A) :
  In x (skipn n l) -> length (firstn n l) = n.
Proof.
  intros Hin. rewrite length_firstn.
  destruct (Nat.le_gt_cases (length l) n) as [Hle|Hgt]; [|lia].
  rewrite skipn_all2 in Hin by assumption. destruct Hin.
Qed.

(** X6. For every text without the word [constructor], [extractKeywords]
    returns at most 20 distinct keywords.  Each is a word of the text,
    longer than three code units, made of lower-case letters and digits and
    not a stop word, and it carries the number of its occurrences.  A word
    of the text that is not a stop word is left out only when 20 keywords
    are kept, none of them less frequent. *)
Theorem extractKeywords_sound (text : jstr) :
  existsb (jstr_eqb (str "constructor")) (words text) = false ->
  exists kws,
    extractKeywords text = Some kws /\
    length (entries kws) <= 20 /\
    NoDup (keys kws) /\
    (forall w n, In (w, n) (entries kws) ->
       n = frequency w (words text) /\ (1 <= n)%N /\
       In w (words text) /\ isStopWord w = false /\
       3 < length w /\ forallb alnum w = true) /\
    (forall w, In w (words text) -> isStopWord w = false ->
       ~ In w (keys kws) ->
       length (entries kws) = 20 /\
       forall w' n', In (w', n') (entries kws) ->
                     (frequency w (words text) <= n')%N).
Proof.
  intros Hno.
  assert (Hproto : Forall (fun w => isProtoKey w = false) (words text)).
  { apply Forall_forall. intros w Hw.
    destruct (isProtoKey w) eqn:E; [|reflexivity].
    apply protoKey_word in E; [|now apply words_alnum with text]. subst w.
    apply existsb_keys in Hw. congruence. }
  set (ws := words text) in *.
  set (pool := sortDesc (filter (fun e => negb (isStopWord (fst e)))
                                (entries (tally ws)))).
  assert (Hcount : countWords ws [] = Some (tally ws)).
  { rewrite countWords_spec; [|constructor|assumption]. now rewrite fresh_nil. }
  assert (Hpool : forall kv, In kv pool <->
            In kv (tally ws) /\ isStopWord (fst kv) = false).
  { intros kv. unfold pool. split.
    - intros H. eapply Permutation_in in H; [|symmetry; apply sortDesc_perm].
      apply filter_In in H as [H1 H2]. rewrite StoreFacts.entries_In in H1.
      apply negb_true_iff in H2. auto.
    - intros [H1 H2]. eapply Permutation_in; [apply sortDesc_perm|].
      apply filter_In. rewrite StoreFacts.entries_In, H2. auto. }
  assert (Hnd : NoDup (keys pool)).
  { unfold pool. eapply Permutation_NoDup;
      [apply Permutation_map, sortDesc_perm|].
    apply NoDup_keys_filter.
    eapply Permutation_NoDup;
      [apply Permutation_map; symmetry; apply entries_perm|].
    apply tally_NoDup. }
  assert (Hobj : fromEntries (firstn 20 pool) = firstn 20 pool).
  { unfold fromEntries. rewrite fromEntriesInto_distinct; [reflexivity|].
    cbn [keys map app]. now apply NoDup_keys_firstn. }
  assert (Hkept : forall kv, In kv (entries (firstn 20 pool)) ->
            In kv (firstn 20 pool)).
  { intros kv. now rewrite StoreFacts.entries_In. }
  assert (Hlen : length (entries (firstn 20 pool)) = length (firstn 20 pool)).
  { apply Permutation_length, entries_perm. }
  exists (firstn 20 pool).
  split; [unfold extractKeywords, extractKeywordsMax; fold ws;
          rewrite Hcount; fold pool; now rewrite Hobj|].
  split; [rewrite Hlen; apply firstn_le_length|].
  split; [now apply NoDup_keys_firstn|].
  split.
  - intros w n Hin. apply Hkept, QueryFacts.firstn_In, Hpool in Hin.
    destruct Hin as [Hin Hstop]. apply tally_In in Hin as [-> Hw].
    split; [reflexivity|]. split; [now apply frequency_positive|].
    split; [assumption|]. split; [assumption|].
    split; [|now apply words_alnum with text].
    unfold ws, words in Hw. apply filter_In in Hw as [_ Hw].
    now apply Nat.ltb_lt.
  - intros w Hw Hstop Hout.
    assert (Hin : In (w, frequency w ws) pool).
    { apply Hpool. split; [|assumption].
      clear -Hw. induction ws as [|x r IH]; [destruct Hw|]. cbn [tally].
      destruct (list_eq_dec ascii_dec x w) as [->|Hne].
      - left. now rewrite frequency_cons_same.
      - right. apply In_delete. cbn [fst]. split; [|congruence].
        rewrite frequency_cons_other by congruence.
        apply IH. destruct Hw; congruence. }
    rewrite <- (firstn_skipn 20 pool) in Hin.
    apply in_app_or in Hin as [Hin|Hin].
    { exfalso. apply Hout. change w with (fst (w, frequency w ws)).
      now apply in_map. }
    split; [rewrite Hlen; eapply skipn_nonempty_length; eauto|].
    intros w' n' Hin'. apply Hkept in Hin'.
    apply (@firstn_dominates 20 pool (w', n') (w, frequency w ws)
             (sortDesc_by_count _) Hin' Hin).
Qed.

Lemma extractKeywords_sound_witness :
  exists kws,
    extractKeywords (str "zeta 2024 zeta that") = Some kws /\
    length (entries kws) <= 20.
Proof.
  destruct (extractKeywords_sound (str "zeta 2024 zeta that") eq_refl)
    as (kws & H1 & H2 & _).
  exists kws. split; assumption.
Defined.

End KeywordsMore.

(* ------------------------------------------------------------------------- *)
(** ** Directory walk *)

Module WalkFacts.

Section Join.
Variable path_join : jstr -> jstr -> jstr.

Lemma listed_cons (dir : jstr) (e : node) (es : list node) (p : jstr) :
  listed path_join dir (e :: es) p <->
  listed path_join dir [e] p \/ listed path_join dir es p.
Proof.
  split.
  - intros H. inversion H as [? ? name Hin|? ? name sub ? Hin Hs Hsub]; subst.
    + destruct Hin as [->|Hin].
      * left. constructor. now left.
      * right. now constructor.
    + destruct Hin as [->|Hin].
      * left. eapply listed_below; eauto. now left.
      * right. eapply listed_below; eauto.
  - intros [H|H].
    + inversion H as [? ? name Hin|? ? name sub ? Hin Hs Hsub]; subst.
      * destruct Hin as [->|[]]. constructor. now left.
      * destruct Hin as [->|[]]. eapply listed_below; eauto. now left.
    + inversion H as [? ? name Hin|? ? name sub ? Hin Hs Hsub]; subst.
      * constructor. now right.
      * eapply listed_below; eauto. now right.
Qed.

Lemma listed_nil (dir p : jstr) : ~ listed path_join dir [] p.
Proof. intros H. inversion H; subst; contradiction. Qed.

Ltac sole_entry H :=
  destruct H as [H|[]]; inversion H; subst; clear H.

Lemma listed_single_file (dir name p : jstr) :
  listed path_join dir [FileNode name] p <-> p = path_join dir name.
Proof.
  split.
  - intros H. inversion H as [? ? name' Hin|? ? name' sub ? Hin]; subst;
      sole_entry Hin. reflexivity.
  - intros ->. constructor. now left.
Qed.

Lemma listed_single_dir (dir name p : jstr) (es : list node) :
  listed path_join dir [DirNode name (Some es)] p <->
  skipped name = false /\ listed path_join (path_join dir name) es p.
Proof.
  split.
  - intros H. inversion H as [? ? name' Hin|? ? name' sub ? Hin Hs Hsub];
      subst; sole_entry Hin. auto.
  - intros [Hs H]. eapply listed_below; eauto. now left.
Qed.

Lemma listed_single_unreadable (dir name p : jstr) :
  ~ listed path_join dir [DirNode name None] p.
Proof.
  intros H. inversion H as [? ? name' Hin|? ? name' sub ? Hin]; subst;
    sole_entry Hin.
Qed.

Lemma listed_single_other (dir name p : jstr) :
  ~ listed path_join dir [OtherNode name] p.
Proof.
  intros H. inversion H as [? ? name' Hin|? ? name' sub ? Hin]; subst;
    sole_entry Hin.
Qed.

Lemma visit_In_bounded :
  forall (k : nat) (n : node), depthSum n <= k ->
  forall (dir : jstr) (files : list jstr) (p : jstr),
    In p (visit path_join dir n files) <->
    In p files \/ listed path_join dir [n] p.
Proof.
  assert (Hleaf : forall n dir files p,
            (forall name es, n = DirNode name (Some es) ->
                             skipped name = true) ->
            In p (visit path_join dir n files) <->
            In p files \/ listed path_join dir [n] p).
  { intros [name|name [es|]|name] dir files p Hdir; cbn [visit].
    - rewrite in_app_iff, listed_single_file. cbn [In]. intuition congruence.
    - rewrite (Hdir name es eq_refl), listed_single_dir.
      rewrite (Hdir name es eq_refl). intuition congruence.
    - pose proof (@listed_single_unreadable dir name p).
      destruct (skipped name); tauto.
    - pose proof (@listed_single_other dir name p). tauto. }
  induction k as [|k IHk]; intros n Hk dir files p;
    destruct n as [name|name [es|]|name];
    try (apply Hleaf; discriminate);
    try (cbn [depthSum] in Hk; lia).
  destruct (skipped name) eqn:Hskip.
  - apply Hleaf. intros name' sub [= <- <-]. assumption.
  - cbn [depthSum] in Hk. apply le_S_n in Hk. cbn [visit]. rewrite Hskip.
    assert (Hall : forall es' files',
              (fix total (es : list node) : nat :=
                 match es with
                 | [] => 0
                 | e :: r => depthSum e + total r
                 end) es' <= k ->
              (In p ((fix each (es : list node) (files : list jstr)
                        : list jstr :=
                        match es with
                        | [] => files
                        | e :: r =>
                            each r (visit path_join (path_join dir name)
                                          e files)
                        end) es' files') <->
               In p files' \/
               listed path_join (path_join dir name) es' p)).
    { induction es' as [|e r IHr]; intros files' Hle.
      - split; [now left|]. intros [H|H]; [assumption|].
        now apply listed_nil in H.
      - rewrite IHr by lia. rewrite (IHk e) by lia.
        rewrite (listed_cons (path_join dir name) e r). tauto. }
    rewrite (Hall es files Hk), listed_single_dir. tauto.
Qed.

Lemma visit_In (n : node) (dir : jstr) (files : list jstr) (p : jstr) :
  In p (visit path_join dir n files) <->
  In p files \/ listed path_join dir [n] p.
Proof. now apply visit_In_bounded with (k := depthSum n). Qed.

Lemma visitAll_In (dir : jstr) (es : list node) (files : list jstr)
  (p : jstr) :
  In p (visitAll path_join dir es files) <->
  In p files \/ listed path_join dir es p.
Proof.
  unfold visitAll. revert files. induction es as [|e r IH]; intros files;
    cbn [fold_left].
  - split; [now left|]. intros [H|H]; [assumption|].
    now apply listed_nil in H.
  - rewrite IH, visit_In, (listed_cons dir e r). tauto.
Qed.

(** X7. [getFilesRecursive] returns exactly the files that can be reached from
    the directory through readable directories not called [.git] or
    [node_modules]; a directory that cannot be read contributes nothing,
    and a root that cannot be read gives the empty list. *)
Theorem getFilesRecursive_listed (dir : jstr) (es : list node) (p : jstr) :
  (In p (getFilesRecursive path_join dir (Some es)) <->
   listed path_join dir es p) /\
  getFilesRecursive path_join dir None = [].
Proof.
  split; [|reflexivity]. unfold getFilesRecursive.
  rewrite visitAll_In. cbn [In]. tauto.
Qed.

End Join.

End WalkFacts.

(* ------------------------------------------------------------------------- *)
(** ** Statistics *)

Module ReportFacts.

Lemma sizeOrZero_size (f : FileRecord) : sizeOrZero f = size f.
Proof.
  unfold sizeOrZero. destruct (size f =? 0)%Z eqn:E; [|reflexivity].
  apply Z.eqb_eq in E. now rewrite E.
Qed.

Section Sums.
Variable V : Type.
Variable cnt : V -> N.
Variable sz : V -> Z.

Lemma sumN_upsert_present (k : jstr) (e e' : V) (o : obj V) :
  ownGet k o = Some e ->
  (sumN (map (fun kv => cnt (snd kv)) (upsert k e' o)) + cnt e =
   sumN (map (fun kv => cnt (snd kv)) o) + cnt e')%N.
Proof.
  induction o as [|[k0 v0] o IH]; cbn [ownGet upsert]; [discriminate|].
  destruct (jstr_eqb k k0); cbn [map sumN fold_right snd].
  - intros [= ->]. lia.
  - intros H. specialize (IH H). unfold sumN in IH. lia.
Qed.

Lemma sumZ_upsert_present (k : jstr) (e e' : V) (o : obj V) :
  ownGet k o = Some e ->
  (sumZ (map (fun kv => sz (snd kv)) (upsert k e' o)) + sz e =
   sumZ (map (fun kv => sz (snd kv)) o) + sz e')%Z.
Proof.
  induction o as [|[k0 v0] o IH]; cbn [ownGet upsert]; [discriminate|].
  destruct (jstr_eqb k k0); cbn [map sumZ fold_right snd].
  - intros [= ->]. lia.
  - intros H. specialize (IH H). unfold sumZ in IH. lia.
Qed.

Lemma sumN_upsert_absent (k : jstr) (e' : V) (o : obj V) :
  ownGet k o = None ->
  sumN (map (fun kv => cnt (snd kv)) (upsert k e' o)) =
  (sumN (map (fun kv => cnt (snd kv)) o) + cnt e')%N.
Proof.
  induction o as [|[k0 v0] o IH]; cbn [ownGet upsert].
  - intros _. cbn. lia.
  - destruct (jstr_eqb k k0); [discriminate|].
    cbn [map sumN fold_right snd]. intros H. specialize (IH H).
    unfold sumN in IH. lia.
Qed.

Lemma sumZ_upsert_absent (k : jstr) (e' : V) (o : obj V) :
  ownGet k o = None ->
  sumZ (map (fun kv => sz (snd kv)) (upsert k e' o)) =
  (sumZ (map (fun kv => sz (snd kv)) o) + sz e')%Z.
Proof.
  induction o as [|[k0 v0] o IH]; cbn [ownGet upsert].
  - intros _. cbn. lia.
  - destruct (jstr_eqb k k0); [discriminate|].
    cbn [map sumZ fold_right snd]. intros H. specialize (IH H).
    unfold sumZ in IH. lia.
Qed.

Lemma NoDup_keys_upsert_any (k : jstr) (v : V) (o : obj V) :
  NoDup (keys o) -> NoDup (keys (upsert k v o)).
Proof.
  intros Hnd. destruct (in_dec (list_eq_dec ascii_dec) k (keys o)) as [Hin|Hni].
  - now rewrite keys_upsert_present.
  - rewrite upsert_absent by assumption. unfold keys in *.
    rewrite map_app. cbn [map fst]. apply NoDup_app; auto.
    + constructor; [intros []|constructor].
    + intros x Hx [<-|[]]. contradiction.
Qed.

End Sums.

Lemma sumZ_app (a b : list Z) : sumZ (a ++ b) = (sumZ a + sumZ b)%Z.
Proof.
  unfold sumZ. induction a as [|x a IH]; cbn [app fold_right]; lia.
Qed.

Lemma sumZ_perm (a b : list Z) : Permutation a b -> sumZ a = sumZ b.
Proof.
  induction 1; cbn [sumZ fold_right] in *; unfold sumZ in *; lia.
Qed.

Lemma sumN_perm (a b : list N) : Permutation a b -> sumN a = sumN b.
Proof.
  induction 1; cbn [sumN fold_right] in *; unfold sumN in *; lia.
Qed.

Lemma filter_perm (A : Type) (p : A -> bool) (a b : list A) :
  Permutation a b -> Permutation (filter p a) (filter p b).
Proof.
  induction 1 as [|x a b H IH|x y a|a b c H1 IH1 H2 IH2]; cbn [filter].
  - reflexivity.
  - destruct (p x); [now constructor|assumption].
  - destruct (p x), (p y); try reflexivity. apply perm_swap.
  - now transitivity (filter p b).
Qed.

Lemma withExtension_none (k : jstr) (by_ext : obj ExtensionStat)
  (done : list FileRecord) :
  (forall f, In f done -> ownGet (extension f) by_ext <> None) ->
  ownGet k by_ext = None -> withExtension k done = [].
Proof.
  intros Hall Hk. unfold withExtension.
  induction done as [|f done IH]; [reflexivity|]. cbn [filter].
  destruct (jstr_eqb (extension f) k) eqn:E.
  - apply jstr_eqb_eq in E. exfalso. apply (Hall f); [now left|].
    now rewrite E.
  - apply IH. intros f' Hf'. apply Hall. now right.
Qed.

Lemma counted_step (by_ext : obj ExtensionStat) (done : list FileRecord)
  (f : FileRecord) :
  counted by_ext done -> isProtoKey (extension f) = false ->
  exists by_ext',
    countExtension (Some by_ext) f = Some by_ext' /\
    counted by_ext' (f :: done).
Proof.
  intros (Hnd & Hown & Hcover & Hcnt & Hsz) Hproto.
  set (k := extension f) in *.
  assert (Hset : forall v, set k v by_ext = Some (upsert k v by_ext)).
  { intros v. unfold set. destruct (jstr_eqb k (str "__proto__")) eqn:E;
      [|reflexivity].
    apply jstr_eqb_eq in E. rewrite E in Hproto. discriminate Hproto. }
  assert (Hother : forall k', k' <> k ->
            withExtension k' (f :: done) = withExtension k' done).
  { intros k' Hne. unfold withExtension. cbn [filter]. fold k.
    destruct (jstr_eqb k k') eqn:E; [|reflexivity].
    apply jstr_eqb_eq in E. congruence. }
  assert (Hsame : withExtension k (f :: done) = f :: withExtension k done).
  { unfold withExtension. cbn [filter]. fold k. now rewrite jstr_eqb_refl. }
  unfold countExtension, get. fold k. rewrite Hproto.
  destruct (ownGet k by_ext) as [e|] eqn:Hget.
  - destruct (Hown k e Hget) as (Hname & Hc & Hs & Hpos).
    eexists. split; [reflexivity|].
    split; [now apply NoDup_keys_upsert_any|].
    split; [|split; [|split]].
    + intros k' e'. destruct (list_eq_dec ascii_dec k k') as [<-|Hne].
      * rewrite ownGet_upsert_same. intros [= <-].
        cbn [ext_name ext_count ext_size].
        rewrite Hsame. cbn [length]. unfold sizeOf in *.
        cbn [map sumZ fold_right].
        rewrite sizeOrZero_size. unfold sumZ in *.
        repeat split; try assumption; lia.
      * rewrite ownGet_upsert_other by assumption.
        rewrite Hother by congruence. apply Hown.
    + intros f' [<-|Hf'].
      * fold k. rewrite ownGet_upsert_same. discriminate.
      * destruct (list_eq_dec ascii_dec k (extension f')) as [<-|Hne].
        -- rewrite ownGet_upsert_same. discriminate.
        -- rewrite ownGet_upsert_other by assumption. auto.
    + pose proof (sumN_upsert_present ext_count k
                    (mkExtensionStat (ext_name e) (ext_count e + 1)
                                     (ext_size e + sizeOrZero f))
                    by_ext Hget) as H.
      cbn [ext_count length] in *. lia.
    + pose proof (sumZ_upsert_present ext_size k
                    (mkExtensionStat (ext_name e) (ext_count e + 1)
                                     (ext_size e + sizeOrZero f))
                    by_ext Hget) as H.
      cbn [ext_size] in *. unfold sizeOf in *. cbn [map sumZ fold_right].
      rewrite sizeOrZero_size in H |- *. unfold sumZ in *. lia.
  - rewrite Hset. eexists. split; [reflexivity|].
    pose proof (withExtension_none k by_ext done Hcover Hget) as Hnone.
    split; [now apply NoDup_keys_upsert_any|].
    split; [|split; [|split]].
    + intros k' e'. destruct (list_eq_dec ascii_dec k k') as [<-|Hne].
      * rewrite ownGet_upsert_same. intros [= <-].
        cbn [ext_name ext_count ext_size].
        rewrite Hsame, Hnone. cbn. rewrite sizeOrZero_size.
        repeat split; try reflexivity; lia.
      * rewrite ownGet_upsert_other by assumption.
        rewrite Hother by congruence. apply Hown.
    + intros f' [<-|Hf'].
      * fold k. rewrite ownGet_upsert_same. discriminate.
      * destruct (list_eq_dec ascii_dec k (extension f')) as [<-|Hne].
        -- rewrite ownGet_upsert_same. discriminate.
        -- rewrite ownGet_upsert_other by assumption. auto.
    + rewrite (sumN_upsert_absent ext_count) by assumption.
      cbn [ext_count length]. lia.
    + rewrite (sumZ_upsert_absent ext_size) by assumption.
      cbn [ext_size]. unfold sizeOf in *. cbn [map sumZ fold_right].
      rewrite sizeOrZero_size. unfold sumZ in *. lia.
Qed.

Lemma counted_fold (fs : list FileRecord) :
  forall (by_ext : obj ExtensionStat) (done : list FileRecord),
    counted by_ext done ->
    Forall (fun f => isProtoKey (extension f) = false) fs ->
    exists by_ext',
      fold_left countExtension fs (Some by_ext) = Some by_ext' /\
      counted by_ext' (rev fs ++ done).
Proof.
  induction fs as [|f fs IH]; intros by_ext done Hc Hall.
  - exists by_ext. split; [reflexivity|assumption].
  - inversion Hall as [|? ? Hf Hfs]; subst.
    destruct (counted_step f Hc Hf) as (by1 & Hstep & Hc1).
    destruct (IH by1 (f :: done) Hc1 Hfs) as (by2 & Hfold & Hc2).
    exists by2. cbn [fold_left rev]. rewrite Hstep, <- app_assoc.
    split; assumption.
Qed.

Lemma counted_perm (by_ext : obj ExtensionStat) (a b : list FileRecord) :
  Permutation a b -> counted by_ext a -> counted by_ext b.
Proof.
  intros Hp (Hnd & Hown & Hcover & Hcnt & Hsz).
  assert (Hw : forall k, Permutation (withExtension k a) (withExtension k b))
    by (intros k; now apply filter_perm).
  split; [assumption|]. split; [|split; [|split]].
  - intros k e He. destruct (Hown k e He) as (H1 & H2 & H3 & H4).
    rewrite <- (Permutation_length (Hw k)).
    unfold sizeOf in *.
    rewrite <- (sumZ_perm (Permutation_map size (Hw k))). auto.
  - intros f Hf. apply Hcover. eapply Permutation_in; [symmetry|]; eauto.
  - now rewrite <- (Permutation_length Hp).
  - unfold sizeOf in *. now rewrite <- (sumZ_perm (Permutation_map size Hp)).
Qed.

Lemma total_fold (fs : list FileRecord) (a : Z) :
  fold_left (fun sum f => (sum + sizeOrZero f)%Z) fs a = (a + sizeOf fs)%Z.
Proof.
  revert a; induction fs as [|f fs IH]; intros a; cbn [fold_left].
  - unfold sizeOf. cbn. lia.
  - rewrite IH, sizeOrZero_size. unfold sizeOf, sumZ. cbn [map fold_right].
    lia.
Qed.

Lemma insertByCount_perm (x : ExtensionStat) (l : list ExtensionStat) :
  Permutation (x :: l) (insertByCount x l).
Proof.
  induction l as [|z l IH]; simpl; [reflexivity|].
  destruct (ext_count z <=? ext_count x)%N; [reflexivity|].
  rewrite perm_swap. now constructor.
Qed.

Lemma sortByCount_perm (l : list ExtensionStat) :
  Permutation l (sortByCount l).
Proof.
  induction l as [|x l IH]; simpl; [reflexivity|].
  rewrite <- insertByCount_perm. now constructor.
Qed.

Lemma insertByCount_sorted (x : ExtensionStat) (l : list ExtensionStat) :
  StronglySorted (fun a b => (ext_count b <= ext_count a)%N) l ->
  StronglySorted (fun a b => (ext_count b <= ext_count a)%N)
                 (insertByCount x l).
Proof.
  induction 1 as [|y l Hs IH Hy]; simpl.
  - constructor; constructor.
  - destruct (ext_count y <=? ext_count x)%N eqn:E.
    + apply N.leb_le in E. constructor; [now constructor|].
      constructor; [assumption|].
      rewrite Forall_forall in *. intros z Hz. specialize (Hy z Hz). lia.
    + apply N.leb_gt in E. constructor; [assumption|].
      rewrite Forall_forall in *. intros z Hz.
      eapply Permutation_in in Hz; [|symmetry; apply insertByCount_perm].
      destruct Hz as [<-|Hz]; [lia|auto].
Qed.

Lemma sortByCount_sorted (l : list ExtensionStat) :
  StronglySorted (fun a b => (ext_count b <= ext_count a)%N) (sortByCount l).
Proof.
  induction l as [|x l IH]; simpl; [constructor|].
  now apply insertByCount_sorted.
Qed.

(** X8. When no extension names a member of [Object.prototype], [getStats]
    reports the number of files and the sum of their sizes, and one entry
    per extension that occurs, each with the number and the total size of
    the files of that extension, in descending order of count; the counts
    add up to [fileCount] and the sizes to [totalSize]. *)
Theorem getStats_totals (ix : Indexer) :
  forallb (fun f => negb (isProtoKey (extension f))) (getAllFiles ix) = true ->
  exists st,
    getStats ix = Some st /\
    fileCount st = length (getAllFiles ix) /\
    totalSize st = sizeOf (getAllFiles ix) /\
    NoDup (map ext_name (byExtension st)) /\
    StronglySorted (fun a b => (ext_count b <= ext_count a)%N)
                   (byExtension st) /\
    (forall e, In e (byExtension st) ->
       ext_count e =
       N.of_nat (length (withExtension (ext_name e) (getAllFiles ix))) /\
       ext_size e = sizeOf (withExtension (ext_name e) (getAllFiles ix)) /\
       (1 <= ext_count e)%N) /\
    (forall f, In f (getAllFiles ix) ->
       exists e, In e (byExtension st) /\ ext_name e = extension f) /\
    sumN (map ext_count (byExtension st)) = N.of_nat (fileCount st) /\
    sumZ (map ext_size (byExtension st)) = totalSize st.
Proof.
  intros Hall. unfold getStats, getAllFiles in *. cbv zeta.
  set (fs := values (files (db ix))) in *.
  assert (Hproto : Forall (fun f => isProtoKey (extension f) = false) fs).
  { apply Forall_forall. intros f Hf. rewrite forallb_forall in Hall.
    apply negb_true_iff. auto. }
  assert (Hinit : counted [] []).
  { split; [constructor|]. split; [intros k e [=]|].
    split; [intros f []|]. split; reflexivity. }
  destruct (counted_fold Hinit Hproto) as (by_ext & Hfold & Hc).
  rewrite app_nil_r in Hc.
  apply (counted_perm (Permutation_sym (Permutation_rev fs))) in Hc.
  destruct Hc as (Hnd & Hown & Hcover & Hcnt & Hsz).
  assert (Hin : forall k e, In (k, e) by_ext -> ownGet k by_ext = Some e).
  { intros k e. now apply In_ownGet. }
  assert (Hperm : Permutation (sortByCount (values by_ext)) (map snd by_ext)).
  { rewrite <- sortByCount_perm. unfold values.
    apply Permutation_map, KeywordsMore.entries_perm. }
  assert (Hmem : forall e, In e (sortByCount (values by_ext)) <->
                           exists k, ownGet k by_ext = Some e).
  { intros e. split.
    - intros H. eapply Permutation_in in H; [|exact Hperm].
      apply in_map_iff in H as ([k e'] & <- & H). exists k. auto.
    - intros [k H]. eapply Permutation_in; [symmetry; exact Hperm|].
      apply ownGet_In in H. change e with (snd (k, e)). now apply in_map. }
  eexists. split; [rewrite Hfold; reflexivity|].
  cbn [fileCount totalSize byExtension].
  split; [reflexivity|]. split; [rewrite total_fold; lia|].
  split; [|split; [apply sortByCount_sorted|split; [|split; [|split]]]].
  - eapply Permutation_NoDup;
      [symmetry; apply Permutation_map; exact Hperm|].
    rewrite map_map.
    replace (map (fun kv => ext_name (snd kv)) by_ext) with (keys by_ext);
      [assumption|].
    unfold keys. apply map_ext_in. intros [k e] Hke. cbn [fst snd].
    symmetry. apply (Hown k e). auto.
  - intros e He. apply Hmem in He as [k He].
    destruct (Hown k e He) as (<- & H2 & H3 & H4). auto.
  - intros f Hf. specialize (Hcover f Hf).
    destruct (ownGet (extension f) by_ext) as [e|] eqn:He; [|congruence].
    exists e. split; [apply Hmem; eauto|]. apply (Hown _ _ He).
  - rewrite (sumN_perm (Permutation_map ext_count Hperm)), map_map. exact Hcnt.
  - rewrite (sumZ_perm (Permutation_map ext_size Hperm)), map_map.
    rewrite total_fold, Hsz. lia.
Qed.

Lemma getStats_totals_witness :
  exists st,
    getStats (mkIndexer scoreboard []) = Some st /\
    fileCount st = 3.
Proof.
  destruct (getStats_totals (mkIndexer scoreboard []) eq_refl)
    as (st & H1 & H2 & _).
  exists st. split; assumption.
Defined.

End ReportFacts.

(* ------------------------------------------------------------------------- *)
(** ** The store under sequences of operations *)

Module HistoryFacts.

Section Dict.
Variable V : Type.

Lemma keys_upsert (k : jstr) (v : V) (o : obj V) :
  keys (upsert k v o) =
  if existsb (jstr_eqb k) (keys o) then keys o else keys o ++ [k].
Proof.
  destruct (existsb (jstr_eqb k) (keys o)) eqn:E.
  - apply keys_upsert_present. now apply KeywordsFacts.existsb_keys.
  - rewrite upsert_absent.
    + unfold keys. now rewrite map_app.
    + intros Hin. apply KeywordsFacts.existsb_keys in Hin. congruence.
Qed.

Lemma keys_delete (k : jstr) (o : obj V) :
  keys (delete k o) = filter (fun k' => negb (jstr_eqb k k')) (keys o).
Proof.
  unfold keys, delete. induction o as [|[k' v] o IH]; [reflexivity|].
  cbn [filter map fst]. destruct (jstr_eqb k k'); cbn [negb map fst];
    now rewrite IH.
Qed.

Lemma Forall_upsert (P : jstr * V -> Prop) (k : jstr) (v : V) (o : obj V) :
  Forall P o -> P (k, v) -> Forall P (upsert k v o).
Proof.
  intros Ho Hkv. induction Ho as [|[k' v'] o Hx Ho IH]; cbn [upsert].
  - constructor; [assumption|constructor].
  - destruct (jstr_eqb k k'); constructor; assumption.
Qed.

Lemma Forall_delete (P : jstr * V -> Prop) (k : jstr) (o : obj V) :
  Forall P o -> Forall P (delete k o).
Proof.
  intros Ho. apply Forall_forall. intros kv Hin.
  apply In_delete in Hin as [Hin _]. rewrite Forall_forall in Ho. auto.
Qed.


Lemma set_upsert (k : jstr) (v : V) (o o' : obj V) :
  set k v o = Some o' -> o' = upsert k v o /\ k <> str "__proto__".
Proof.
  unfold set. destruct (jstr_eqb k (str "__proto__")) eqn:E; [discriminate|].
  apply jstr_eqb_neq in E. intros [= <-]. auto.
Qed.

End Dict.





Lemma removeFile_consistent (env : Env) (filePath projectPath : jstr)
  (ix : Indexer) :
  consistent (db ix) ->
  consistent (db (fst (removeFile env filePath projectPath ix))).
Proof.
  intros (Hnd & Hkeys & Hpath). unfold removeFile.
  assert (Hdb : forall (b : bool) (ix0 : Indexer),
            db (if b then saveDatabase ix0 else ix0) = db ix0)
    by (intros [|] ?; reflexivity).
  cbn [fst]. rewrite Hdb. unfold consistent. cbn [db files keywords].
  split; [rewrite keys_delete; now apply NoDup_filter|].
  split; [now rewrite !keys_delete, Hkeys|].
  now apply Forall_delete.
Qed.

End HistoryFacts.

(* ------------------------------------------------------------------------- *)
(** ** What [indexFile], [removeFile] and [clear] leave behind *)

Module StoreMore.

Import HistoryFacts.



(** X11. When [indexFile] reports [unchanged] or [error], the indexer is as it
    was.  [unchanged] is only reported for a record of the path whose hash
    is the hash of the content; [error] only when reading the content or
    the stats failed, with the message of that failure. *)
Theorem indexFile_untouched (env : Env) (filePath projectPath : jstr)
  (ix ix' : Indexer) (res : IndexResult) :
  indexFile env filePath projectPath ix = Some (ix', res) ->
  (forall path sz, res <> Indexed path sz) ->
  ix' = ix /\
  match res with
  | Unchanged path =>
      path = getRelativePath env projectPath filePath /\
      exists text r,
        readFileSync env filePath = inl text /\
        ownGet path (files (db ix)) = Some r /\
        hash r = getHash env text
  | Error path message =>
      path = filePath /\
      (readFileSync env filePath = inr message \/
       (exists text, readFileSync env filePath = inl text) /\
       statSync env filePath = inr message)
  | Indexed _ _ => False
  end.
Proof.
  unfold indexFile, sameHash, get. intros H Hres.
  destruct (readFileSync env filePath) as [text|m] eqn:Hread.
  2:{ injection H as <- <-. auto. }
  destruct (statSync env filePath) as [stats|m] eqn:Hstat.
  2:{ injection H as <- <-. split; [reflexivity|]. split; [reflexivity|].
      right. eauto. }
  destruct (ownGet _ (files (db ix))) as [r|] eqn:Hown.
  - destruct (jstr_eqb (hash r) (getHash env text)) eqn:Hhash.
    + injection H as <- <-. apply jstr_eqb_eq in Hhash. eauto 8.
    + destruct (extractKeywords text); [|discriminate].
      destruct (set _ _ (files (db ix))); [|discriminate].
      destruct (set _ _ (keywords (db ix))); [|discriminate].
      injection H as _ <-. now destruct (Hres _ _ eq_refl).
  - assert (Hfalse : (match (if isProtoKey (getRelativePath env projectPath
                                                           filePath)
                             then Inherited else Absent) with
                      | Own r => jstr_eqb (hash r) (getHash env text)
                      | _ => false
                      end) = false) by (destruct (isProtoKey _); reflexivity).
    rewrite Hfalse in H.
    destruct (extractKeywords text); [|discriminate].
    destruct (set _ _ (files (db ix))); [|discriminate].
    destruct (set _ _ (keywords (db ix))); [|discriminate].
    injection H as _ <-. now destruct (Hres _ _ eq_refl).
Qed.

Lemma indexFile_untouched_witness :
  open brokenEnv Missing = open brokenEnv Missing /\
  str "/proj/a.js" = str "/proj/a.js" /\
  (readFileSync brokenEnv (str "/proj/a.js") =
   inr (str "ENOENT: no such file or directory") \/
   (exists text, readFileSync brokenEnv (str "/proj/a.js") = inl text) /\
   statSync brokenEnv (str "/proj/a.js") =
   inr (str "ENOENT: no such file or directory")).
Proof.
  apply (@indexFile_untouched brokenEnv (str "/proj/a.js") (str "/proj")
           (open brokenEnv Missing) (open brokenEnv Missing)
           (Error (str "/proj/a.js")
                  (str "ENOENT: no such file or directory"))).
  - reflexivity.
  - discriminate.
Defined.



(** X13. Removing the same path a second time finds nothing and writes nothing,
    unless the relative path names a member of [Object.prototype]. *)
Theorem removeFile_twice (env : Env) (filePath projectPath : jstr)
  (ix : Indexer) :
  isProtoKey (getRelativePath env projectPath filePath) = false ->
  removeFile env filePath projectPath
             (fst (removeFile env filePath projectPath ix)) =
  (fst (removeFile env filePath projectPath ix), false).
Proof.
  intros Hproto. apply StoreFacts.removeFile_absent.
  - unfold removeFile at 1. cbn [fst].
    assert (Hdb : forall (b : bool) (ix0 : Indexer),
              db (if b then saveDatabase ix0 else ix0) = db ix0)
      by (intros [|] ?; reflexivity).
    rewrite Hdb. cbn [db files]. unfold get.
    now rewrite ownGet_delete_same, Hproto.
  - unfold removeFile at 1. cbn [fst].
    assert (Hdb : forall (b : bool) (ix0 : Indexer),
              db (if b then saveDatabase ix0 else ix0) = db ix0)
      by (intros [|] ?; reflexivity).
    rewrite Hdb. cbn [db keywords]. apply ownGet_delete_same.
Qed.

Lemma removeFile_twice_witness :
  removeFile sampleEnv (str "/proj/c.txt") (str "/proj")
    (fst (removeFile sampleEnv (str "/proj/c.txt") (str "/proj")
                     (mkIndexer scoreboard []))) =
  (fst (removeFile sampleEnv (str "/proj/c.txt") (str "/proj")
                   (mkIndexer scoreboard [])), false).
Proof.
  apply (@removeFile_twice sampleEnv (str "/proj/c.txt") (str "/proj")
           (mkIndexer scoreboard [])).
  reflexivity.
Defined.

End StoreMore.

(* ------------------------------------------------------------------------- *)
(** ** More of the query engine *)

Module QueryMore.

Import QueryFacts.

Lemma wordGain_nonnegative (c p w : jstr) (s : jsnum) :
  nonnegative s -> nonnegative (wordGain c p s w).
Proof.
  unfold wordGain. destruct s as [q|]; cbn [nonnegative].
  - intros Hq. destruct (includes c w), (includes p w); cbn [jadd nonnegative];
      rewrite ?Qred_correct; lra.
  - intros _. destruct (includes c w), (includes p w); exact I.
Qed.

Lemma keywordTerm_range (n : N) :
  exists t, keywordTerm (ofN n) = Num t /\ (0 <= t)%Q /\ (t <= 0.3)%Q.
Proof.
  unfold ofN. destruct (keywordTerm_num (inject_Z (Z.of_N n))) as (t & Ht & E).
  exists t. split; [assumption|]. rewrite E.
  assert (H0 : (0 <= inject_Z (Z.of_N n))%Q).
  { change 0%Q with (inject_Z 0). rewrite <- Zle_Qle. lia. }
  generalize dependent (inject_Z (Z.of_N n)). intros x _ _ H0.
  unfold Qdiv. change (/ 5)%Q with (1 # 5)%Q.
  destruct (Q.min_spec x 5) as [[Hlt ->]|[Hle ->]]; lra.
Qed.

Lemma keywordGain_nonnegative (kws : obj N) (w : jstr) (s : jsnum) :
  nonnegative s -> nonnegative (keywordGain kws s w).
Proof.
  unfold keywordGain. intros Hs. destruct (get w kws) as [n| |].
  - destruct (n =? 0)%N; [assumption|].
    destruct (keywordTerm_range n) as (t & -> & H0 & _).
    destruct s as [q|]; cbn [jadd nonnegative] in *; [|exact I].
    rewrite Qred_correct. lra.
  - destruct s; exact I.
  - assumption.
Qed.

Lemma fold_nonnegative (f : jsnum -> jstr -> jsnum) (ws : list jstr)
  (s : jsnum) :
  (forall x w, nonnegative x -> nonnegative (f x w)) ->
  nonnegative s -> nonnegative (fold_left f ws s).
Proof.
  intros Hf. revert s; induction ws as [|w r IH]; intros s Hs; cbn [fold_left];
    auto.
Qed.

Lemma fileScore_nonnegative (kws : obj N) (queryLower path text : jstr) :
  nonnegative (fileScore kws queryLower path text).
Proof.
  unfold fileScore. apply fold_nonnegative.
  - intros x w. apply keywordGain_nonnegative.
  - apply fold_nonnegative.
    + intros x w. apply wordGain_nonnegative.
    + destruct (includes _ _); cbn [jadd nonnegative]; rewrite ?Qred_correct;
        lra.
Qed.

(** X15. The contribution of a keyword grows with its count up to 5, is the same
    from 5 on, and lies between 0 and 0.3. *)
Theorem keywordTerm_monotone (n m : N) :
  (n <= m)%N ->
  exists a b,
    keywordTerm (ofN n) = Num a /\ keywordTerm (ofN m) = Num b /\
    (0 <= a)%Q /\ (a <= b)%Q /\ (b <= 0.3)%Q /\
    ((5 <= n)%N -> (a == 0.3)%Q /\ (b == 0.3)%Q) /\
    ((n < m)%N -> (m <= 5)%N -> (a < b)%Q).
Proof.
  intros Hnm. unfold ofN.
  destruct (keywordTerm_num (inject_Z (Z.of_N n))) as (a & Ha & Ea).
  destruct (keywordTerm_num (inject_Z (Z.of_N m))) as (b & Hb & Eb).
  exists a, b. split; [assumption|]. split; [assumption|].
  assert (H0 : (0 <= inject_Z (Z.of_N n))%Q).
  { change 0%Q with (inject_Z 0). rewrite <- Zle_Qle. lia. }
  assert (Hle : (inject_Z (Z.of_N n) <= inject_Z (Z.of_N m))%Q).
  { rewrite <- Zle_Qle. lia. }
  assert (H5n : (5 <= n)%N -> (5 <= inject_Z (Z.of_N n))%Q).
  { intros H. change 5%Q with (inject_Z 5). rewrite <- Zle_Qle. lia. }
  assert (Hlt : (n < m)%N -> (inject_Z (Z.of_N n) < inject_Z (Z.of_N m))%Q).
  { intros H. rewrite <- Zlt_Qlt. lia. }
  assert (Hm5 : (m <= 5)%N -> (inject_Z (Z.of_N m) <= 5)%Q).
  { intros H. change 5%Q with (inject_Z 5). rewrite <- Zle_Qle. lia. }
  rewrite Ea, Eb. unfold Qdiv. change (/ 5)%Q with (1 # 5)%Q.
  destruct (Q.min_spec (inject_Z (Z.of_N n)) 5) as [[Hn ->]|[Hn ->]];
    destruct (Q.min_spec (inject_Z (Z.of_N m)) 5) as [[Hm ->]|[Hm ->]];
    repeat split; intros; try lra;
    repeat match goal with
           | H : (5 <= n)%N |- _ => apply H5n in H
           | H : (n < m)%N |- _ => apply Hlt in H
           | H : (m <= 5)%N |- _ => apply Hm5 in H
           end; lra.
Qed.

Lemma keywordTerm_monotone_witness :
  exists a b,
    keywordTerm (ofN 2) = Num a /\ keywordTerm (ofN 7) = Num b /\
    (a <= b)%Q.
Proof.
  destruct (@keywordTerm_monotone 2 7) as (a & b & H1 & H2 & _ & H4 & _).
  - discriminate.
  - exists a, b. auto.
Defined.

(** *** The fields of the results *)

Lemma collect_fields (d : Database) (query : jstr) (minS : jsnum)
  (es : list (jstr * FileRecord)) (rs : list Result) :
  collect d query minS es = Some rs ->
  (forall r, In r rs ->
     exists rec,
       In (filePath r, rec) es /\
       lineNumber r = fst (createSnippet (content rec) query 2) /\
       snippet r = snd (createSnippet (content rec) query 2) /\
       matchType r = str "content") /\
  (NoDup (map fst es) -> NoDup (map filePath rs)) /\
  length rs <= length es.
Proof.
  revert rs; induction es as [|[path rec] es IH]; intros rs; cbn [collect].
  - intros [= <-]. split; [intros r []|]. split; [constructor|]. cbn. lia.
  - destruct (histogramOf d path) as [kws|]; [|discriminate].
    destruct (collect d query minS es) as [rest|]; [|discriminate].
    destruct (IH rest eq_refl) as (Hfields & Hnd & Hlen).
    assert (Hold : forall r, In r rest ->
              exists rec0,
                In (filePath r, rec0) ((path, rec) :: es) /\
                lineNumber r = fst (createSnippet (content rec0) query 2) /\
                snippet r = snd (createSnippet (content rec0) query 2) /\
                matchType r = str "content").
    { intros r Hr. destruct (Hfields r Hr) as (rec0 & H1 & H2).
      exists rec0. split; [now right|assumption]. }
    destruct (jge _ minS); intros [= <-].
    + split; [|split].
      * intros r [<-|Hr]; [|auto]. cbn [filePath lineNumber snippet matchType].
        exists rec. split; [now left|auto].
      * intros Hno. cbn [map fst filePath] in *.
        inversion Hno as [|? ? Hni Hno']; subst. constructor; [|auto].
        intros Hin. apply Hni. apply in_map_iff in Hin as (r & <- & Hr).
        destruct (Hfields r Hr) as (rec0 & H1 & _).
        change (filePath r) with (fst (filePath r, rec0)). now apply in_map.
      * cbn [length]. lia.
    + split; [assumption|]. split.
      * intros Hno. inversion Hno; subst. auto.
      * cbn [length]. lia.
Qed.

Lemma insertResult_perm (x : Result) (l : list Result) :
  Permutation (x :: l) (insertResult x l).
Proof.
  induction l as [|z l IH]; simpl; [reflexivity|].
  destruct (jpositive _); [|reflexivity].
  rewrite perm_swap. now constructor.
Qed.

Lemma sortResults_perm (l : list Result) : Permutation l (sortResults l).
Proof.
  induction l as [|x l IH]; simpl; [reflexivity|].
  rewrite <- insertResult_perm. now constructor.
Qed.

(** X16. Every result of [search] carries a score between 0 and 1. *)
Theorem search_scores_in_range (cfg : SearchConfig) (d : Database)
  (query : jstr) (options : Options) :
  histograms_readable d = true ->
  exists rs,
    search cfg d query options = Some rs /\
    forall r, In r rs ->
      exists q, score r = Num q /\ (0 <= q)%Q /\ (q <= 1)%Q.
Proof.
  intros Hread.
  assert (Hall : Forall (fun kv => histogramOf d (fst kv) <> None)
                        (entries (files d))).
  { apply Forall_forall. intros kv Hin. rewrite StoreFacts.entries_In in Hin.
    unfold histograms_readable in Hread. rewrite forallb_forall in Hread.
    specialize (Hread kv Hin). destruct (histogramOf d (fst kv)); congruence. }
  destruct (collect_spec d query (minScoreOf cfg options) Hall)
    as (rs0 & Hcollect & Hrs0).
  exists (sliceTo (maxResultsOf cfg options) (sortResults rs0)).
  split; [unfold search; now rewrite Hcollect|].
  intros r Hr.
  destruct (sliceTo_prefix (maxResultsOf cfg options) (sortResults rs0))
    as [k Hk].
  rewrite Hk in Hr. apply firstn_In in Hr. rewrite sortResults_In in Hr.
  destruct (Hrs0 r Hr) as (rec & s & _ & (kws & _ & Hs) & Hge & Hscore).
  destruct (jge_num _ _ Hge) as [q ->].
  pose proof (fileScore_nonnegative kws (toLowerCase query) (filePath r)
                (content rec)) as Hnn.
  rewrite Hs in Hnn. cbn [nonnegative] in Hnn.
  exists (Qmin q 1). split; [rewrite Hscore; reflexivity|].
  destruct (Q.min_spec q 1) as [[Hlt ->]|[Hle ->]]; lra.
Qed.

Lemma search_scores_in_range_witness :
  exists rs,
    search defaultSearchConfig scoreboard (str "foo bar") noOptions
    = Some rs /\
    forall r, In r rs ->
      exists q, score r = Num q /\ (0 <= q)%Q /\ (q <= 1)%Q.
Proof.
  apply (@search_scores_in_range defaultSearchConfig scoreboard
           (str "foo bar") noOptions).
  reflexivity.
Defined.

(** X17. [search] reports every file at most once, never more results than
    there are files; each result is for a file of the store, with the line
    number [createSnippet] gives for the raw query (between 1 and the
    number of lines of the content), a snippet of at most five lines, and
    the match type [content]. *)
Theorem search_results_fields (cfg : SearchConfig) (d : Database)
  (query : jstr) (options : Options) :
  histograms_readable d = true ->
  distinct (keys (files d)) = true ->
  exists rs,
    search cfg d query options = Some rs /\
    NoDup (map filePath rs) /\
    length rs <= length (files d) /\
    forall r, In r rs ->
      exists rec,
        In (filePath r, rec) (files d) /\
        1 <= lineNumber r <= countLines (content rec) /\
        countLines (snippet r) <= 5 /\
        countLines (snippet r) <= countLines (content rec) /\
        matchType r = str "content".
Proof.
  intros Hread Hdist. apply distinct_NoDup in Hdist.
  assert (Hall : Forall (fun kv => histogramOf d (fst kv) <> None)
                        (entries (files d))).
  { apply Forall_forall. intros kv Hin. rewrite StoreFacts.entries_In in Hin.
    unfold histograms_readable in Hread. rewrite forallb_forall in Hread.
    specialize (Hread kv Hin). destruct (histogramOf d (fst kv)); congruence. }
  destruct (collect_spec d query (minScoreOf cfg options) Hall)
    as (rs0 & Hcollect & _).
  destruct (collect_fields _ _ _ _ Hcollect) as (Hfields & Hnd & Hlen).
  destruct (sliceTo_prefix (maxResultsOf cfg options) (sortResults rs0))
    as [k Hk].
  exists (sliceTo (maxResultsOf cfg options) (sortResults rs0)).
  split; [unfold search; now rewrite Hcollect|]. rewrite Hk.
  assert (Hent : Permutation (entries (files d)) (files d))
    by apply KeywordsMore.entries_perm.
  split; [|split].
  - assert (H : NoDup (map filePath (sortResults rs0))).
    { eapply Permutation_NoDup; [apply Permutation_map, sortResults_perm|].
      apply Hnd. eapply Permutation_NoDup;
        [apply Permutation_map; symmetry; exact Hent|exact Hdist]. }
    rewrite <- (firstn_skipn k (sortResults rs0)), map_app in H.
    now apply NoDup_app_remove_r in H.
  - rewrite length_firstn, <- (Permutation_length (sortResults_perm rs0)).
    rewrite <- (Permutation_length Hent). lia.
  - intros r Hr. apply firstn_In in Hr. rewrite sortResults_In in Hr.
    destruct (Hfields r Hr) as (rec & Hin & Hline & Hsnip & Htype).
    exists rec. rewrite StoreFacts.entries_In in Hin.
    split; [assumption|].
    pose proof (SnippetFacts.line_number_facts (content rec) query 2)
      as [Hn _].
    pose proof (SnippetFacts.snippet_facts (content rec) query 2)
      as (Hyes & Hno & Hle).
    cbv zeta in *. rewrite Hline, Hsnip.
    split; [assumption|]. split; [|split; assumption].
    destruct (existsb (lineHas query) (linesOf (content rec))) eqn:E.
    + destruct (Hyes eq_refl) as [_ H]. cbn in H. lia.
    + destruct (Hno eq_refl) as [_ H]. assumption.
Qed.

Lemma search_results_fields_witness :
  exists rs,
    search defaultSearchConfig scoreboard (str "foo bar") noOptions
    = Some rs /\
    NoDup (map filePath rs) /\
    length rs <= 3.
Proof.
  destruct (@search_results_fields defaultSearchConfig scoreboard
              (str "foo bar") noOptions eq_refl eq_refl)
    as (rs & H1 & H2 & H3 & _).
  exists rs. auto.
Defined.

End QueryMore.

(* ------------------------------------------------------------------------- *)
(** ** Prompt hook *)

Module HookFacts.

Import Hook.

Lemma clean_lower_class (c : ascii) :
  isSpace (clean (lowerChar c)) || termChar (clean (lowerChar c)) = true.
Proof. destruct c as [[] [] [] [] [] [] [] []]; reflexivity. Qed.

Lemma termChar_not_space (c : ascii) : termChar c = true -> isSpace c = false.
Proof.
  destruct c as [[] [] [] [] [] [] [] []]; intros H; try reflexivity;
    discriminate H.
Qed.

Lemma termChar_lower (c : ascii) : termChar c = true -> lowerChar c = c.
Proof.
  destruct c as [[] [] [] [] [] [] [] []]; intros H; try reflexivity;
    discriminate H.
Qed.

Lemma clean_kept (c : ascii) : isSpace (clean c) = false -> clean c = c.
Proof.
  unfold clean. destruct (isWordChar c || isSpace c); [reflexivity|].
  discriminate.
Qed.

(** *** Pieces of a split are parts of the string *)

Lemma includes_nil (s : jstr) : includes s [] = true.
Proof. destruct s; reflexivity. Qed.

Lemma includes_cons (c : ascii) (s w : jstr) :
  includes s w = true -> includes (c :: s) w = true.
Proof. intros H. cbn [includes]. rewrite H. apply orb_true_r. Qed.

Lemma splitRuns_not_nil (sep : ascii -> bool) (b : bool) (s : jstr) :
  splitRuns sep b s <> [].
Proof.
  revert b; induction s as [|c s IH]; intros b; simpl; [discriminate|].
  destruct (sep c).
  - destruct b; [apply IH|discriminate].
  - destruct (splitRuns sep false s); discriminate.
Qed.

Lemma splitRuns_head (sep : ascii -> bool) (s w : jstr) (ws : list jstr) :
  splitRuns sep false s = w :: ws -> startsWith s w = true.
Proof.
  revert w ws; induction s as [|c s IH]; intros w ws; simpl.
  - intros [= <- <-]. reflexivity.
  - destruct (sep c).
    + intros [= <- _]. reflexivity.
    + destruct (splitRuns sep false s) as [|w0 ws0] eqn:E.
      * now apply splitRuns_not_nil in E.
      * intros [= <- _]. cbn [startsWith]. rewrite ch_eqb_refl.
        now apply (IH w0 ws0).
Qed.

Lemma splitRuns_includes (sep : ascii -> bool) (b : bool) (s w : jstr) :
  In w (splitRuns sep b s) -> includes s w = true.
Proof.
  revert b w; induction s as [|c s IH]; intros b w; simpl.
  - intros [<-|[]]. reflexivity.
  - destruct (sep c).
    + destruct b.
      * intros H. apply IH in H. rewrite H. apply orb_true_r.
      * intros [<-|H]; [reflexivity|]. apply IH in H. rewrite H.
        apply orb_true_r.
    + destruct (splitRuns sep false s) as [|w0 ws0] eqn:E.
      * now apply splitRuns_not_nil in E.
      * intros [<-|H].
        -- cbn [startsWith]. rewrite ch_eqb_refl. cbn [andb].
           now rewrite (splitRuns_head _ _ E).
        -- rewrite (IH false w); [apply orb_true_r|].
           rewrite E. now right.
Qed.

Lemma startsWith_clean (s w : jstr) :
  forallb termChar w = true ->
  startsWith (map clean s) w = true -> startsWith s w = true.
Proof.
  revert s; induction w as [|a w IH]; intros s Hw; [reflexivity|].
  destruct s as [|c s]; cbn [map startsWith]; [discriminate|].
  cbn [forallb] in Hw. apply andb_true_iff in Hw as [Ha Hw].
  intros H. apply andb_true_iff in H as [Hc Hs].
  apply ch_eqb_eq in Hc. rewrite (IH s Hw Hs), andb_true_r.
  apply ch_eqb_eq. rewrite Hc. apply clean_kept. rewrite <- Hc.
  now apply termChar_not_space.
Qed.

Lemma includes_clean (s w : jstr) :
  forallb termChar w = true ->
  includes (map clean s) w = true -> includes s w = true.
Proof.
  intros Hw. induction s as [|c s IH]; cbn [map includes].
  - destruct w; [reflexivity|discriminate].
  - intros H. apply orb_true_iff in H as [H|H].
    + apply (@startsWith_clean (c :: s) w Hw) in H. now rewrite H.
    + rewrite (IH H). apply orb_true_r.
Qed.

Lemma pieces_termChar (input w : jstr) :
  In w (pieces input) -> forallb termChar w = true.
Proof.
  intros Hin.
  assert (H : Forall (fun w => forallb termChar w = true) (pieces input)).
  { apply KeywordsFacts.splitRuns_chars. rewrite forallb_forall.
    intros c Hc. apply in_map_iff in Hc as (c1 & <- & Hc1).
    apply in_map_iff in Hc1 as (c0 & <- & _). apply clean_lower_class. }
  rewrite Forall_forall in H. auto.
Qed.

(** *** The set *)

Lemma addAll_spec (ws seen : list jstr) :
  NoDup seen ->
  NoDup (addAll ws seen) /\
  forall w, In w (addAll ws seen) <-> In w seen \/ In w ws.
Proof.
  revert seen; induction ws as [|x ws IH]; intros seen Hnd; cbn [addAll].
  - split; [assumption|]. intros w. cbn. tauto.
  - destruct (existsb (jstr_eqb x) seen) eqn:E.
    + destruct (IH seen Hnd) as [H1 H2]. split; [assumption|].
      intros w. rewrite H2. cbn [In].
      apply KeywordsFacts.existsb_keys in E.
      split; [tauto|]. intros [H|[<-|H]]; auto.
    + assert (Hx : ~ In x seen).
      { intros H. apply KeywordsFacts.existsb_keys in H. congruence. }
      assert (Hnd' : NoDup (seen ++ [x])).
      { apply NoDup_app; [assumption|repeat constructor; intros []|].
        intros y Hy [<-|[]]. contradiction. }
      destruct (IH _ Hnd') as [H1 H2]. split; [assumption|].
      intros w. rewrite H2, in_app_iff. cbn [In]. tauto.
Qed.

(** A search term is longer than two code units and made of lower-case
    letters, digits and underscores. *)
Lemma terms_shape (input w : jstr) :
  In w (extractSearchTerms input) ->
  2 < length w /\ forallb termChar w = true.
Proof.
  unfold extractSearchTerms. intros Hw.
  destruct (addAll_spec (filter kept (pieces input)) (@NoDup_nil jstr))
    as [_ Hin].
  apply Hin in Hw as [[]|Hw]. apply filter_In in Hw as [Hp Hk].
  unfold kept in Hk. apply andb_true_iff in Hk as [Hlen _].
  apply Nat.ltb_lt in Hlen. split; [assumption|].
  now apply pieces_termChar with input.
Qed.

(** X18. The search terms of an input are distinct; each has more than two code
    units, all of them lower-case letters, digits or underscores, is no stop
    word and occurs in the input taken to lower case.  Of the pieces of the
    input only the short ones and the stop words are left out. *)
Theorem extractSearchTerms_terms (input : jstr) :
  NoDup (extractSearchTerms input) /\
  (forall w, In w (extractSearchTerms input) ->
     2 < length w /\ forallb termChar w = true /\ has w = false /\
     includes (toLowerCase input) w = true) /\
  (forall w, In w (pieces input) -> 2 < length w -> has w = false ->
     In w (extractSearchTerms input)).
Proof.
  unfold extractSearchTerms.
  destruct (addAll_spec (filter kept (pieces input)) (@NoDup_nil jstr))
    as [Hnd Hin].
  split; [assumption|]. split.
  - intros w Hw. apply Hin in Hw as [[]|Hw].
    apply filter_In in Hw as [Hp Hk]. unfold kept in Hk.
    apply andb_true_iff in Hk as [Hlen Hhas].
    apply Nat.ltb_lt in Hlen. apply negb_true_iff in Hhas.
    pose proof (pieces_termChar _ _ Hp) as Hchars.
    repeat split; try assumption.
    apply includes_clean; [assumption|].
    now apply splitRuns_includes with isSpace false.
  - intros w Hp Hlen Hhas. apply Hin. right. apply filter_In.
    split; [assumption|]. unfold kept.
    apply Nat.ltb_lt in Hlen. now rewrite Hlen, Hhas.
Qed.

(** *** Joining and splitting again *)

Lemma splitRuns_word (sep : ascii -> bool) (b : bool) (t : jstr) :
  forallb (fun c => negb (sep c)) t = true -> splitRuns sep b t = [t].
Proof.
  induction t as [|c t IH] in b |- *; cbn [forallb splitRuns];
    [reflexivity|].
  intros H. apply andb_true_iff in H as [Hc Ht].
  apply negb_true_iff in Hc. rewrite Hc.
  assert (IH' : splitRuns sep false t = [t]) by now apply IH.
  now rewrite IH'.
Qed.

Lemma splitRuns_app (sep : ascii -> bool) (t s : jstr) :
  forallb (fun c => negb (sep c)) t = true ->
  splitRuns sep false (t ++ s) =
  match splitRuns sep false s with
  | w :: ws => (t ++ w) :: ws
  | [] => [t]
  end.
Proof.
  induction t as [|c t IH]; cbn [forallb app].
  - intros _. destruct (splitRuns sep false s) as [|w ws] eqn:E;
      [now apply splitRuns_not_nil in E|reflexivity].
  - intros H. apply andb_true_iff in H as [Hc Ht].
    apply negb_true_iff in Hc. cbn [splitRuns]. rewrite Hc, (IH Ht).
    destruct (splitRuns sep false s); reflexivity.
Qed.

Lemma splitRuns_join (ts : list jstr) :
  ts <> [] ->
  Forall (fun t => t <> [] /\
                   forallb (fun c => negb (isSpace c)) t = true) ts ->
  splitRuns isSpace false (join [" "%char] ts) = ts.
Proof.
  intros Hne H. induction H as [|t r [Ht Hc] Hr IH]; [contradiction|].
  destruct r as [|t2 r].
  - cbn [join]. now apply splitRuns_word.
  - change (join [" "%char] (t :: t2 :: r))
      with (t ++ " "%char :: join [" "%char] (t2 :: r)).
    rewrite (splitRuns_app _ _ _ Hc).
    assert (IH' : splitRuns isSpace false (join [" "%char] (t2 :: r))
                  = t2 :: r) by (apply IH; discriminate).
    inversion Hr as [|? ? [Ht2 Hc2] _]; subst.
    assert (Hflag : splitRuns isSpace false
                      (" "%char :: join [" "%char] (t2 :: r))
                    = [] :: t2 :: r).
    { rewrite <- IH' at 2. destruct t2 as [|c t2]; [contradiction|].
      cbn [forallb] in Hc2. apply andb_true_iff in Hc2 as [Hc2 _].
      apply negb_true_iff in Hc2.
      destruct r; cbn [join app splitRuns]; rewrite Hc2; reflexivity. }
    rewrite Hflag, app_nil_r. reflexivity.
Qed.

(** X19. The query engine splits the query of the hook back into the search
    terms: the words [search] scores for [searchQuery input] are the terms
    of [extractSearchTerms input], in their order. *)
Theorem searchQuery_round_trip (input : jstr) :
  queryWords (toLowerCase (searchQuery input)) = extractSearchTerms input.
Proof.
  unfold searchQuery, queryWords.
  assert (Hall : Forall (fun t => 2 < length t /\
                                  forallb termChar t = true)
                        (extractSearchTerms input)).
  { apply Forall_forall. intros t Ht. now apply terms_shape with input. }
  set (ts := extractSearchTerms input) in *. clearbody ts.
  assert (Hlow : toLowerCase (join [" "%char] ts) = join [" "%char] ts).
  { rewrite SnippetFacts.toLowerCase_join.
    change (toLowerCase [" "%char]) with [" "%char]. f_equal.
    induction Hall as [|t r [_ Ht] _ IH]; [reflexivity|].
    cbn [map]. rewrite IH. f_equal.
    unfold toLowerCase. rewrite <- (map_id t) at 2. apply map_ext_in.
    intros c Hc. rewrite forallb_forall in Ht. apply termChar_lower; auto. }
  rewrite Hlow. destruct ts as [|t0 r0]; [reflexivity|].
  rewrite splitRuns_join; [|discriminate|].
  - apply JsObjectFacts.filter_all. rewrite Forall_forall in Hall.
    rewrite forallb_forall. intros t Ht.
    destruct (Hall t Ht) as [Hlen _]. now apply Nat.ltb_lt.
  - eapply Forall_impl; [|exact Hall]. cbn beta. intros t [Hlen Ht].
    split; [destruct t; [cbn in Hlen; lia|discriminate]|].
    rewrite forallb_forall in *. intros c Hc.
    now rewrite (termChar_not_space _ (Ht c Hc)).
Qed.

End HookFacts.

(* ------------------------------------------------------------------------- *)
(** ** File watcher *)

Module WatcherFacts.

Import Watcher.

Lemma replaceAllFrom_skip (pat rep : jstr) (k : nat) (s : jstr) :
  k <= length s ->
  replaceAllFrom pat rep k s = replaceAllFrom pat rep 0 (skipn k s).
Proof.
  revert k; induction s as [|c s IH]; intros k Hk.
  - destruct k; [reflexivity|cbn in Hk; lia].
  - destruct k as [|k]; [reflexivity|].
    cbn [replaceAllFrom skipn]. apply IH. cbn in Hk. lia.
Qed.

Lemma startsWith_prefix (s p : jstr) :
  startsWith s p = true -> s = p ++ skipn (length p) s.
Proof.
  revert s; induction p as [|a p IH]; intros s; [reflexivity|].
  destruct s as [|c s]; cbn [startsWith]; [discriminate|].
  intros H. apply andb_true_iff in H as [Ha Hp]. apply ch_eqb_eq in Ha.
  subst c. cbn [length skipn app]. f_equal. now apply IH.
Qed.

(** Replacing a text by itself changes nothing. *)
Lemma replaceAll_same (pat s : jstr) :
  pat <> [] -> replaceAll pat pat s = s.
Proof.
  intros Hpat. unfold replaceAll.
  induction s as [s IH] using (induction_ltof1 _ (@length ascii)).
  unfold ltof in IH. destruct s as [|c s]; [reflexivity|].
  cbn [replaceAllFrom].
  destruct (startsWith (c :: s) pat) eqn:E.
  - pose proof (startsWith_prefix _ _ E) as Hs.
    destruct pat as [|a pat]; [contradiction|].
    cbn [length skipn app] in Hs. injection Hs as Ha Hs.
    cbn [length]. replace (S (length pat) - 1) with (length pat) by lia.
    assert (Hlen : length pat <= length s).
    { rewrite Hs, length_app. lia. }
    rewrite replaceAllFrom_skip by assumption.
    rewrite IH.
    + subst a. cbn [app]. f_equal. now rewrite <- Hs.
    + cbn [length]. rewrite length_skipn. lia.
  - f_equal. apply IH. cbn [length]. lia.
Qed.

(** X20. The patterns handed to the file system watcher are the exclude patterns
    of the configuration as they are, followed by the three fixed ones: the
    replacement in [getIgnorePatterns] changes no pattern. *)
Theorem getIgnorePatterns_unchanged (config : ProjectConfig) :
  getIgnorePatterns config =
  exclude config ++ [str "**/.git/**"; str "**/node_modules/**";
                     str "**/.codebase-index/**"].
Proof.
  unfold getIgnorePatterns. f_equal.
  rewrite <- (map_id (exclude config)) at 2. apply map_ext.
  intros p. apply replaceAll_same. discriminate.
Qed.

End WatcherFacts.

(* ------------------------------------------------------------------------- *)
(** ** Configuration values *)

Module SettingsFacts.

Import Settings.

Lemma upsert_get_same (k : jstr) (v : value) (o : obj value) :
  ownGet k (upsert k v o) = Some v.
Proof. apply ownGet_upsert_same. Qed.

(** A write changes the member it starts from and no other. *)
Lemma setFrom_frame (rest : list jstr) (key : jstr) (v : value)
  (current o' : obj value) (k : jstr) :
  setFrom key rest v current = Some o' -> k <> key ->
  ownGet k o' = ownGet k current.
Proof.
  assert (Hup : forall (x : value) (o : obj value),
            k <> key -> ownGet k (upsert key x o) = ownGet k o).
  { intros x o Hk. apply ownGet_upsert_other. congruence. }
  destruct rest as [|next rest]; cbn [setFrom]; intros H Hk.
  - unfold set in H. destruct (jstr_eqb key (str "__proto__")); [discriminate|].
    injection H as <-. now apply Hup.
  - assert (Hfresh :
      match set key (VObj []) current with
      | Some current' =>
          option_map (fun inner => upsert key (VObj inner) current')
                     (setFrom next rest v [])
      | None => None
      end = Some o' -> ownGet k o' = ownGet k current).
    { unfold set. destruct (jstr_eqb key (str "__proto__")); [discriminate|].
      destruct (setFrom next rest v []) as [inner|]; [|discriminate].
      cbn [option_map]. intros [= <-]. now rewrite !Hup. }
    destruct (get key current) as [w| |]; [|discriminate|auto].
    destruct w as [|b|x|s|items|inner];
      try (destruct (truthy _); [discriminate|auto]).
    destruct (setFrom next rest v inner) as [inner'|]; [|discriminate].
    cbn [option_map] in H. injection H as <-. now apply Hup.
Qed.

(** After a write the member it starts from is an object, or the value
    itself when the path has one key. *)
Lemma setFrom_member (rest : list jstr) (key : jstr) (v : value)
  (current o' : obj value) :
  setFrom key rest v current = Some o' ->
  match rest with
  | [] => ownGet key o' = Some v
  | next :: rest' =>
      exists inner0 inner,
        setFrom next rest' v inner0 = Some inner /\
        ownGet key o' = Some (VObj inner)
  end.
Proof.
  destruct rest as [|next rest]; cbn [setFrom]; intros H.
  - unfold set in H. destruct (jstr_eqb key (str "__proto__")); [discriminate|].
    injection H as <-. apply upsert_get_same.
  - assert (Hfresh :
      match set key (VObj []) current with
      | Some current' =>
          option_map (fun inner => upsert key (VObj inner) current')
                     (setFrom next rest v [])
      | None => None
      end = Some o' ->
      exists inner0 inner,
        setFrom next rest v inner0 = Some inner /\
        ownGet key o' = Some (VObj inner)).
    { unfold set. destruct (jstr_eqb key (str "__proto__")); [discriminate|].
      destruct (setFrom next rest v []) as [inner|] eqn:E; [|discriminate].
      cbn [option_map]. intros [= <-]. exists [], inner.
      split; [assumption|apply upsert_get_same]. }
    destruct (get key current) as [w| |]; [|discriminate|auto].
    destruct w as [|b|x|s|items|inner];
      try (destruct (truthy _); [discriminate|auto]).
    destruct (setFrom next rest v inner) as [inner'|] eqn:E; [|discriminate].
    cbn [option_map] in H. injection H as <-. exists inner, inner'.
    split; [assumption|apply upsert_get_same].
Qed.

Lemma getFrom_setFrom (rest : list jstr) (key : jstr) (v : value)
  (current o' : obj value) :
  setFrom key rest v current = Some o' ->
  getFrom (key :: rest) (VObj o') <> None ->
  getFrom (key :: rest) (VObj o') = Some (Some v).
Proof.
  revert key current o'; induction rest as [|next rest IH];
    intros key current o' Hset; pose proof (setFrom_member _ _ _ _ Hset) as Hm;
    cbn [getFrom]; destruct (ownGet (str "hasOwnProperty") o');
    try congruence.
  - rewrite Hm. reflexivity.
  - destruct Hm as (inner0 & inner & Hinner & ->). intros Hread.
    now apply (IH next inner0 inner).
Qed.

(** X24. What [setNestedValue] writes, [getNestedValue] reads: when the write
    stays within the plain objects and the read meets no member called
    [hasOwnProperty], the read at the same path gives the written value. *)
Theorem getNestedValue_setNestedValue (o o' : obj value) (keyPath : jstr)
  (v : value) :
  setNestedValue o keyPath v = Some o' ->
  getNestedValue o' keyPath <> None ->
  getNestedValue o' keyPath = Some (Some v).
Proof.
  unfold setNestedValue, getNestedValue.
  destruct (splitBy isDot keyPath) as [|key rest]; [discriminate|].
  apply getFrom_setFrom.
Qed.

Lemma getNestedValue_setNestedValue_witness :
  getNestedValue
    [(str "defaults",
      VObj [(str "maxFileSize", VNum 10485760); (str "watch", VBool true)])]
    (str "defaults.maxFileSize")
  = Some (Some (VNum 10485760)).
Proof.
  apply (@getNestedValue_setNestedValue
           [(str "defaults", VObj [(str "maxFileSize", VNum 5242880);
                                   (str "watch", VBool true)])]
           _ (str "defaults.maxFileSize") (VNum 10485760)).
  - reflexivity.
  - discriminate.
Defined.

(** X25. A write leaves the other members of the document alone: a read whose
    path starts with another key gives what it gave before, as long as the
    write does not start at [hasOwnProperty]. *)
Theorem setNestedValue_elsewhere (o o' : obj value) (keyPath other : jstr)
  (v : value) :
  setNestedValue o keyPath v = Some o' ->
  hd [] (splitBy isDot other) <> hd [] (splitBy isDot keyPath) ->
  hd [] (splitBy isDot keyPath) <> str "hasOwnProperty" ->
  getNestedValue o' other = getNestedValue o other.
Proof.
  unfold setNestedValue, getNestedValue.
  destruct (splitBy isDot keyPath) as [|key rest]; [discriminate|].
  pose proof (splitBy_not_nil isDot other) as Hne.
  destruct (splitBy isDot other) as [|k ks]; [contradiction|].
  cbn [hd getFrom]. intros Hset Hk Hkey.
  rewrite (@setFrom_frame rest key v o o' k Hset Hk).
  now rewrite (@setFrom_frame rest key v o o' (str "hasOwnProperty") Hset)
    by congruence.
Qed.

Lemma setNestedValue_elsewhere_witness :
  getNestedValue
    [(str "defaults", VObj [(str "maxFileSize", VNum 10485760)]);
     (str "performance", VObj [(str "batchSize", VNum 50)])]
    (str "performance.batchSize")
  = getNestedValue
      [(str "defaults", VObj [(str "maxFileSize", VNum 5242880)]);
       (str "performance", VObj [(str "batchSize", VNum 50)])]
      (str "performance.batchSize").
Proof.
  apply (@setNestedValue_elsewhere _ _ (str "defaults.maxFileSize")
           (str "performance.batchSize") (VNum 10485760)).
  - reflexivity.
  - discriminate.
  - discriminate.
Defined.

End SettingsFacts.

(* ------------------------------------------------------------------------- *)
(** ** Merging configurations *)

Module MergeFacts.

Import Settings Merge.

Lemma entries_NoDup (V : Type) (o : obj V) :
  NoDup (keys o) -> NoDup (keys (entries o)).
Proof.
  intros H. eapply Permutation_NoDup; [|exact H].
  unfold keys. apply Permutation_map. symmetry.
  apply KeywordsMore.entries_perm.
Qed.

(** Spreading an object keeps its members. *)
Lemma ownGet_entries (V : Type) (k : jstr) (o : obj V) :
  NoDup (keys o) -> ownGet k (entries o) = ownGet k o.
Proof.
  intros H. destruct (ownGet k o) as [v|] eqn:E.
  - apply In_ownGet; [now apply entries_NoDup|].
    apply StoreFacts.entries_In. now apply ownGet_In.
  - apply ownGet_None. apply ownGet_None in E. intros Hin. apply E.
    unfold keys in *. apply in_map_iff in Hin as (kv & <- & Hkv).
    rewrite StoreFacts.entries_In in Hkv. now apply in_map.
Qed.

Lemma assignAll_lookup (member : jstr -> value -> option value)
  (ms : list (jstr * value)) (result r : obj value) (k : jstr) :
  NoDup (keys ms) ->
  assignAll member ms result = Some r ->
  match ownGet k ms with
  | Some ov => exists x, member k ov = Some x /\ ownGet k r = Some x
  | None => ownGet k r = ownGet k result
  end.
Proof.
  revert result; induction ms as [|[key ov] ms IH]; intros result Hnd;
    cbn [assignAll ownGet].
  - now intros [= <-].
  - inversion Hnd as [|? ? Hni Hnd']; subst.
    destruct (member key ov) as [x|] eqn:Hx; [|discriminate].
    unfold set. destruct (jstr_eqb key (str "__proto__")); [discriminate|].
    intros Hrest. specialize (IH _ Hnd' Hrest).
    destruct (jstr_eqb k key) eqn:E.
    + apply jstr_eqb_eq in E. subst k.
      apply ownGet_None in Hni. rewrite Hni in IH.
      exists x. split; [assumption|].
      rewrite IH. apply ownGet_upsert_same.
    + apply jstr_eqb_neq in E.
      destruct (ownGet k ms); [assumption|].
      rewrite IH. apply ownGet_upsert_other. congruence.
Qed.

(** X26. The merge is deep and the override wins.  Of the result of
    [mergeConfigs(base, override)], a member the override lacks is the one
    of the base; a member that the override gives as something other than
    an object is the one of the override; and a member that the override
    gives as an object is the merge of that object into what the base has
    under the same name, or into an empty object. *)
Theorem mergeConfigs_members (base override r : obj value) :
  NoDup (keys base) -> NoDup (keys override) ->
  mergeConfigs base override = Some r ->
  forall k,
    match ownGet k override with
    | None => ownGet k r = ownGet k base
    | Some (VObj inner) =>
        exists b m,
          baseAt base k = Some b /\ mergeConfigs b inner = Some m /\
          ownGet k r = Some (VObj m)
    | Some ov => ownGet k r = Some ov
    end.
Proof.
  intros Hbase Hover Hmerge k. unfold mergeConfigs in Hmerge.
  cbn [mergeValue] in Hmerge.
  destruct (existsb _ override); [discriminate|].
  destruct (ownGet (str "hasOwnProperty") override); [discriminate|].
  pose proof (assignAll_lookup _ _ _ k Hover Hmerge) as H.
  destruct (ownGet k override) as [ov|].
  - destruct H as (x & Hx & Hr).
    destruct ov as [|b|x0|s|items|inner]; try (injection Hx as <-; exact Hr).
    destruct (baseAt base k) as [b|]; [|discriminate].
    fold (mergeConfigs b inner) in Hx.
    destruct (mergeConfigs b inner) as [m|] eqn:Hm; [|discriminate].
    injection Hx as <-. exists b, m. auto.
  - rewrite H. now apply ownGet_entries.
Qed.

Lemma mergeConfigs_members_witness :
  let r := [(str "maxFileSize", VNum 1024);
            (str "watch",
             VObj [(str "enabled", VBool true); (str "debounce", VNum 500)]);
            (str "verbose", VBool true)] in
  ownGet (str "maxFileSize") r = Some (VNum 1024) /\
  ownGet (str "batchSize") r = None.
Proof.
  intros r.
  assert (Hb : NoDup (keys [(str "maxFileSize", VNum 5242880);
                            (str "watch",
                             VObj [(str "enabled", VBool false);
                                   (str "debounce", VNum 500)])])).
  { repeat constructor; cbn; intuition discriminate. }
  assert (Ho : NoDup (keys [(str "maxFileSize", VNum 1024);
                            (str "watch", VObj [(str "enabled", VBool true)]);
                            (str "verbose", VBool true)])).
  { repeat constructor; cbn; intuition discriminate. }
  split.
  - exact (@mergeConfigs_members _ _ r Hb Ho eq_refl (str "maxFileSize")).
  - exact (@mergeConfigs_members _ _ r Hb Ho eq_refl (str "batchSize")).
Defined.

(** X27. The result of a merge has the names of the base, in the order in
    which the base enumerates them, followed by the names that only the
    override has, in the order of the override; no name is lost and none
    comes twice. *)
Theorem mergeConfigs_keys (base override r : obj value) :
  NoDup (keys base) -> NoDup (keys override) ->
  mergeConfigs base override = Some r ->
  keys r =
  keys (entries base) ++
  filter (fun k => negb (existsb (jstr_eqb k) (keys base))) (keys override) /\
  NoDup (keys r).
Proof.
  intros Hbase Hover Hmerge. unfold mergeConfigs in Hmerge.
  cbn [mergeValue] in Hmerge.
  destruct (existsb _ override); [discriminate|].
  destruct (ownGet (str "hasOwnProperty") override); [discriminate|].
  set (member := fun (key : jstr) (ov : value) => _) in Hmerge.
  assert (Hstart : NoDup (keys (entries base))) by now apply entries_NoDup.
  assert (Hsame : forall k, existsb (jstr_eqb k) (keys (entries base)) =
                            existsb (jstr_eqb k) (keys base)).
  { intros k. apply eq_true_iff_eq.
    rewrite !KeywordsFacts.existsb_keys. unfold keys.
    split; intros Hin; apply in_map_iff in Hin as (kv & <- & Hkv);
      apply in_map; rewrite StoreFacts.entries_In in *; assumption. }
  assert (H : forall ms result,
            NoDup (keys result) -> NoDup (keys ms) ->
            assignAll member ms result = Some r ->
            keys r =
            keys result ++
            filter (fun k => negb (existsb (jstr_eqb k) (keys result)))
                   (keys ms) /\
            NoDup (keys r)).
  { clear. induction ms as [|[key ov] ms IH]; intros result Hnd Hms;
      cbn [assignAll].
    - intros [= <-]. cbn [keys map filter]. now rewrite app_nil_r.
    - destruct (member key ov) as [x|]; [|discriminate].
      unfold set. destruct (jstr_eqb key (str "__proto__")); [discriminate|].
      intros Hrest. cbn [keys map fst] in Hms.
      inversion Hms as [|? ? Hni Hms']; subst.
      assert (Hnd' : NoDup (keys (upsert key x result)))
        by now apply ReportFacts.NoDup_keys_upsert_any.
      destruct (IH _ Hnd' Hms' Hrest) as (Hkeys & Hr).
      split; [|assumption].
      rewrite HistoryFacts.keys_upsert in Hkeys.
      cbn [keys map fst filter].
      destruct (existsb (jstr_eqb key) (keys result)) eqn:E;
        cbn [negb]; [exact Hkeys|].
      rewrite Hkeys, <- app_assoc. cbn [app]. do 2 f_equal.
      apply filter_ext_in. intros k Hk.
      rewrite existsb_app. cbn [existsb]. rewrite orb_false_r.
      assert (Hne : jstr_eqb k key = false).
      { apply jstr_eqb_neq. intros ->. contradiction. }
      now rewrite Hne, orb_false_r. }
  destruct (H _ _ Hstart Hover Hmerge) as (Hkeys & Hr).
  split; [|assumption]. rewrite Hkeys. f_equal.
  apply filter_ext. intros k. now rewrite Hsame.
Qed.

Lemma mergeConfigs_keys_witness :
  keys [(str "maxFileSize", VNum 1024);
        (str "watch", VObj [(str "enabled", VBool true)]);
        (str "verbose", VBool true); (str "batch", VNum 10)] =
  [str "maxFileSize"; str "watch"] ++ [str "verbose"; str "batch"].
Proof.
  assert (Hb : NoDup (keys [(str "maxFileSize", VNum 5242880);
                            (str "watch", VObj [])])).
  { repeat constructor; cbn; intuition discriminate. }
  assert (Ho : NoDup (keys [(str "verbose", VBool true);
                            (str "maxFileSize", VNum 1024);
                            (str "batch", VNum 10);
                            (str "watch",
                             VObj [(str "enabled", VBool true)])])).
  { repeat constructor; cbn; intuition discriminate. }
  exact (proj1 (@mergeConfigs_keys
                  [(str "maxFileSize", VNum 5242880); (str "watch", VObj [])]
                  [(str "verbose", VBool true);
                   (str "maxFileSize", VNum 1024);
                   (str "batch", VNum 10);
                   (str "watch", VObj [(str "enabled", VBool true)])]
                  _ Hb Ho eq_refl)).
Defined.

End MergeFacts.

(* ------------------------------------------------------------------------- *)
(** ** From indexing to searching *)

Module RetrievalFacts.

Import QueryFacts.


Lemma StronglySorted_app_inv (A : Type) (R : A -> A -> Prop) (a b : list A) :
  StronglySorted R (a ++ b) ->
  forall x y, In x a -> In y b -> R x y.
Proof.
  induction a as [|z a IH]; cbn [app]; intros Hs x y Hx Hy; [destruct Hx|].
  inversion Hs as [|? ? Hs' Hall]; subst. destruct Hx as [<-|Hx].
  - rewrite Forall_forall in Hall. apply Hall. apply in_or_app. now right.
  - now apply IH.
Qed.

(** What a cut of a sorted list leaves out is preceded by a full cut. *)
Lemma sorted_prefix (A : Type) (R : A -> A -> Prop) (k : nat) (l : list A)
  (x : A) :
  StronglySorted R l -> In x l ->
  In x (firstn k l) \/
  (length (firstn k l) = k /\ forall y, In y (firstn k l) -> R y x).
Proof.
  intros Hs Hx. rewrite <- (firstn_skipn k l) in Hs, Hx.
  apply in_app_or in Hx as [Hx|Hx]; [now left|]. right. split.
  - rewrite length_firstn. apply Nat.min_l.
    destruct (Nat.le_gt_cases k (length l)) as [H|H]; [assumption|].
    rewrite skipn_all2 in Hx by lia. destruct Hx.
  - intros y Hy. exact (@StronglySorted_app_inv _ R _ _ Hs y x Hy Hx).
Qed.








End RetrievalFacts.

(* ------------------------------------------------------------------------- *)
(** ** Lists of extension patterns *)

Module ConfigMore.

Import GlobFacts.

Lemma someMatch_extensions (path : jstr) (exts : list jstr) :
  Forall (fun ext => ext <> [] /\ forallb isWordChar ext = true) exts ->
  someMatch path (map extensionPattern exts) =
  Some (existsb (fun ext => endsWith (lastSegment path) (dot :: ext)) exts).
Proof.
  induction 1 as [|ext exts [Hne Hw] _ IH]; cbn [map someMatch existsb];
    [reflexivity|].
  rewrite (matchGlob_extension_branch path Hne Hw).
  destruct (endsWith (lastSegment path) (dot :: ext)); [reflexivity|].
  exact IH.
Qed.

(** X29. For a list of patterns [**/*.<ext>], each [<ext>] a non-empty run
    of word characters, [matchesAnyPattern] always answers: [true] exactly
    when the file name, the last segment of the normalized path, ends with
    [.<ext>] for one of them, and [false] exactly when it does for none. *)
Theorem matchesAnyPattern_extensions (env : Env) (filePath : jstr)
  (exts : list jstr) :
  Forall (fun ext => ext <> [] /\ forallb isWordChar ext = true) exts ->
  (matchesAnyPattern env filePath (map extensionPattern exts) = Some true <->
   exists ext, In ext exts /\
               filename_has_extension (normalizePath env filePath) ext) /\
  (matchesAnyPattern env filePath (map extensionPattern exts) = Some false <->
   forall ext, In ext exts ->
               ~ filename_has_extension (normalizePath env filePath) ext).
Proof.
  intros Hexts. unfold matchesAnyPattern.
  rewrite (someMatch_extensions _ Hexts).
  set (p := normalizePath env filePath).
  assert (Hiff : existsb (fun ext => endsWith (lastSegment p) (dot :: ext))
                         exts = true <->
                 exists ext, In ext exts /\ filename_has_extension p ext).
  { rewrite existsb_exists. split; intros (ext & Hin & H); exists ext;
      (split; [assumption|]); now apply endsWith_extension. }
  destruct (existsb (fun ext => endsWith (lastSegment p) (dot :: ext)) exts)
    eqn:E.
  - split; [split; [intros _; now apply Hiff|reflexivity]|].
    split; [discriminate|]. intros Hnone.
    destruct (proj1 Hiff eq_refl) as (ext & Hin & H).
    now destruct (Hnone ext Hin).
  - split.
    + split; [discriminate|]. intros H. apply Hiff in H. discriminate.
    + split; [|reflexivity]. intros _ ext Hin H.
      assert (Hex : exists ext, In ext exts /\ filename_has_extension p ext)
        by eauto.
      apply Hiff in Hex. discriminate.
Qed.

Lemma matchesAnyPattern_extensions_witness :
  matchesAnyPattern sampleEnv (str "/proj/src/app.test.js")
                    (include defaultConfig) = Some true <->
  exists ext,
    In ext (map str ["js"; "jsx"; "ts"; "tsx"; "java"; "cs"; "py"; "rb";
                     "php"; "go"; "rs"; "cpp"; "c"; "h"; "html"; "htm";
                     "css"; "scss"; "sass"; "json"; "xml"; "yaml"; "yml";
                     "jsp"; "jds"; "jdc"; "sql"; "md"; "txt"]%string) /\
    filename_has_extension
      (normalizePath sampleEnv (str "/proj/src/app.test.js")) ext.
Proof.
  apply (@matchesAnyPattern_extensions sampleEnv
           (str "/proj/src/app.test.js")
           (map str ["js"; "jsx"; "ts"; "tsx"; "java"; "cs"; "py"; "rb";
                     "php"; "go"; "rs"; "cpp"; "c"; "h"; "html"; "htm";
                     "css"; "scss"; "sass"; "json"; "xml"; "yaml"; "yml";
                     "jsp"; "jds"; "jdc"; "sql"; "md"; "txt"]%string)).
  repeat (constructor; [split; [discriminate|reflexivity]|]).
  constructor.
Defined.

End ConfigMore.

(* ------------------------------------------------------------------------- *)
(** ** The ranking *)

Module RankingFacts.

Import QueryFacts.

(** The results collected are the qualifying files, one for one and in
    their order. *)
Lemma collectWith_qualifying (scoreOf : jstr -> FileRecord -> jsnum)
  (query : jstr) (minS : jsnum) (es : list (jstr * FileRecord)) :
  map filePath (collectWith scoreOf query minS es) =
  map fst (qualifying scoreOf minS es) /\
  forall r, In r (collectWith scoreOf query minS es) ->
    exists fileData,
      In (filePath r, fileData) es /\
      jge (scoreOf (filePath r) fileData) minS = true /\
      score r = jmin (scoreOf (filePath r) fileData) (Num 1).
Proof.
  unfold qualifying.
  induction es as [|[path fileData] es [IH1 IH2]];
    cbn [collectWith filter fst snd map].
  - split; [reflexivity|intros r []].
  - assert (Hold : forall r,
              In r (collectWith scoreOf query minS es) ->
              exists fd,
                In (filePath r, fd) ((path, fileData) :: es) /\
                jge (scoreOf (filePath r) fd) minS = true /\
                score r = jmin (scoreOf (filePath r) fd) (Num 1)).
    { intros r Hr. destruct (IH2 r Hr) as (fd & H1 & H2).
      exists fd. split; [now right|assumption]. }
    destruct (jge (scoreOf path fileData) minS) eqn:E.
    + split; [cbn [map filePath fst]; now rewrite IH1|].
      intros r [<-|Hr]; [|auto]. cbn [filePath score].
      exists fileData. split; [now left|]. split; [assumption|reflexivity].
    + split; assumption.
Qed.

(** With readable histograms [search] is the ranking of the scores that
    [fileScore] adds up. *)
Lemma collect_collectWith (d : Database) (query : jstr) (minS : jsnum)
  (es : list (jstr * FileRecord)) :
  Forall (fun kv => histogramOf d (fst kv) <> None) es ->
  collect d query minS es =
  Some (collectWith (exactScore d query) query minS es).
Proof.
  induction 1 as [|[path fileData] es Hh _ IH]; cbn [collect collectWith];
    [reflexivity|].
  rewrite IH. cbn [fst] in Hh.
  assert (E : forall kws,
            histogramOf d path = Some kws ->
            exactScore d query path fileData =
            fileScore kws (toLowerCase query) path (content fileData)).
  { intros kws Hkws. unfold exactScore. now rewrite Hkws. }
  destruct (histogramOf d path) as [kws|]; [|congruence].
  rewrite (E kws eq_refl). destruct (jge _ minS); reflexivity.
Qed.

(** C5. Whatever the files score, the results of [search] are files whose
    score is not below [minScore] (the option, 0.3 when it is absent), each
    once and with its score clamped at 1, in descending order of score; a
    file that scores below [minScore] is in no result, however few files
    qualify.  For a [maxResults] (the option, 10 when it is absent) that is
    not negative, the results are as many as qualify, [maxResults] at most,
    and a qualifying file is left out only when [maxResults] results are
    returned, none of which scores less.  The scores are those of
    [scoreOf]; those that [fileScore] adds up are one case. *)
Theorem search_ranking (scoreOf : jstr -> FileRecord -> jsnum)
  (cfg : SearchConfig) (d : Database) (query : jstr) (options : Options) :
  distinct (keys (files d)) = true ->
  let limit := match maxResults options with
               | Some m => m
               | None => cfg_maxResults cfg
               end in
  let threshold := match minScore options with
                   | Some m => m
                   | None => cfg_minScore cfg
                   end in
  let rs := searchWith scoreOf cfg d query options in
  (forall r, In r rs ->
     exists fileData,
       In (filePath r, fileData) (files d) /\
       jge (scoreOf (filePath r) fileData) threshold = true /\
       score r = jmin (scoreOf (filePath r) fileData) (Num 1)) /\
  (forall path fileData,
     In (path, fileData) (files d) ->
     jge (scoreOf path fileData) threshold = false ->
     ~ In path (map filePath rs)) /\
  NoDup (map filePath rs) /\
  StronglySorted score_desc rs /\
  ((0 <= limit)%Z ->
   length rs =
   Nat.min (Z.to_nat limit)
           (length (qualifying scoreOf threshold (files d)))) /\
  ((0 <= limit)%Z ->
   forall path fileData,
     In (path, fileData) (files d) ->
     jge (scoreOf path fileData) threshold = true ->
     In path (map filePath rs) \/
     (length rs = Z.to_nat limit /\
      forall r, In r rs ->
        exists a b,
          score r = Num a /\
          jmin (scoreOf path fileData) (Num 1) = Num b /\ (b <= a)%Q)) /\
  (histograms_readable d = true ->
   search cfg d query options =
   Some (searchWith (exactScore d query) cfg d query options)) /\
  cfg_maxResults defaultSearchConfig = 10%Z /\
  cfg_minScore defaultSearchConfig = Num 0.3%Q.
Proof.
  intros Hdist limit threshold rs. apply distinct_NoDup in Hdist.
  fold (maxResultsOf cfg options) in limit.
  fold (minScoreOf cfg options) in threshold.
  set (es := entries (files d)).
  set (rs0 := collectWith scoreOf query threshold es).
  assert (Hrs : rs = sliceTo limit (sortResults rs0)) by reflexivity.
  destruct (collectWith_qualifying scoreOf query threshold es)
    as [Hpaths Hfrom0]. fold rs0 in Hpaths, Hfrom0.
  assert (Hent : Permutation es (files d)).
  { unfold es, entries.
    rewrite <- (KeywordsMore.sortIndex_perm
                  (filter (fun kv => isArrayIndex (fst kv)) (files d))).
    apply KeywordsMore.filter_partition_perm. }
  assert (Hnd0 : NoDup (map filePath rs0)).
  { rewrite Hpaths. unfold qualifying.
    assert (Hes : NoDup (map fst es)).
    { eapply Permutation_NoDup;
        [apply Permutation_map; symmetry; exact Hent|exact Hdist]. }
    clear -Hes. induction es as [|kv es IH]; cbn [filter map];
      [constructor|].
    inversion Hes as [|? ? Hni Hes']; subst.
    destruct (jge _ threshold); cbn [map]; [|auto].
    constructor; [|auto]. intros Hin. apply Hni.
    apply in_map_iff in Hin as (kv' & <- & Hkv').
    apply filter_In in Hkv' as [Hkv' _]. now apply in_map. }
  assert (Hnum0 : Forall (fun y => exists sy, score y = Num sy) rs0).
  { apply Forall_forall. intros y Hy.
    destruct (Hfrom0 y Hy) as (fd & _ & Hge & Hscore).
    destruct (jge_num _ _ Hge) as [q Hq]. rewrite Hscore, Hq. cbn [jmin].
    eauto. }
  assert (Hsorted : StronglySorted score_desc (sortResults rs0))
    by now apply sortResults_sorted.
  destruct (sliceTo_prefix limit (sortResults rs0)) as [k Hk].
  assert (Hfrom : forall r, In r rs ->
            exists fileData,
              In (filePath r, fileData) (files d) /\
              jge (scoreOf (filePath r) fileData) threshold = true /\
              score r = jmin (scoreOf (filePath r) fileData) (Num 1)).
  { intros r Hr. rewrite Hrs, Hk in Hr. apply firstn_In in Hr.
    rewrite sortResults_In in Hr.
    destruct (Hfrom0 r Hr) as (fd & H1 & H2). exists fd.
    split; [|assumption]. unfold es in H1.
    now rewrite StoreFacts.entries_In in H1. }
  assert (Hlen0 : length rs0 = length (qualifying scoreOf threshold (files d))).
  { rewrite <- (length_map filePath rs0), Hpaths, length_map.
    unfold qualifying. apply Permutation_length.
    apply ReportFacts.filter_perm. exact Hent. }
  split; [exact Hfrom|].
  split.
  { intros path fileData Hin Hlow Hpath.
    apply in_map_iff in Hpath as (r & <- & Hr).
    destruct (Hfrom r Hr) as (fd & Hin' & Hge & _).
    apply (In_ownGet _ _ _ Hdist) in Hin, Hin'.
    assert (fd = fileData) by congruence. subst. congruence. }
  split.
  { rewrite Hrs, Hk.
    assert (H : NoDup (map filePath (sortResults rs0))).
    { eapply Permutation_NoDup;
        [apply Permutation_map, QueryMore.sortResults_perm|exact Hnd0]. }
    rewrite <- (firstn_skipn k (sortResults rs0)), map_app in H.
    now apply NoDup_app_remove_r in H. }
  split.
  { rewrite Hrs, Hk. now apply KeywordsFacts.StronglySorted_firstn. }
  assert (Hcut : (0 <= limit)%Z ->
                 rs = firstn (Z.to_nat limit) (sortResults rs0)).
  { intros Hlim. rewrite Hrs. unfold sliceTo.
    destruct (limit <? 0)%Z eqn:E; [apply Z.ltb_lt in E; lia|reflexivity]. }
  split.
  { intros Hlim. rewrite (Hcut Hlim), length_firstn.
    now rewrite <- (Permutation_length (QueryMore.sortResults_perm rs0)), Hlen0. }
  split.
  { intros Hlim path fileData Hin Hge.
    assert (Hr : exists r, In r rs0 /\ filePath r = path /\
                           score r = jmin (scoreOf path fileData) (Num 1)).
    { assert (Hq : In (path, fileData) (qualifying scoreOf threshold es)).
      { unfold qualifying. apply filter_In. split; [|exact Hge].
        unfold es. now rewrite StoreFacts.entries_In. }
      assert (Hp : In path (map filePath rs0)).
      { rewrite Hpaths. change path with (fst (path, fileData)).
        now apply in_map. }
      apply in_map_iff in Hp as (r & Hpath & Hr). exists r.
      split; [assumption|]. split; [assumption|].
      destruct (Hfrom0 r Hr) as (fd & Hin' & _ & Hscore).
      rewrite Hpath in Hin', Hscore. unfold es in Hin'.
      rewrite StoreFacts.entries_In in Hin'.
      apply (In_ownGet _ _ _ Hdist) in Hin, Hin'.
      assert (fd = fileData) by congruence. now subst. }
    destruct Hr as (r & Hr & Hpath & Hscore).
    apply sortResults_In in Hr. rewrite (Hcut Hlim).
    destruct (@RetrievalFacts.sorted_prefix _ score_desc (Z.to_nat limit) _ r Hsorted Hr)
      as [Hfound|[Hlen Hbefore]].
    - left. apply in_map_iff. exists r. auto.
    - right. split; [assumption|]. intros y Hy.
      destruct (Hbefore y Hy) as (a & b & Ha & Hb & Hab).
      exists a, b. rewrite <- Hscore. auto. }
  split; [|split; reflexivity].
  intros Hread. unfold search, searchWith.
  rewrite collect_collectWith; [reflexivity|].
  apply Forall_forall. intros kv Hin. rewrite StoreFacts.entries_In in Hin.
  unfold histograms_readable in Hread. rewrite forallb_forall in Hread.
  specialize (Hread kv Hin). destruct (histogramOf d (fst kv)); congruence.
Qed.

(** The files of the specification, scoring 0.9, 0.9 and 0.4: with two
    results asked for, the two files that score 0.9; with three asked for
    and a threshold of 0.5, the same two. *)
Lemma search_ranking_witness :
  map filePath
      (searchWith givenScores defaultSearchConfig scoreboard (str "foo bar")
                  (mkOptions (Some 2%Z) (Some (Num 0.3%Q))))
  = [str "a.txt"; str "b.txt"] /\
  length (searchWith givenScores defaultSearchConfig scoreboard
                     (str "foo bar") (mkOptions (Some 2%Z) (Some (Num 0.3%Q))))
  = Nat.min 2 (length (qualifying givenScores (Num 0.3%Q)
                                  (files scoreboard))) /\
  ~ In (str "c.txt")
       (map filePath
            (searchWith givenScores defaultSearchConfig scoreboard
                        (str "foo bar")
                        (mkOptions (Some 3%Z) (Some (Num 0.5%Q))))) /\
  length (searchWith givenScores defaultSearchConfig scoreboard
                     (str "foo bar") (mkOptions (Some 3%Z) (Some (Num 0.5%Q))))
  = 2 /\
  map filePath
      (searchWith givenScores defaultSearchConfig scoreboard (str "foo bar")
                  (mkOptions None None))
  = [str "a.txt"; str "b.txt"; str "c.txt"] /\
  length (searchWith givenScores defaultSearchConfig scoreboard
                     (str "foo bar") (mkOptions None None))
  = Nat.min 10 (length (qualifying givenScores (Num 0.3%Q)
                                   (files scoreboard))).
Proof.
  pose proof (@search_ranking givenScores defaultSearchConfig scoreboard
                (str "foo bar") (mkOptions None None) eq_refl) as H0.
  cbv zeta in H0. cbn [maxResults minScore] in H0.
  destruct H0 as (_ & _ & _ & _ & Hlen0 & _).
  pose proof (@search_ranking givenScores defaultSearchConfig scoreboard
                (str "foo bar") (mkOptions (Some 2%Z) (Some (Num 0.3%Q)))
                eq_refl) as H2.
  pose proof (@search_ranking givenScores defaultSearchConfig scoreboard
                (str "foo bar") (mkOptions (Some 3%Z) (Some (Num 0.5%Q)))
                eq_refl) as H3.
  cbv zeta in H2, H3. cbn [maxResults minScore] in H2, H3.
  destruct H2 as (_ & _ & _ & _ & Hlen2 & _).
  destruct H3 as (_ & Hlow3 & _ & _ & Hlen3 & _).
  split; [reflexivity|]. split; [apply Hlen2; discriminate|].
  split.
  - apply (Hlow3 (str "c.txt") (snd (plainRecord "c.txt" "bar foo")));
      [now left|reflexivity].
  - split; [rewrite (Hlen3 ltac:(discriminate)); reflexivity|].
    split; [reflexivity|]. apply Hlen0. discriminate.
Defined.

End RankingFacts.

(* ------------------------------------------------------------------------- *)
(** ** The indexer for every keyword extraction *)

Module CoreFacts.

Import Core.

Section Histogram.

Variable K : Type.
Variable extractKeywords : jstr -> K.

(** [indexFile] answers unless it has to assign to [__proto__]. *)
Lemma indexFile_total (env : Env) (filePath projectPath : jstr)
  (ix : Indexer K) :
  getRelativePath env projectPath filePath <> str "__proto__" ->
  exists ix' res,
    indexFile extractKeywords env filePath projectPath ix = Some (ix', res).
Proof.
  intros Hrel. apply jstr_eqb_neq in Hrel. unfold indexFile, set.
  rewrite Hrel.
  destruct (readFileSync env filePath); [|eauto].
  destruct (statSync env filePath); [|eauto].
  destruct (sameHash _ _ _); eauto.
Qed.

(** What a call of [indexFile] leaves behind. *)
Lemma indexFile_effect (env : Env) (filePath projectPath : jstr)
  (ix ix' : Indexer K) (res : IndexResult) :
  indexFile extractKeywords env filePath projectPath ix = Some (ix', res) ->
  match res with
  | Indexed path sz =>
      exists text stats,
        readFileSync env filePath = inl text /\
        statSync env filePath = inl stats /\
        path = getRelativePath env projectPath filePath /\
        sz = stat_size stats /\
        files (db ix') =
          upsert path
            (mkFileRecord path text (getHash env text) sz (countLines text)
               (getExtension env filePath) (stat_mtime stats)
               (getTimestamp env))
            (files (db ix)) /\
        keywords (db ix') =
          upsert path (extractKeywords text) (keywords (db ix)) /\
        written ix' = db ix' :: written ix
  | Unchanged _ => ix' = ix
  | Error _ _ => ix' = ix
  end.
Proof.
  unfold indexFile.
  destruct (readFileSync env filePath) as [text|m];
    [|now intros [= <- <-]].
  destruct (statSync env filePath) as [stats|m]; [|now intros [= <- <-]].
  destruct (sameHash _ _ _); [now intros [= <- <-]|].
  destruct (set _ _ (files (db ix))) as [fs|] eqn:Hf; [|discriminate].
  destruct (set _ _ (keywords (db ix))) as [ks|] eqn:Hk; [|discriminate].
  intros [= <- <-].
  apply HistoryFacts.set_upsert in Hf as [-> _].
  apply HistoryFacts.set_upsert in Hk as [-> _].
  exists text, stats. cbn [saveDatabase db files keywords written].
  repeat (split; [reflexivity|]). reflexivity.
Qed.

Lemma indexFile_keeps (env : Env) (filePath projectPath : jstr)
  (ix ix' : Indexer K) (res : IndexResult) (initial : Database K) :
  indexFile extractKeywords env filePath projectPath ix = Some (ix', res) ->
  (consistent (db ix) -> consistent (db ix')) /\
  (persisted initial ix -> persisted initial ix') /\
  length (written ix') =
  length (written ix) + match res with Indexed _ _ => 1 | _ => 0 end.
Proof.
  intros H. apply indexFile_effect in H.
  destruct res as [path sz|path|path m]; [|subst ix'; auto with arith..].
  destruct H as (text & stats & _ & _ & _ & _ & Hf & Hk & Hw).
  split; [|split].
  - intros (Hnd & Hkeys & Hpath). unfold consistent. rewrite Hf, Hk.
    split; [now apply ReportFacts.NoDup_keys_upsert_any|].
    split; [now rewrite !HistoryFacts.keys_upsert, Hkeys|].
    now apply HistoryFacts.Forall_upsert.
  - intros _. unfold persisted. now rewrite Hw.
  - rewrite Hw. cbn [length]. lia.
Qed.

Lemma removeFile_keeps (env : Env) (filePath projectPath : jstr)
  (ix : Indexer K) (initial : Database K) :
  let ix' := fst (removeFile env filePath projectPath ix) in
  (consistent (db ix) -> consistent (db ix')) /\
  (consistent (db ix) -> persisted initial ix -> persisted initial ix') /\
  length (written ix') =
  length (written ix) +
  (if snd (removeFile env filePath projectPath ix) then 1 else 0).
Proof.
  cbv zeta. unfold removeFile. set (rel := getRelativePath _ _ _).
  cbn [fst snd]. split; [|split].
  - intros (Hnd & Hkeys & Hpath).
    assert (Hdb : forall (b : bool) (ix0 : Indexer K),
              db (if b then saveDatabase ix0 else ix0) = db ix0)
      by (intros [|] ?; reflexivity).
    rewrite Hdb. unfold consistent. cbn [db files keywords].
    split; [rewrite HistoryFacts.keys_delete; now apply NoDup_filter|].
    split; [now rewrite !HistoryFacts.keys_delete, Hkeys|].
    now apply HistoryFacts.Forall_delete.
  - intros (Hnd & Hkeys & Hpath) Hp. unfold get.
    destruct (ownGet rel (files (db ix))) as [r|] eqn:Hown; [reflexivity|].
    destruct (isProtoKey rel); [reflexivity|]. cbn [truthy].
    assert (Hkw : ownGet rel (keywords (db ix)) = None).
    { apply ownGet_None. rewrite <- Hkeys. now apply ownGet_None. }
    apply ownGet_None in Hown, Hkw. rewrite !delete_absent by assumption.
    destruct ix as [[fs ks m v] w]. exact Hp.
  - destruct (truthy _); cbn [saveDatabase written length]; lia.
Qed.

Lemma perform_keeps (o : operation) (ix ix' : Indexer K)
  (initial : Database K) :
  perform extractKeywords o ix = Some ix' ->
  consistent (db ix) -> persisted initial ix ->
  consistent (db ix') /\ persisted initial ix'.
Proof.
  destruct o as [env f p|env f p| |]; cbn [perform].
  - destruct (indexFile extractKeywords env f p ix) as [[ix1 res]|] eqn:E;
      [|discriminate].
    intros [= <-] Hc Hp.
    destruct (@indexFile_keeps env f p ix ix1 res initial E)
      as (H1 & H2 & _). auto.
  - intros [= <-] Hc Hp.
    destruct (removeFile_keeps env f p ix initial) as (H1 & H2 & _). auto.
  - intros [= <-] _ _. split; [|reflexivity].
    repeat split; constructor.
  - intros [= <-] Hc _. split; [assumption|reflexivity].
Qed.

Lemma perform_total (o : operation) (ix : Indexer K) :
  assignable o -> exists ix', perform extractKeywords o ix = Some ix'.
Proof.
  destruct o as [env f p|env f p| |]; cbn [perform assignable]; eauto.
  intros Hrel.
  destruct (@indexFile_total env f p ix Hrel) as (ix' & res & ->).
  cbn [option_map fst]. eauto.
Qed.

(** X9. Whatever [extractKeywords] returns for a text, every sequence of
    [indexFile], [removeFile], [clear] and [close] that assigns to no
    property [__proto__] runs through on an indexer that starts from a
    consistent database, and the database stays consistent: files and
    histograms have the same distinct paths and every record is filed
    under its own path.  The database in memory is the document written
    last. *)
Theorem run_invariant (ops : list operation) (initial : Database K) :
  consistent initial ->
  Forall assignable ops ->
  exists ix,
    run extractKeywords ops (mkIndexer initial []) = Some ix /\
    consistent (db ix) /\
    persisted initial ix.
Proof.
  intros Hc Hops.
  assert (Hp : persisted initial (mkIndexer initial [])) by reflexivity.
  change initial with (db (mkIndexer initial [])) in Hc.
  revert Hc Hp. generalize (mkIndexer initial []) as ix0.
  induction Hops as [|o rest Ho _ IH]; intros ix0 Hc Hp; cbn [run].
  - exists ix0. auto.
  - destruct (@perform_total o ix0 Ho) as [ix1 E]. rewrite E.
    destruct (@perform_keeps o ix0 ix1 initial E Hc Hp) as [Hc1 Hp1].
    now apply IH.
Qed.

(** X14. After [clear] the database is empty and written, no file is
    listed, and a readable file whose relative path is not [__proto__] is
    indexed as new, whatever the store held and whatever the file holds:
    it is the only file of the database, with its histogram beside it. *)
Theorem clear_then_index (env : Env) (filePath projectPath : jstr)
  (ix : Indexer K) (text : jstr) (stats : Stats) :
  readFileSync env filePath = inl text ->
  statSync env filePath = inl stats ->
  getRelativePath env projectPath filePath <> str "__proto__" ->
  getAllFiles (clear ix) = [] /\
  written (clear ix) = emptyDatabase K :: written ix /\
  exists ix',
    indexFile extractKeywords env filePath projectPath (clear ix) =
    Some (ix', Indexed (getRelativePath env projectPath filePath)
                       (stat_size stats)) /\
    keys (files (db ix')) = [getRelativePath env projectPath filePath] /\
    keywords (db ix') =
    [(getRelativePath env projectPath filePath, extractKeywords text)] /\
    written ix' = db ix' :: emptyDatabase K :: written ix.
Proof.
  intros Hread Hstat Hrel. split; [reflexivity|]. split; [reflexivity|].
  eexists. unfold indexFile, sameHash, get, set.
  rewrite Hread, Hstat.
  cbn [clear saveDatabase db files keywords emptyDatabase ownGet].
  apply jstr_eqb_neq in Hrel. rewrite Hrel.
  destruct (isProtoKey _); cbn [upsert];
    (split; [reflexivity|]); (split; [reflexivity|]); split; reflexivity.
Qed.

End Histogram.

(** Where [Store.indexFile] answers, it is [Core.indexFile] for any
    extraction that gives the counts of [Keywords.extractKeywords]. *)
Lemma indexFile_lift (extract : jstr -> obj N) (env : Env)
  (filePath projectPath : jstr) (ix ix' : Store.Indexer)
  (res : IndexResult) :
  (forall text kws,
     Keywords.extractKeywords text = Some kws -> extract text = kws) ->
  Store.indexFile env filePath projectPath ix = Some (ix', res) ->
  indexFile extract env filePath projectPath (liftIndexer ix) =
  Some (liftIndexer ix', res).
Proof.
  intros Hext. unfold Store.indexFile, indexFile.
  cbn [liftIndexer lift db files keywords metadata version written].
  destruct (readFileSync env filePath) as [text|m];
    [|now intros [= <- <-]].
  destruct (statSync env filePath) as [stats|m]; [|now intros [= <- <-]].
  destruct (sameHash _ _ _); [now intros [= <- <-]|].
  destruct (Keywords.extractKeywords text) as [kws|] eqn:Hk; [|discriminate].
  rewrite (Hext _ _ Hk).
  destruct (set _ _ (Store.files (Store.db ix))) as [fs|]; [|discriminate].
  destruct (set _ _ (Store.keywords (Store.db ix))) as [ks|];
    [|discriminate].
  intros [= <- <-]. reflexivity.
Qed.

Lemma run_invariant_witness :
  Keywords.extractKeywords classText = None /\
  exists ix,
    run Keywords.extractKeywords
        [DoIndex classEnv (str "/proj/a.js") (str "/proj");
         DoRemove sampleEnv (str "/proj/b.js") (str "/proj");
         DoIndex sampleEnv (str "/proj/b.js") (str "/proj"); DoClose]
        (mkIndexer (emptyDatabase (option (obj N))) []) = Some ix /\
    consistent (db ix) /\
    persisted (emptyDatabase (option (obj N))) ix.
Proof.
  split; [reflexivity|].
  apply (@run_invariant (option (obj N)) Keywords.extractKeywords).
  - repeat split; constructor.
  - repeat constructor; discriminate.
Defined.

Lemma clear_then_index_witness :
  exists ix',
    indexFile Keywords.extractKeywords classEnv (str "/proj/a.js")
              (str "/proj")
              (clear (mkIndexer
                        (mkDatabase (Store.files scoreboard) [] [] None) [])) =
    Some (ix', Indexed (str "a.js") 24) /\
    keys (files (db ix')) = [str "a.js"].
Proof.
  destruct (@clear_then_index (option (obj N)) Keywords.extractKeywords
              classEnv (str "/proj/a.js") (str "/proj")
              (mkIndexer (mkDatabase (Store.files scoreboard) [] [] None) [])
              classText (mkStats 24 (str "2024-01-01T00:00:00.000Z"))
              eq_refl eq_refl)
    as (_ & _ & ix' & H1 & H2 & _).
  - discriminate.
  - exists ix'. split; [exact H1|exact H2].
Defined.

End CoreFacts.

(* ------------------------------------------------------------------------- *)
(** ** The handlers of the file watcher *)

Module EventFacts.

Import Core Watcher.

Section Handlers.

Variable K : Type.
Variable extractKeywords : jstr -> K.
Variable shouldIndex : Env -> jstr -> option bool.
Variable projectPath : jstr.

Lemma handle_total (e : event) (w0 : IndexerWatcher K) :
  assignable projectPath e ->
  exists w, handle extractKeywords shouldIndex projectPath e w0 = Some w.
Proof.
  destruct e as [env f|env f|env f|]; cbn [Watcher.handle assignable];
    [| |eauto..].
  - intros Hrel. unfold onFileAdded.
    destruct (shouldIndex env f) as [[|]|]; [|eauto..].
    destruct (@CoreFacts.indexFile_total K extractKeywords env f projectPath
                (indexer w0) Hrel) as (ix & res & ->).
    destruct res; eauto.
  - intros Hrel. unfold onFileChanged.
    destruct (shouldIndex env f) as [[|]|]; [|eauto..].
    destruct (@CoreFacts.indexFile_total K extractKeywords env f projectPath
                (indexer w0) Hrel) as (ix & res & ->).
    destruct res; eauto.
Qed.

Lemma handle_step (e : event) (w0 w : IndexerWatcher K) :
  handle extractKeywords shouldIndex projectPath e w0 = Some w ->
  (length (written (indexer w)) + N.to_nat (changes (stats w0)) =
   length (written (indexer w0)) + N.to_nat (changes (stats w))) /\
  (filesAdded (stats w0) <= filesAdded (stats w))%N /\
  (filesChanged (stats w0) <= filesChanged (stats w))%N /\
  (filesDeleted (stats w0) <= filesDeleted (stats w))%N /\
  (errors (stats w0) <= errors (stats w))%N /\
  (reported (stats w) <= reported (stats w0) + 1)%N /\
  (consistent (db (indexer w0)) -> consistent (db (indexer w))).
Proof.
  assert (Hindex : forall env filePath ix res,
            indexFile extractKeywords env filePath projectPath (indexer w0)
            = Some (ix, res) ->
            (consistent (db (indexer w0)) -> consistent (db ix)) /\
            length (written ix) =
            length (written (indexer w0)) +
            match res with Indexed _ _ => 1 | _ => 0 end).
  { intros env filePath ix res E.
    destruct (@CoreFacts.indexFile_keeps K extractKeywords env filePath
                projectPath (indexer w0) ix res (db ix) E)
      as (H1 & _ & H3). auto. }
  destruct e as [env f|env f|env f|]; cbn [Watcher.handle].
  - unfold onFileAdded.
    destruct (shouldIndex env f) as [[|]|].
    + destruct (indexFile extractKeywords env f projectPath (indexer w0))
        as [[ix res]|] eqn:E; [|discriminate].
      destruct (Hindex _ _ _ _ E) as [Hc Hlen].
      destruct res; intros [= <-]; unfold reported, changes;
        cbn [indexer stats filesAdded filesChanged filesDeleted errors];
        (split; [lia|]); (split; [lia|]); (split; [lia|]);
        (split; [lia|]); (split; [lia|]); (split; [lia|assumption]).
    + intros [= <-]. unfold reported.
      (split; [lia|]); (split; [lia|]); (split; [lia|]);
      (split; [lia|]); (split; [lia|]); (split; [lia|tauto]).
    + intros [= <-]. unfold reported.
      (split; [lia|]); (split; [lia|]); (split; [lia|]);
      (split; [lia|]); (split; [lia|]); (split; [lia|tauto]).
  - unfold onFileChanged.
    destruct (shouldIndex env f) as [[|]|].
    + destruct (indexFile extractKeywords env f projectPath (indexer w0))
        as [[ix res]|] eqn:E; [|discriminate].
      destruct (Hindex _ _ _ _ E) as [Hc Hlen].
      destruct res; intros [= <-]; unfold reported, changes;
        cbn [indexer stats filesAdded filesChanged filesDeleted errors];
        (split; [lia|]); (split; [lia|]); (split; [lia|]);
        (split; [lia|]); (split; [lia|]); (split; [lia|assumption]).
    + intros [= <-]. unfold reported.
      (split; [lia|]); (split; [lia|]); (split; [lia|]);
      (split; [lia|]); (split; [lia|]); (split; [lia|tauto]).
    + intros [= <-]. unfold reported.
      (split; [lia|]); (split; [lia|]); (split; [lia|]);
      (split; [lia|]); (split; [lia|]); (split; [lia|tauto]).
  - intros [= <-]. unfold onFileDeleted.
    destruct (@CoreFacts.removeFile_keeps K env f projectPath (indexer w0)
                (db (indexer w0))) as (Hc & _ & Hlen).
    destruct (removeFile env f projectPath (indexer w0)) as [ix removed].
    cbn [fst snd] in *.
    destruct removed; unfold reported, changes;
      cbn [indexer stats filesAdded filesChanged filesDeleted errors];
      (split; [lia|]); (split; [lia|]); (split; [lia|]);
      (split; [lia|]); (split; [lia|]); (split; [lia|assumption]).
  - intros [= <-]. unfold onError, reported, changes.
    cbn [indexer stats filesAdded filesChanged filesDeleted errors].
    (split; [lia|]); (split; [lia|]); (split; [lia|]);
    (split; [lia|]); (split; [lia|]); (split; [lia|tauto]).
Qed.

(** X21. Whatever the filter of the watcher answers and whatever
    [extractKeywords] returns, the handlers answer to every sequence of
    add, change, unlink and error events that makes them assign to no
    property [__proto__]; from counters at zero on, [filesAdded],
    [filesChanged] and [filesDeleted] together count the documents written
    since, the four counters together do not exceed the number of events,
    and a consistent database stays consistent.  The handler of a single
    such event answers, lowers no counter, raises the four together by one
    at most, and writes as often as it raises the first three. *)
Theorem handleAll_counts (events : list event) (ix : Indexer K) :
  Forall (assignable projectPath) events ->
  (exists w,
     handleAll extractKeywords shouldIndex projectPath events
       (mkIndexerWatcher ix noStats) = Some w /\
     length (written (indexer w)) =
     length (written ix) + N.to_nat (changes (stats w)) /\
     N.to_nat (reported (stats w)) <= length events /\
     (consistent (db ix) -> consistent (db (indexer w)))) /\
  (forall e w0,
     assignable projectPath e ->
     exists w1,
       handle extractKeywords shouldIndex projectPath e w0 = Some w1 /\
       (filesAdded (stats w0) <= filesAdded (stats w1))%N /\
       (filesChanged (stats w0) <= filesChanged (stats w1))%N /\
       (filesDeleted (stats w0) <= filesDeleted (stats w1))%N /\
       (errors (stats w0) <= errors (stats w1))%N /\
       (reported (stats w1) <= reported (stats w0) + 1)%N /\
       length (written (indexer w1)) + N.to_nat (changes (stats w0)) =
       length (written (indexer w0)) + N.to_nat (changes (stats w1))).
Proof.
  intros Hevents. split.
  - assert (H : forall w0,
              exists w,
                handleAll extractKeywords shouldIndex projectPath events w0
                = Some w /\
                (length (written (indexer w)) + N.to_nat (changes (stats w0))
                 = length (written (indexer w0)) +
                   N.to_nat (changes (stats w))) /\
                N.to_nat (reported (stats w)) <=
                N.to_nat (reported (stats w0)) + length events /\
                (consistent (db (indexer w0)) ->
                 consistent (db (indexer w)))).
    { induction Hevents as [|e rest He _ IH]; intros w0;
        cbn [Watcher.handleAll].
      - exists w0. split; [reflexivity|]. split; [lia|].
        split; [cbn [length]; lia|tauto].
      - destruct (@handle_total e w0 He) as [w1 E].
        destruct (@handle_step e w0 w1 E) as (S1 & _ & _ & _ & _ & S6 & S7).
        rewrite E.
        destruct (IH w1) as (w & Hrun & H1 & H2 & H3).
        exists w. split; [assumption|]. split; [lia|].
        split; [cbn [length]; lia|tauto]. }
    destruct (H (mkIndexerWatcher ix noStats)) as (w & Hrun & H1 & H2 & H3).
    exists w. split; [assumption|].
    cbn [indexer stats] in *. unfold reported, changes in *.
    cbn [noStats filesAdded filesChanged filesDeleted errors] in *.
    split; [lia|]. split; [lia|assumption].
  - intros e w0 He. destruct (@handle_total e w0 He) as [w1 E].
    destruct (@handle_step e w0 w1 E) as (S1 & S2 & S3 & S4 & S5 & S6 & _).
    exists w1. auto 10.
Qed.

End Handlers.

Lemma handleAll_counts_witness :
  exists w,
    handleAll Keywords.extractKeywords
      (fun env f => shouldIndexFile env f defaultConfig) (str "/proj")
      [Add classEnv (str "/proj/a.js"); Change classEnv (str "/proj/a.js");
       Add brokenEnv (str "/proj/b.js"); Unlink sampleEnv (str "/proj/a.js");
       Unlink sampleEnv (str "/proj/a.js"); Fault]
      (mkIndexerWatcher (mkIndexer (emptyDatabase (option (obj N))) [])
                        noStats) = Some w /\
    length (written (indexer w)) = 0 + N.to_nat (changes (stats w)) /\
    N.to_nat (reported (stats w)) <= 6.
Proof.
  destruct (@handleAll_counts (option (obj N)) Keywords.extractKeywords
              (fun env f => shouldIndexFile env f defaultConfig) (str "/proj")
              [Add classEnv (str "/proj/a.js");
               Change classEnv (str "/proj/a.js");
               Add brokenEnv (str "/proj/b.js");
               Unlink sampleEnv (str "/proj/a.js");
               Unlink sampleEnv (str "/proj/a.js"); Fault]
              (mkIndexer (emptyDatabase (option (obj N))) []))
    as [(w & Hrun & H1 & H2 & _) _].
  - repeat constructor; discriminate.
  - exists w. split; [exact Hrun|]. split; assumption.
Defined.

End EventFacts.

(* ------------------------------------------------------------------------- *)
(** ** Indexing a project *)

Module ProjectFacts.

Import Core Project.

Lemma firstn_beyond (A : Type) (n : nat) (l : list A) :
  firstn (Nat.min n (length l)) l = firstn n l.
Proof.
  destruct (Nat.le_gt_cases n (length l)) as [H|H].
  - now rewrite Nat.min_l.
  - rewrite Nat.min_r by lia. now rewrite !firstn_all2 by lia.
Qed.

(** A batch that starts at an index that is not negative is the next
    [batchSize] files. *)
Lemma sliceZ_chunk (A : Type) (i b : Z) (l : list A) :
  (0 <= i)%Z -> (0 < b)%Z ->
  sliceZ i (i + b) l = firstn (Z.to_nat b) (skipn (Z.to_nat i) l).
Proof.
  intros Hi Hb. unfold sliceZ, relativeIndex. cbv zeta.
  destruct (i <? 0)%Z eqn:E1; [apply Z.ltb_lt in E1; lia|].
  destruct (i + b <? 0)%Z eqn:E2; [apply Z.ltb_lt in E2; lia|].
  destruct (Z.le_gt_cases i (Z.of_nat (length l))) as [H|H].
  - rewrite (Z.min_l i) by assumption.
    rewrite <- (firstn_beyond (Z.to_nat b)), length_skipn. f_equal. lia.
  - rewrite !Z.min_r by lia. rewrite Z.sub_diag.
    rewrite (skipn_all2 l) by lia.
    now rewrite (skipn_all2 l), !firstn_nil by lia.
Qed.

Lemma batchSizeOf_positive (configured : Z) :
  (0 <= configured)%Z -> (0 < batchSizeOf configured)%Z.
Proof.
  intros H. unfold batchSizeOf.
  destruct (configured =? 0)%Z eqn:E; [lia|]. apply Z.eqb_neq in E. lia.
Qed.

Lemma batchSizeOf_negative (configured : Z) :
  (configured < 0)%Z -> (batchSizeOf configured < 0)%Z.
Proof.
  intros H. unfold batchSizeOf.
  destruct (configured =? 0)%Z eqn:E; [apply Z.eqb_eq in E; lia|lia].
Qed.

Section Indexing.

Variable K : Type.
Variable extractKeywords : jstr -> K.
Variable env : Env.
Variable shouldIndex : jstr -> bool.
Variable projectPath : jstr.

Lemma indexBatch_app (a b : list jstr) (st : Indexer K * Counters) :
  indexBatch extractKeywords env projectPath (a ++ b) st =
  match indexBatch extractKeywords env projectPath a st with
  | Some st' => indexBatch extractKeywords env projectPath b st'
  | None => None
  end.
Proof.
  revert st; induction a as [|f a IH]; intros st;
    cbn [app indexBatch]; [reflexivity|].
  destruct (indexFile extractKeywords env f projectPath (fst st))
    as [[ix res]|]; [apply IH|reflexivity].
Qed.

(** With a positive size the rounds of the loop index the files from [i]
    on, one after the other, and end. *)
Lemma indexBatches_from (batchSize : Z) (files : list jstr) (fuel : nat)
  (i : Z) (st : Indexer K * Counters) :
  (0 < batchSize)%Z -> (0 <= i)%Z ->
  length files - Z.to_nat i < fuel ->
  indexBatches extractKeywords env projectPath batchSize files fuel i st =
  match
    indexBatch extractKeywords env projectPath (skipn (Z.to_nat i) files) st
  with
  | Some st' => Finished st'
  | None => Outside
  end.
Proof.
  intros Hb.
  revert i st; induction fuel as [|fuel IH]; intros i st Hi Hfuel; [lia|].
  cbn [indexBatches].
  destruct (i <? Z.of_nat (length files))%Z eqn:E.
  - apply Z.ltb_lt in E. rewrite sliceZ_chunk by assumption.
    rewrite <- (firstn_skipn (Z.to_nat batchSize)
                  (skipn (Z.to_nat i) files)) at 2.
    rewrite indexBatch_app.
    destruct (indexBatch extractKeywords env projectPath
                (firstn (Z.to_nat batchSize) (skipn (Z.to_nat i) files)) st)
      as [st'|]; [|reflexivity].
    rewrite IH by lia. rewrite skipn_skipn.
    now replace (Z.to_nat batchSize + Z.to_nat i)
      with (Z.to_nat (i + batchSize)) by lia.
  - apply Z.ltb_ge in E. rewrite skipn_all2 by lia. reflexivity.
Qed.

(** With a negative size the loop does not end. *)
Lemma indexBatches_negative (batchSize : Z) (files : list jstr) (fuel : nat)
  (i : Z) (st r : Indexer K * Counters) :
  (batchSize < 0)%Z -> (i <= 0)%Z -> files <> [] ->
  indexBatches extractKeywords env projectPath batchSize files fuel i st
  <> Finished r.
Proof.
  intros Hb Hi Hfiles.
  revert i st Hi; induction fuel as [|fuel IH]; intros i st Hi;
    cbn [indexBatches]; [discriminate|].
  assert (E : (i <? Z.of_nat (length files))%Z = true).
  { apply Z.ltb_lt. destruct files; [contradiction|cbn [length]; lia]. }
  rewrite E.
  destruct (indexBatch _ _ _ _ st) as [st'|]; [|discriminate].
  apply IH. lia.
Qed.

(** X22. For a configured batch size that is an integer.  When it is
    positive, or 0, in whose place 50 is taken, the batch loop of
    [indexProject] ends, within as many rounds as there are files and one
    more, and calls [indexFile] on the files in their order, as one loop
    over all of them does; so the result of [indexProject] is the same for
    all such sizes.  When it is negative and there is a file to index, the
    loop does not end, however many rounds it is given, and [indexProject]
    does not return. *)
Theorem indexProject_batch_size (path_join : jstr -> jstr -> jstr)
  (listing : option (list node)) (initial : Database K) :
  (forall size files fuel st,
     (0 <= size)%Z -> length files < fuel ->
     indexBatches extractKeywords env projectPath (batchSizeOf size) files
                  fuel 0 st =
     match indexBatch extractKeywords env projectPath files st with
     | Some st' => Finished st'
     | None => Outside
     end) /\
  (forall size1 size2 fuel1 fuel2,
     (0 <= size1)%Z -> (0 <= size2)%Z ->
     length (filter shouldIndex
               (getFilesRecursive path_join projectPath listing)) < fuel1 ->
     length (filter shouldIndex
               (getFilesRecursive path_join projectPath listing)) < fuel2 ->
     indexProject extractKeywords env shouldIndex projectPath path_join
                  size1 listing initial fuel1 =
     indexProject extractKeywords env shouldIndex projectPath path_join
                  size2 listing initial fuel2) /\
  (forall size files fuel st r,
     (size < 0)%Z -> files <> [] ->
     indexBatches extractKeywords env projectPath (batchSizeOf size) files
                  fuel 0 st <> Finished r) /\
  (forall size fuel r,
     (size < 0)%Z ->
     filter shouldIndex (getFilesRecursive path_join projectPath listing)
     <> [] ->
     indexProject extractKeywords env shouldIndex projectPath path_join
                  size listing initial fuel <> Finished r).
Proof.
  assert (Hall : forall size files fuel st,
            (0 <= size)%Z -> length files < fuel ->
            indexBatches extractKeywords env projectPath (batchSizeOf size)
                         files fuel 0 st =
            match indexBatch extractKeywords env projectPath files st with
            | Some st' => Finished st'
            | None => Outside
            end).
  { intros size files fuel st Hsize Hfuel.
    rewrite indexBatches_from;
      [reflexivity|now apply batchSizeOf_positive|lia|].
    cbn. lia. }
  assert (Hneg : forall size files fuel st r,
            (size < 0)%Z -> files <> [] ->
            indexBatches extractKeywords env projectPath (batchSizeOf size)
                         files fuel 0 st <> Finished r).
  { intros size files fuel st r Hsize Hfiles.
    apply indexBatches_negative;
      [now apply batchSizeOf_negative|lia|assumption]. }
  split; [exact Hall|]. split; [|split; [exact Hneg|]].
  - intros size1 size2 fuel1 fuel2 H1 H2 Hf1 Hf2.
    unfold indexProject. now rewrite !Hall by assumption.
  - intros size fuel [[ix c] stats] Hsize Hfiles.
    unfold indexProject.
    pose proof (fun r => @Hneg size _ fuel
                           (mkIndexer initial [], mkCounters 0 0 0) r
                           Hsize Hfiles) as Hno.
    destruct (indexBatches extractKeywords env projectPath
                (batchSizeOf size) _ fuel 0 _) as [[ix1 c1]| |];
      [|discriminate..].
    now destruct (Hno (ix1, c1)).
Qed.

Lemma indexBatch_total (batch : list jstr) (st : Indexer K * Counters) :
  Forall (fun f => getRelativePath env projectPath f <> str "__proto__")
         batch ->
  exists st', indexBatch extractKeywords env projectPath batch st = Some st'.
Proof.
  intros Hall. revert st.
  induction Hall as [|f rest Hf _ IH]; intros st;
    cbn [indexBatch]; [eauto|].
  destruct (@CoreFacts.indexFile_total K extractKeywords env f projectPath
              (fst st) Hf) as (ix & res & ->).
  apply IH.
Qed.

Lemma indexBatch_counts (batch : list jstr) (ix0 ix : Indexer K)
  (c0 c : Counters) :
  indexBatch extractKeywords env projectPath batch (ix0, c0) = Some (ix, c) ->
  (indexed c + skipped c + errors c =
   indexed c0 + skipped c0 + errors c0 + N.of_nat (length batch))%N /\
  (indexed c0 <= indexed c)%N /\
  length (written ix) + N.to_nat (indexed c0) =
  length (written ix0) + N.to_nat (indexed c) /\
  (consistent (db ix0) -> consistent (db ix)) /\
  (Forall (fun kv => isProtoKey (extension (snd kv)) = false)
          (files (db ix0)) ->
   Forall (fun f => isProtoKey (getExtension env f) = false) batch ->
   Forall (fun kv => isProtoKey (extension (snd kv)) = false)
          (files (db ix))).
Proof.
  revert ix0 c0; induction batch as [|f rest IH]; intros ix0 c0;
    cbn [indexBatch fst snd].
  - intros [= <- <-]. split; [cbn [length]; lia|]. split; [lia|].
    split; [lia|]. split; tauto.
  - destruct (indexFile extractKeywords env f projectPath ix0)
      as [[ix1 res]|] eqn:E; [|discriminate].
    intros Hrest. destruct (IH _ _ Hrest) as (H1 & H2 & H3 & H4 & H5).
    destruct (@CoreFacts.indexFile_keeps K extractKeywords env f projectPath
                ix0 ix1 res (db ix0) E) as (Hc & _ & Hlen).
    pose proof (@CoreFacts.indexFile_effect K extractKeywords env f
                  projectPath ix0 ix1 res E) as Heff.
    split; [destruct res; cbn [count indexed skipped errors length] in *;
            lia|].
    split; [destruct res; cbn [count indexed skipped errors] in *; lia|].
    split; [destruct res; cbn [count indexed skipped errors] in *; lia|].
    split; [tauto|].
    intros Hold Hnew. inversion Hnew as [|? ? Hf Hrest']; subst.
    apply H5; [|assumption].
    destruct res as [path sz|path|path m]; [|now subst ix1..].
    destruct Heff as (text & stats & _ & _ & _ & _ & -> & _).
    apply HistoryFacts.Forall_upsert; [assumption|]. cbn [snd extension].
    exact Hf.
Qed.

Lemma getStats_defined (ix : Indexer K) :
  Forall (fun kv => isProtoKey (extension (snd kv)) = false)
         (files (db ix)) ->
  exists stats,
    getStats ix = Some stats /\ fileCount stats = length (files (db ix)).
Proof.
  intros Hall. unfold getStats, Report.getStats. cbn [Store.db Store.files].
  set (fs := values (files (db ix))).
  assert (Hproto : Forall (fun f => isProtoKey (extension f) = false) fs).
  { apply Forall_forall. intros f Hf. unfold fs, values in Hf.
    apply in_map_iff in Hf. destruct Hf as (kv & <- & Hkv).
    rewrite StoreFacts.entries_In in Hkv.
    rewrite Forall_forall in Hall. now apply Hall. }
  assert (Hinit : counted [] []).
  { split; [constructor|]. split; [intros k e [=]|].
    split; [intros f []|]. split; reflexivity. }
  destruct (ReportFacts.counted_fold Hinit Hproto) as (by_ext & -> & _).
  eexists. split; [reflexivity|]. cbn [fileCount]. unfold fs, values.
  rewrite length_map.
  apply Permutation_length, KeywordsMore.entries_perm.
Qed.

(** X23. Let the configured batch size be an integer that is not negative,
    let no file that the filter accepts have the relative path [__proto__]
    or an extension that names a member of [Object.prototype], and let no
    record of the database that is loaded have such an extension.  Then,
    whatever the filter accepts and whatever [extractKeywords] returns,
    [indexProject] returns, within as many rounds of the batch loop as
    there are accepted files and one more: it has called [indexFile] on
    the files of [getFilesRecursive] that the filter accepts, in their
    order, then [getStats] and [close]; [indexed + skipped + errors] is the
    number of those files; the indexer has written once per file counted as
    indexed and once on [close], the document written last being the
    database in memory; [stats.fileCount] is the number of files in the
    database; and a database that was consistent when loaded is consistent
    at the end. *)
Theorem indexProject_summary (path_join : jstr -> jstr -> jstr)
  (configured : Z) (listing : option (list node)) (initial : Database K)
  (fuel : nat) :
  let accepted :=
    filter shouldIndex (getFilesRecursive path_join projectPath listing) in
  (0 <= configured)%Z ->
  length accepted < fuel ->
  Forall (fun f => getRelativePath env projectPath f <> str "__proto__")
         accepted ->
  Forall (fun f => isProtoKey (getExtension env f) = false) accepted ->
  Forall (fun kv => isProtoKey (extension (snd kv)) = false)
         (files initial) ->
  exists ix c stats,
    indexProject extractKeywords env shouldIndex projectPath path_join
                 configured listing initial fuel =
      Finished (close ix, c, stats) /\
    indexBatch extractKeywords env projectPath accepted
               (mkIndexer initial [], mkCounters 0 0 0) = Some (ix, c) /\
    getStats ix = Some stats /\
    N.to_nat (indexed c + skipped c + errors c) = length accepted /\
    length (written (close ix)) = N.to_nat (indexed c) + 1 /\
    hd_error (written (close ix)) = Some (db (close ix)) /\
    fileCount stats = length (files (db (close ix))) /\
    (consistent initial -> consistent (db (close ix))).
Proof.
  intros accepted Hsize Hfuel Hrel Hext Hinit.
  destruct (indexBatch_total (mkIndexer initial [], mkCounters 0 0 0) Hrel)
    as ([ix c] & Hpass).
  destruct (@indexBatch_counts accepted _ ix _ c Hpass)
    as (H1 & _ & H3 & H4 & H5).
  destruct (@getStats_defined ix (H5 Hinit Hext))
    as (stats & Hstats & Hcount).
  exists ix, c, stats.
  split.
  { unfold indexProject. fold accepted.
    rewrite indexBatches_from;
      [|now apply batchSizeOf_positive|lia|cbn; lia].
    cbn [Z.to_nat skipn]. rewrite Hpass.
    now rewrite Hstats. }
  split; [assumption|]. split; [assumption|].
  cbn [close saveDatabase written db length hd_error indexed skipped errors]
    in *.
  split; [lia|]. split; [lia|]. split; [reflexivity|].
  split; assumption.
Qed.

End Indexing.

Lemma indexProject_batch_size_witness :
  let tree := Some [FileNode (str "a.js");
                    DirNode (str "lib") (Some [FileNode (str "b.js")]);
                    DirNode (str ".git") (Some [FileNode (str "c.js")])] in
  let run size fuel :=
    indexProject Keywords.extractKeywords classEnv (fun _ => true)
      (str "/proj") (fun d n => d ++ "/"%char :: n) size tree
      (emptyDatabase (option (obj N))) fuel in
  run 1%Z 3 = run 0%Z 3 /\
  run 1%Z 3 = run 7%Z 5 /\
  (exists ix c stats,
     run 1%Z 3 = Finished (ix, c, stats) /\ indexed c = 2%N) /\
  (forall r, run (-1)%Z 1000 <> Finished r).
Proof.
  intros tree run.
  pose proof (@indexProject_batch_size (option (obj N))
                Keywords.extractKeywords classEnv (fun _ => true)
                (str "/proj") (fun d n => d ++ "/"%char :: n) tree
                (emptyDatabase (option (obj N)))) as (_ & Hsame & _ & Hneg).
  split; [apply Hsame; [lia|lia|vm_compute; lia|vm_compute; lia]|].
  split; [apply Hsame; [lia|lia|vm_compute; lia|vm_compute; lia]|].
  split.
  - unfold run.
    destruct (indexProject Keywords.extractKeywords classEnv (fun _ => true)
                (str "/proj") (fun d n => d ++ "/"%char :: n) 1 tree
                (emptyDatabase (option (obj N))) 3)
      as [[[ix c] stats]| |] eqn:E; [|vm_compute in E; discriminate E..].
    exists ix, c, stats. split; [reflexivity|].
    vm_compute in E. now inversion E.
  - intros r. apply Hneg; [lia|]. vm_compute. discriminate.
Defined.

Lemma indexProject_summary_witness :
  let tree := Some [FileNode (str "a.js");
                    DirNode (str "lib") (Some [FileNode (str "b.js")]);
                    DirNode (str ".git") (Some [FileNode (str "c.js")])] in
  let accepts f :=
    match shouldIndexFile classEnv f defaultConfig with
    | Some true => true
    | _ => false
    end in
  Keywords.extractKeywords classText = None /\
  exists ix c stats,
    indexProject Keywords.extractKeywords classEnv accepts (str "/proj")
      (fun d n => d ++ "/"%char :: n) 2%Z tree
      (emptyDatabase (option (obj N))) 3 =
      Finished (close ix, c, stats) /\
    N.to_nat (indexed c + skipped c + errors c) = 2 /\
    length (written (close ix)) = N.to_nat (indexed c) + 1 /\
    fileCount stats = length (files (db (close ix))).
Proof.
  intros tree accepts. split; [reflexivity|].
  destruct (@indexProject_summary (option (obj N)) Keywords.extractKeywords
              classEnv accepts (str "/proj")
              (fun d n => d ++ "/"%char :: n) 2%Z tree
              (emptyDatabase (option (obj N))) 3)
    as (ix & c & stats & H1 & _ & _ & H4 & H5 & _ & H7 & _).
  - lia.
  - vm_compute. lia.
  - vm_compute. repeat constructor; discriminate.
  - vm_compute. repeat constructor.
  - constructor.
  - exists ix, c, stats. split; [exact H1|]. split; [exact H4|].
    split; [exact H5|exact H7].
Defined.

End ProjectFacts.
